(** * Thrift Python transport layer ([lib/py/src/transport/TTransport.py])

    A shallow embedding of the transports of [TTransport.py] and the
    properties of its buffering, framing and SASL negotiation.

    Python objects are mutable; every method is modelled as a function
    from the object's state to an outcome (a value or a raised exception)
    together with the state the call leaves behind.  A wrapping transport
    owns the transport it wraps, so the wrapped state is a field of the
    wrapper's state.  The [print] tracing of [TSaslClientTransport] only
    writes to standard output and is left out. *)

From Stdlib.Strings Require Import String Byte.
From Stdlib Require Import ZArith List Lia Bool.
Import ListNotations.
Local Open Scope Z_scope.

Set Implicit Arguments.

(** ** Byte strings *)

Definition bytes := list byte.

(** Python's [len], as an integer. *)
Definition len {A : Type} (l : list A) : Z := Z.of_nat (length l).

Definition Z_of_byte (b : byte) : Z := Z.of_N (Byte.to_N b).

Definition byte_of_Z (z : Z) : byte :=
  match Byte.of_N (Z.to_N (z mod 256)) with
  | Some b => b
  | None => x00
  end.

(** Objects a caller may hand to [write]: Python does not check the
    argument's type before the call. *)
Inductive pyobj : Type :=
| PyBytes (b : bytes)
| PyStr (s : string)
| PyNone.

(** ** Exceptions *)

Module TTransportException.
Definition UNKNOWN : Z := 0.
Definition NOT_OPEN : Z := 1.
Definition ALREADY_OPEN : Z := 2.
Definition TIMED_OUT : Z := 3.
Definition END_OF_FILE : Z := 4.
Definition NEGATIVE_SIZE : Z := 5.
Definition SIZE_LIMIT : Z := 6.
Definition INVALID_CLIENT_TYPE : Z := 7.
End TTransportException.

(** The exceptions that travel through this module.  [StructError] is
    [struct.error]; [ChannelError] stands for whatever an object outside
    this module (a socket, the SASL engine) raises. *)
Inductive exn : Type :=
| EOFError
| TypeError
| ValueError
| StructError
| UnicodeEncodeError
| OverflowError
| TTransportException_ (type : Z) (message : string)
| ChannelError (what : string).

(** ** Computations: state passing with exceptions *)

Definition outcome (A : Type) : Type := (exn + A)%type.

Definition M (S A : Type) : Type := S -> outcome A * S.

Definition ret {S A : Type} (a : A) : M S A := fun s => (inr a, s).

Definition raise {S A : Type} (e : exn) : M S A := fun s => (inl e, s).

Definition bind {S A B : Type} (m : M S A) (k : A -> M S B) : M S B :=
  fun s =>
    match m s with
    | (inl e, s') => (inl e, s')
    | (inr a, s') => k a s'
    end.

(** [try: m except Exception as e: h e] *)
Definition try_except {S A : Type} (m : M S A) (h : exn -> M S A) : M S A :=
  fun s =>
    match m s with
    | (inl e, s') => h e s'
    | (inr a, s') => (inr a, s')
    end.

Definition gets {S A : Type} (f : S -> A) : M S A := fun s => (inr (f s), s).

Definition modify {S : Type} (f : S -> S) : M S unit := fun s => (inr tt, f s).

(** A value computed without touching the state ([pack], [unpack]). *)
Definition pure_ {S A : Type} (r : outcome A) : M S A := fun s => (r, s).

Declare Scope monad_scope.
Delimit Scope monad_scope with monad.
Notation "x <- m ;; k" := (bind m (fun x => k))
  (at level 61, m at next level, right associativity) : monad_scope.
Notation "m ;;; k" := (bind m (fun _ => k))
  (at level 61, right associativity) : monad_scope.
Local Open Scope monad_scope.

(** A loop whose number of iterations depends on the peer: [fuel] bounds
    the iterations and [None] means the bound was reached.  The body
    returns [inl a] to go round again with loop variables [a] and [inr b]
    to leave the loop with [b]. *)
Fixpoint loop {S A B : Type} (fuel : nat) (body : A -> M S (A + B)) (a : A)
  (s : S) : option (outcome B * S) :=
  match fuel with
  | O => None
  | S fuel' =>
      match body a s with
      | (inl e, s') => Some (inl e, s')
      | (inr (inl a'), s') => loop fuel' body a' s'
      | (inr (inr b), s') => Some (inr b, s')
      end
  end.

(** ** [struct.pack] / [struct.unpack] for the formats used *)

Definition be_uint (bs : bytes) : Z :=
  fold_left (fun acc b => acc * 256 + Z_of_byte b) bs 0.

Definition be_bytes4 (n : Z) : bytes :=
  [byte_of_Z (n / 16777216); byte_of_Z (n / 65536); byte_of_Z (n / 256);
   byte_of_Z n].

(** [pack("!i", n)]: a signed 32-bit integer in network byte order. *)
Definition pack_i (n : Z) : outcome bytes :=
  if (-2147483648 <=? n) && (n <=? 2147483647)
  then inr (be_bytes4 (n mod 4294967296))
  else inl StructError.

(** [unpack('!i', buff)] *)
Definition unpack_i (buff : bytes) : outcome Z :=
  if len buff =? 4
  then let u := be_uint buff in
       inr (if u <? 2147483648 then u else u - 4294967296)
  else inl StructError.

(** [pack(">BI", status, n)]: an unsigned byte and an unsigned 32-bit
    integer, big-endian, no padding. *)
Definition pack_BI (status n : Z) : outcome bytes :=
  if (0 <=? status) && (status <=? 255) && (0 <=? n) && (n <=? 4294967295)
  then inr (byte_of_Z status :: be_bytes4 n)
  else inl StructError.

(** [unpack(">BI", header)] *)
Definition unpack_BI (header : bytes) : outcome (Z * Z) :=
  match header with
  | b :: rest =>
      if len rest =? 4 then inr (Z_of_byte b, be_uint rest)
      else inl StructError
  | [] => inl StructError
  end.

(** ** [io.BytesIO]

    The standard library's in-memory byte stream: a byte string, a cursor
    and a closed flag.  Reading and writing happen at the cursor. *)
Module BytesIO.

Record t : Type := mk { value : bytes; pos : nat; closed : bool }.

(** Sizes and offsets are handed to C as a [Py_ssize_t], 64 bits wide
    here: an integer outside its range is refused with [OverflowError]
    when the arguments are converted, before the stream is looked at. *)
Definition PY_SSIZE_T_MAX : Z := 9223372036854775807.

Definition fits_ssize_t (n : Z) : bool :=
  (- PY_SSIZE_T_MAX - 1 <=? n) && (n <=? PY_SSIZE_T_MAX).

(** [BytesIO(initial)]; [BytesIO()] is [new []]. *)
Definition new (initial : bytes) : t := mk initial 0 false.

Definition remaining (b : t) : bytes := skipn (pos b) (value b).

(** [read(sz)]: a negative [sz] reads to the end. *)
Definition read (sz : Z) : M t bytes := fun b =>
  if negb (fits_ssize_t sz) then (inl OverflowError, b)
  else if closed b then (inl ValueError, b)
  else
    let out := if sz <? 0 then remaining b
               else firstn (Z.to_nat sz) (remaining b) in
    (inr out, mk (value b) (pos b + length out) false).

(** The bytes of the stream after [data] is stored at cursor [p]; a
    cursor beyond the end is first reached by zero padding. *)
Definition store (v : bytes) (p : nat) (data : bytes) : bytes :=
  firstn p (v ++ repeat x00 (p - length v)) ++ data
    ++ skipn (p + length data) v.

(** [write(buf)]: only bytes-like objects are accepted; writing nothing
    leaves the stream as it is. *)
Definition write (buf : pyobj) : M t Z := fun b =>
  if closed b then (inl ValueError, b)
  else
    match buf with
    | PyBytes data =>
        match data with
        | [] => (inr 0, b)
        | _ => (inr (len data),
                mk (store (value b) (pos b) data) (pos b + length data)
                   false)
        end
    | _ => (inl TypeError, b)
    end.

Definition getvalue : M t bytes := fun b =>
  if closed b then (inl ValueError, b) else (inr (value b), b).

(** [seek(offset)] from the start of the stream. *)
Definition seek (offset : Z) : M t Z := fun b =>
  if negb (fits_ssize_t offset) then (inl OverflowError, b)
  else if closed b then (inl ValueError, b)
  else if offset <? 0 then (inl ValueError, b)
  else (inr offset, mk (value b) (Z.to_nat offset) false).

Definition close : M t unit := fun b =>
  (inr tt, mk (value b) (pos b) true).

End BytesIO.

(** Running a computation on one component of a larger state. *)
Definition zoom {S X A : Type} (get : S -> X) (set : X -> S -> S)
  (m : M X A) : M S A :=
  fun s => let (r, x') := m (get s) in (r, set x' s).

(** ** [TTransportBase]

    The methods every transport provides.  [readAll] is written once, on
    top of [read], and no transport of this module overrides it. *)
Module TTransportBase.

Class Methods (T : Type) : Type := {
  isOpen : M T bool;
  open : M T unit;
  close : M T unit;
  read : Z -> M T bytes;
  write : pyobj -> M T unit;
  flush : M T unit
}.

Section ReadAll.
Context {T : Type} `{Methods T}.

(** The [while (have < sz)] loop.  Every iteration that does not raise
    adds at least one byte to [have], so [sz - have] iterations are
    enough: [fuel] is that bound, and its [O] case is only met when
    the loop condition is false (lemma [readAll_loop_fuel]). *)
Fixpoint readAll_loop (fuel : nat) (sz : Z) (buff : bytes) (have : Z)
  (t : T) : outcome bytes * T :=
  match fuel with
  | O => (inr buff, t)
  | S fuel' =>
      if have <? sz then
        match read (sz - have) t with
        | (inl e, t') => (inl e, t')
        | (inr chunk, t') =>
            let chunkLen := len chunk in
            let have' := have + chunkLen in
            let buff' := buff ++ chunk in
            if chunkLen =? 0 then (inl EOFError, t')
            else readAll_loop fuel' sz buff' have' t'
        end
      else (inr buff, t)
  end.

Definition readAll (sz : Z) : M T bytes :=
  readAll_loop (Z.to_nat sz) sz [] 0.
End ReadAll.

End TTransportBase.

(** ** [TMemoryBuffer] *)
Module TMemoryBuffer.

Record t : Type := mk { buffer : BytesIO.t }.

Definition on_buffer {A : Type} : M BytesIO.t A -> M t A :=
  zoom buffer (fun b _ => mk b).

(** [__init__(value=None, offset=0)]: the [seek] may raise. *)
Definition init (value : option bytes) (offset : Z) : outcome t :=
  let b := match value with
           | Some v => BytesIO.new v
           | None => BytesIO.new []
           end in
  if offset =? 0 then inr (mk b)
  else match BytesIO.seek offset b with
       | (inl e, _) => inl e
       | (inr _, b') => inr (mk b')
       end.

Definition isOpen : M t bool :=
  gets (fun s => negb (BytesIO.closed (buffer s))).

Definition open : M t unit := ret tt.

Definition close : M t unit := on_buffer BytesIO.close.

Definition read (sz : Z) : M t bytes := on_buffer (BytesIO.read sz).

Definition write (buf : pyobj) : M t unit :=
  _ <- on_buffer (BytesIO.write buf) ;; ret tt.

Definition flush : M t unit := ret tt.

Definition getvalue : M t bytes := on_buffer BytesIO.getvalue.

Definition cstringio_buf : M t BytesIO.t := gets buffer.

Definition cstringio_refill (partialread : bytes) (reqlen : Z)
  : M t BytesIO.t :=
  raise EOFError.

#[global] Instance methods : TTransportBase.Methods t := {|
  TTransportBase.isOpen := isOpen;
  TTransportBase.open := open;
  TTransportBase.close := close;
  TTransportBase.read := read;
  TTransportBase.write := write;
  TTransportBase.flush := flush
|}.

End TMemoryBuffer.

(** ** [TBufferedTransport] *)
Module TBufferedTransport.

Definition DEFAULT_BUFFER : Z := 4096.

Record t (U : Type) : Type := mk {
  trans : U;
  wbuf : BytesIO.t;
  rbuf : BytesIO.t;
  rbuf_size : Z
}.

Section Methods.
Context {U : Type} `{TTransportBase.Methods U}.

Definition init (trans : U) (rbuf_size : Z) : t U :=
  mk trans (BytesIO.new []) (BytesIO.new []) rbuf_size.

Definition on_trans {A : Type} : M U A -> M (t U) A :=
  zoom (@trans U) (fun u s => mk u (wbuf s) (rbuf s) (rbuf_size s)).
Definition on_wbuf {A : Type} : M BytesIO.t A -> M (t U) A :=
  zoom (@wbuf U) (fun b s => mk (trans s) b (rbuf s) (rbuf_size s)).
Definition on_rbuf {A : Type} : M BytesIO.t A -> M (t U) A :=
  zoom (@rbuf U) (fun b s => mk (trans s) (wbuf s) b (rbuf_size s)).
Definition set_wbuf (b : BytesIO.t) : M (t U) unit :=
  modify (fun s => mk (trans s) b (rbuf s) (rbuf_size s)).
Definition set_rbuf (b : BytesIO.t) : M (t U) unit :=
  modify (fun s => mk (trans s) (wbuf s) b (rbuf_size s)).

Definition isOpen : M (t U) bool := on_trans TTransportBase.isOpen.
Definition open : M (t U) unit := on_trans TTransportBase.open.
Definition close : M (t U) unit := on_trans TTransportBase.close.

Definition read (sz : Z) : M (t U) bytes :=
  ret_ <- on_rbuf (BytesIO.read sz) ;;
  if negb (len ret_ =? 0) then ret ret_
  else
    w <- gets (@rbuf_size U) ;;
    chunk <- on_trans (TTransportBase.read (Z.max sz w)) ;;
    set_rbuf (BytesIO.new chunk) ;;;
    on_rbuf (BytesIO.read sz).

Definition write (buf : pyobj) : M (t U) unit :=
  try_except
    (_ <- on_wbuf (BytesIO.write buf) ;; ret tt)
    (fun e => set_wbuf (BytesIO.new []) ;;; raise e).

Definition flush : M (t U) unit :=
  out <- on_wbuf BytesIO.getvalue ;;
  set_wbuf (BytesIO.new []) ;;;
  on_trans (TTransportBase.write (PyBytes out)) ;;;
  on_trans TTransportBase.flush.

Definition cstringio_buf : M (t U) BytesIO.t := gets (@rbuf U).

Definition cstringio_refill (partialread : bytes) (reqlen : Z)
  : M (t U) BytesIO.t :=
  w <- gets (@rbuf_size U) ;;
  retstring <-
    (if reqlen <? w
     then chunk <- on_trans (TTransportBase.read w) ;;
          ret (partialread ++ chunk)
     else ret partialread) ;;
  retstring <-
    (if len retstring <? reqlen
     then more <- on_trans
                    (TTransportBase.readAll (reqlen - len retstring)) ;;
          ret (retstring ++ more)
     else ret retstring) ;;
  set_rbuf (BytesIO.new retstring) ;;;
  gets (@rbuf U).

#[global] Instance methods : TTransportBase.Methods (t U) := {|
  TTransportBase.isOpen := isOpen;
  TTransportBase.open := open;
  TTransportBase.close := close;
  TTransportBase.read := read;
  TTransportBase.write := write;
  TTransportBase.flush := flush
|}.
End Methods.

End TBufferedTransport.

(** ** [TFramedTransport] *)
Module TFramedTransport.

Record t (U : Type) : Type := mk {
  trans : U;
  rbuf : BytesIO.t;
  wbuf : BytesIO.t
}.

Section Methods.
Context {U : Type} `{TTransportBase.Methods U}.

Definition init (trans : U) : t U :=
  mk trans (BytesIO.new []) (BytesIO.new []).

Definition on_trans {A : Type} : M U A -> M (t U) A :=
  zoom (@trans U) (fun u s => mk u (rbuf s) (wbuf s)).
Definition on_rbuf {A : Type} : M BytesIO.t A -> M (t U) A :=
  zoom (@rbuf U) (fun b s => mk (trans s) b (wbuf s)).
Definition on_wbuf {A : Type} : M BytesIO.t A -> M (t U) A :=
  zoom (@wbuf U) (fun b s => mk (trans s) (rbuf s) b).
Definition set_rbuf (b : BytesIO.t) : M (t U) unit :=
  modify (fun s => mk (trans s) b (wbuf s)).
Definition set_wbuf (b : BytesIO.t) : M (t U) unit :=
  modify (fun s => mk (trans s) (rbuf s) b).

Definition isOpen : M (t U) bool := on_trans TTransportBase.isOpen.
Definition open : M (t U) unit := on_trans TTransportBase.open.
Definition close : M (t U) unit := on_trans TTransportBase.close.

Definition readFrame : M (t U) unit :=
  buff <- on_trans (TTransportBase.readAll 4) ;;
  sz <- pure_ (unpack_i buff) ;;
  payload <- on_trans (TTransportBase.readAll sz) ;;
  set_rbuf (BytesIO.new payload).

Definition read (sz : Z) : M (t U) bytes :=
  ret_ <- on_rbuf (BytesIO.read sz) ;;
  if negb (len ret_ =? 0) then ret ret_
  else
    readFrame ;;;
    on_rbuf (BytesIO.read sz).

Definition write (buf : pyobj) : M (t U) unit :=
  _ <- on_wbuf (BytesIO.write buf) ;; ret tt.

Definition flush : M (t U) unit :=
  wout <- on_wbuf BytesIO.getvalue ;;
  let wsz := len wout in
  set_wbuf (BytesIO.new []) ;;;
  header <- pure_ (pack_i wsz) ;;
  let buf := header ++ wout in
  on_trans (TTransportBase.write (PyBytes buf)) ;;;
  on_trans TTransportBase.flush.

Definition cstringio_buf : M (t U) BytesIO.t := gets (@rbuf U).

(** One round of [while len(prefix) < reqlen]. *)
Definition cstringio_refill_body (reqlen : Z) (prefix : bytes)
  : M (t U) (bytes + bytes) :=
  if len prefix <? reqlen then
    readFrame ;;;
    payload <- on_rbuf BytesIO.getvalue ;;
    ret (inl (prefix ++ payload))
  else ret (inr prefix).

(** The loop ends when enough bytes have arrived; a peer that keeps
    sending empty frames keeps it running, hence the [fuel]. *)
Definition cstringio_refill (fuel : nat) (prefix : bytes) (reqlen : Z)
  (s : t U) : option (outcome BytesIO.t * t U) :=
  match loop fuel (cstringio_refill_body reqlen) prefix s with
  | None => None
  | Some (inl e, s') => Some (inl e, s')
  | Some (inr prefix', s') =>
      Some ((set_rbuf (BytesIO.new prefix') ;;; gets (@rbuf U)) s')
  end.

#[global] Instance methods : TTransportBase.Methods (t U) := {|
  TTransportBase.isOpen := isOpen;
  TTransportBase.open := open;
  TTransportBase.close := close;
  TTransportBase.read := read;
  TTransportBase.write := write;
  TTransportBase.flush := flush
|}.
End Methods.

End TFramedTransport.

(** ** The SASL engine ([puresasl.client.SASLClient])

    An object of another package: its methods are an interface here, and
    each of them may raise. *)
Module SASLClient.
Class Methods (E : Type) : Type := {
  mechanism : E -> string;
  process : option pyobj -> M E bytes;
  wrap : bytes -> M E bytes;
  unwrap : bytes -> M E bytes;
  complete : E -> bool;
  dispose : M E unit
}.
End SASLClient.

(** ** Python text formatting used by the handshake's error message *)
Module PyFormat.
Local Open Scope string_scope.

(** [bytes(s, 'ascii')] *)
Fixpoint ascii_encode (s : string) : outcome bytes :=
  match s with
  | EmptyString => inr []
  | String c s' =>
      if (Ascii.N_of_ascii c <? 128)%N then
        match ascii_encode s' with
        | inr bs => inr (Ascii.byte_of_ascii c :: bs)
        | inl e => inl e
        end
      else inl UnicodeEncodeError
  end.

Definition chr (n : Z) : string :=
  String (Ascii.ascii_of_N (Z.to_N n)) EmptyString.

Definition hexdigit (n : Z) : string :=
  if (n <? 10)%Z then chr (48 + n) else chr (87 + n).

(** One byte inside [repr(b'...')] with quote character [quote]. *)
Definition repr_byte (quote : Z) (b : byte) : string :=
  let c := Z_of_byte b in
  if ((c =? quote) || (c =? 92))%Z then chr 92 ++ chr c
  else if (c =? 9)%Z then chr 92 ++ "t"
  else if (c =? 10)%Z then chr 92 ++ "n"
  else if (c =? 13)%Z then chr 92 ++ "r"
  else if ((c <? 32) || (127 <=? c))%Z
       then chr 92 ++ "x" ++ hexdigit (c / 16) ++ hexdigit (c mod 16)
  else chr c.

Definition has_byte (c : Z) (bs : bytes) : bool :=
  existsb (fun b => (Z_of_byte b =? c)%Z) bs.

(** [repr] of a bytes object: single quotes, unless the bytes hold a
    single quote and no double quote. *)
Definition repr_bytes (bs : bytes) : string :=
  let quote := if has_byte 39 bs && negb (has_byte 34 bs) then 34 else 39 in
  "b" ++ chr quote ++ String.concat EmptyString (map (repr_byte quote) bs) ++ chr quote.

(** [str(x)], the [%s] conversion. *)
Definition str (x : pyobj) : string :=
  match x with
  | PyBytes bs => repr_bytes bs
  | PyStr s => s
  | PyNone => "None"
  end.

Fixpoint digits (fuel : nat) (n : Z) (acc : string) : string :=
  match fuel with
  | O => acc
  | S fuel' =>
      let acc' := chr (48 + n mod 10) ++ acc in
      if (n <? 10)%Z then acc' else digits fuel' (n / 10) acc'
  end.

(** The [%d] conversion of an integer. *)
Definition decimal (n : Z) : string :=
  if (n <? 0)%Z then "-" ++ digits (S (Z.to_nat (Z.log2 (- n)))) (- n) EmptyString
  else digits (S (Z.to_nat (Z.log2 n))) n EmptyString.
End PyFormat.

(** ** [TSaslClientTransport] *)
Module TSaslClientTransport.

Definition START : Z := 1.
Definition OK : Z := 2.
Definition BAD : Z := 3.
Definition ERROR : Z := 4.
Definition COMPLETE : Z := 5.

Record t (U E : Type) : Type := mk {
  transport : U;
  sasl : E;
  wbuf : BytesIO.t;
  rbuf : BytesIO.t
}.

Section Methods.
Context {U E : Type} `{TTransportBase.Methods U} `{SASLClient.Methods E}.

(** [__init__]: the engine is built by the caller's arguments. *)
Definition init (transport : U) (engine : E) : t U E :=
  mk transport engine (BytesIO.new []) (BytesIO.new []).

Definition on_transport {A : Type} : M U A -> M (t U E) A :=
  zoom (@transport U E) (fun u s => mk u (sasl s) (wbuf s) (rbuf s)).
Definition on_sasl {A : Type} : M E A -> M (t U E) A :=
  zoom (@sasl U E) (fun e s => mk (transport s) e (wbuf s) (rbuf s)).
Definition on_wbuf {A : Type} : M BytesIO.t A -> M (t U E) A :=
  zoom (@wbuf U E) (fun b s => mk (transport s) (sasl s) b (rbuf s)).
Definition on_rbuf {A : Type} : M BytesIO.t A -> M (t U E) A :=
  zoom (@rbuf U E) (fun b s => mk (transport s) (sasl s) (wbuf s) b).
Definition set_wbuf (b : BytesIO.t) : M (t U E) unit :=
  modify (fun s => mk (transport s) (sasl s) b (rbuf s)).
Definition set_rbuf (b : BytesIO.t) : M (t U E) unit :=
  modify (fun s => mk (transport s) (sasl s) (wbuf s) b).

Definition send_sasl_msg (status : Z) (body : bytes) : M (t U E) unit :=
  header <- pure_ (pack_BI status (len body)) ;;
  on_transport (TTransportBase.write (PyBytes (header ++ body))) ;;;
  on_transport TTransportBase.flush.

(** An empty payload comes back as the empty text, not as bytes. *)
Definition recv_sasl_msg : M (t U E) (Z * pyobj) :=
  header <- on_transport (TTransportBase.readAll 5) ;;
  sl <- pure_ (unpack_BI header) ;;
  let '(status, length) := sl in
  payload <-
    (if 0 <? length
     then p <- on_transport (TTransportBase.readAll length) ;;
          ret (PyBytes p)
     else ret (PyStr EmptyString)) ;;
  ret (status, payload).

Definition complete_violation_message : string :=
  "The server erroneously indicated that SASL negotiation was complete".

(** ["Bad SASL negotiation status: %d (%s)" % (status, challenge)] *)
Definition bad_status_message (status : Z) (challenge : pyobj) : string :=
  ("Bad SASL negotiation status: " ++ PyFormat.decimal status ++ " ("
     ++ PyFormat.str challenge ++ ")")%string.

(** What [open] does before its loop. *)
Definition open_start : M (t U E) unit :=
  o <- on_transport TTransportBase.isOpen ;;
  (if negb o then on_transport TTransportBase.open else ret tt) ;;;
  name <- gets (fun s => SASLClient.mechanism (sasl s)) ;;
  mech <- pure_ (PyFormat.ascii_encode name) ;;
  send_sasl_msg START mech ;;;
  first <- on_sasl (SASLClient.process None) ;;
  send_sasl_msg OK first.

(** One round of [while True]: [inl tt] goes round again, [inr tt] is
    [break]. *)
Definition open_body (_ : unit) : M (t U E) (unit + unit) :=
  sc <- recv_sasl_msg ;;
  let '(status, challenge) := sc in
  if status =? OK then
    response <- on_sasl (SASLClient.process (Some challenge)) ;;
    send_sasl_msg OK response ;;;
    ret (inl tt)
  else if status =? COMPLETE then
    done <- gets (fun s => SASLClient.complete (sasl s)) ;;
    if negb done then
      raise (TTransportException_ TTransportException.NOT_OPEN
               complete_violation_message)
    else ret (inr tt)
  else
    raise (TTransportException_ TTransportException.NOT_OPEN
             (bad_status_message status challenge)).

Definition open_loop (fuel : nat) (s : t U E)
  : option (outcome unit * t U E) :=
  loop fuel open_body tt s.

Definition open (fuel : nat) (s : t U E)
  : option (outcome unit * t U E) :=
  match open_start s with
  | (inl e, s') => Some (inl e, s')
  | (inr _, s') => open_loop fuel s'
  end.

Definition isOpen : M (t U E) bool := on_transport TTransportBase.isOpen.

Definition write (data : pyobj) : M (t U E) unit :=
  _ <- on_wbuf (BytesIO.write data) ;; ret tt.

Definition flush : M (t U E) unit :=
  data <- on_wbuf BytesIO.getvalue ;;
  encoded <- on_sasl (SASLClient.wrap data) ;;
  header <- pure_ (pack_i (len encoded)) ;;
  on_transport (TTransportBase.write (PyBytes (header ++ encoded))) ;;;
  on_transport TTransportBase.flush ;;;
  set_wbuf (BytesIO.new []).

Definition _read_frame : M (t U E) unit :=
  header <- on_transport (TTransportBase.readAll 4) ;;
  length <- pure_ (unpack_i header) ;;
  encoded <- on_transport (TTransportBase.readAll length) ;;
  decoded <- on_sasl (SASLClient.unwrap encoded) ;;
  set_rbuf (BytesIO.new decoded).

Definition read (sz : Z) : M (t U E) bytes :=
  ret_ <- on_rbuf (BytesIO.read sz) ;;
  if negb (len ret_ =? 0) then ret ret_
  else
    _read_frame ;;;
    on_rbuf (BytesIO.read sz).

Definition close : M (t U E) unit :=
  on_sasl SASLClient.dispose ;;;
  on_transport TTransportBase.close.

Definition cstringio_buf : M (t U E) BytesIO.t := gets (@rbuf U E).

Definition cstringio_refill_body (reqlen : Z) (prefix : bytes)
  : M (t U E) (bytes + bytes) :=
  if len prefix <? reqlen then
    _read_frame ;;;
    payload <- on_rbuf BytesIO.getvalue ;;
    ret (inl (prefix ++ payload))
  else ret (inr prefix).

Definition cstringio_refill (fuel : nat) (prefix : bytes) (reqlen : Z)
  (s : t U E) : option (outcome BytesIO.t * t U E) :=
  match loop fuel (cstringio_refill_body reqlen) prefix s with
  | None => None
  | Some (inl e, s') => Some (inl e, s')
  | Some (inr prefix', s') =>
      Some ((set_rbuf (BytesIO.new prefix') ;;; gets (@rbuf U E)) s')
  end.
End Methods.

End TSaslClientTransport.

(** ** Observing the calls made on a wrapped transport

    [Traced.t U] behaves as [U] and records every method call made on it,
    in order, with the arguments. *)
Module Traced.

Inductive call : Type :=
| IsOpen | Open | Close
| Read (sz : Z)
| Write (buf : pyobj)
| Flush.

Record t (U : Type) : Type := mk { inner : U; calls : list call }.

Section Methods.
Context {U : Type} `{TTransportBase.Methods U}.

Definition watch (u : U) : t U := mk u [].

Definition recorded {A : Type} (c : call) (m : M U A) : M (t U) A :=
  fun s => let (r, u') := m (inner s) in (r, mk u' (calls s ++ [c])).

#[global] Instance methods : TTransportBase.Methods (t U) := {|
  TTransportBase.isOpen := recorded IsOpen TTransportBase.isOpen;
  TTransportBase.open := recorded Open TTransportBase.open;
  TTransportBase.close := recorded Close TTransportBase.close;
  TTransportBase.read sz := recorded (Read sz) (TTransportBase.read sz);
  TTransportBase.write buf :=
    recorded (Write buf) (TTransportBase.write buf);
  TTransportBase.flush := recorded Flush TTransportBase.flush
|}.
End Methods.

End Traced.

(** ** A scripted byte channel

    Stands for the socket under a transport chain, which lies outside this
    module: the peer's bytes arrive in the pieces listed in [incoming] (a
    [read] returns at most one piece, an empty result once nothing is
    left), every successful [write] is kept in [sent], and the next
    [faults] writes fail. *)
Module Channel.

Record t : Type := mk {
  incoming : list bytes;
  sent : list bytes;
  faults : nat;
  opened : bool
}.

Definition read (sz : Z) : M t bytes := fun s =>
  match incoming s with
  | [] => (inr [], s)
  | piece :: rest =>
      let n := Z.to_nat sz in
      let rest' := match skipn n piece with
                   | [] => rest
                   | more => more :: rest
                   end in
      (inr (firstn n piece), mk rest' (sent s) (faults s) (opened s))
  end.

Definition write (buf : pyobj) : M t unit := fun s =>
  match faults s with
  | S k => (inl (ChannelError "send failed"),
            mk (incoming s) (sent s) k (opened s))
  | O =>
      match buf with
      | PyBytes data =>
          (inr tt, mk (incoming s) (sent s ++ [data]) O (opened s))
      | _ => (inl TypeError, s)
      end
  end.

#[global] Instance methods : TTransportBase.Methods t := {|
  TTransportBase.isOpen := gets opened;
  TTransportBase.open :=
    modify (fun s => mk (incoming s) (sent s) (faults s) true);
  TTransportBase.close :=
    modify (fun s => mk (incoming s) (sent s) (faults s) false);
  TTransportBase.read := read;
  TTransportBase.write := write;
  TTransportBase.flush := ret tt
|}.

End Channel.

(** ** The reads made on behalf of one [readAll]

    [reads_yield sz have t chunks t'] holds when, starting in state [t]
    with [have] bytes already collected towards [sz], the successive calls
    [read(sz - have)] return the non-empty byte strings [chunks], one after
    the other, and leave the transport in state [t']. *)
Section ReadsYield.
Context {T : Type} `{TTransportBase.Methods T}.

Inductive reads_yield (sz : Z) : Z -> T -> list bytes -> T -> Prop :=
| reads_none (have : Z) (t : T) : reads_yield sz have t [] t
| reads_more (have : Z) (t t1 t2 : T) (chunk : bytes)
    (chunks : list bytes) :
    have < sz ->
    TTransportBase.read (sz - have) t = (inr chunk, t1) ->
    chunk <> [] ->
    reads_yield sz (have + len chunk) t1 chunks t2 ->
    reads_yield sz have t (chunk :: chunks) t2.

(** Every exception a [read] of this transport raises satisfies [P]. *)
Definition read_raises_only (P : exn -> Prop) : Prop :=
  forall (n : Z) (t t' : T) (e : exn),
    TTransportBase.read n t = (inl e, t') -> P e.

(** [read(n)] never returns more than the [n] bytes asked for. *)
Definition read_bounded : Prop :=
  forall (n : Z) (t t' : T) (chunk : bytes),
    0 <= n -> TTransportBase.read n t = (inr chunk, t') -> len chunk <= n.
End ReadsYield.

(** An open memory buffer holding [v] with its cursor at [p]. *)
Definition mem_at (v : bytes) (p : nat) : TMemoryBuffer.t :=
  TMemoryBuffer.mk (BytesIO.mk v p false).

(** ** Sample data *)

Definition hello : bytes := [x68; x65; x6c; x6c; x6f].

(** A channel on which the peer's ten bytes arrive in two pieces. *)
Definition two_pieces : Channel.t := Channel.mk [hello; hello] [] 0 true.

(** ** A frame sent and received

    The sender is a [TFramedTransport] over an empty [TMemoryBuffer]: what
    that buffer holds after [write(P)] and [flush()] is what went out on
    the channel.  The peer is a [TFramedTransport] over a [TMemoryBuffer]
    loaded with the bytes of the channel. *)
Definition framed_send (P : bytes) : outcome bytes :=
  fst ((TFramedTransport.write (PyBytes P) ;;;
        TFramedTransport.flush ;;;
        TFramedTransport.on_trans TMemoryBuffer.getvalue)
         (TFramedTransport.init (mem_at [] 0))).

Definition framed_peer (wire : bytes) : TFramedTransport.t TMemoryBuffer.t :=
  TFramedTransport.init (mem_at wire 0).

(** A payload of 2^31 bytes. *)
Definition two_gib : bytes := repeat x00 (Z.to_nat 2147483648).

(** A [TBufferedTransport] with the default window over a memory buffer
    holding [v], the calls on the memory buffer being recorded. *)
Definition buffered_over (v : bytes)
  : TBufferedTransport.t (Traced.t TMemoryBuffer.t) :=
  TBufferedTransport.init (Traced.watch (mem_at v 0))
    TBufferedTransport.DEFAULT_BUFFER.

(** The state a computation leaves, and its outcome. *)
Definition after {S A : Type} (m : M S A) (s : S) : S := snd (m s).
Definition result {S A : Type} (m : M S A) (s : S) : outcome A := fst (m s).

(** ** A stand-in SASL engine for the examples

    Its state counts the [process] calls made; it answers each with
    [ok], reports completion from the second call on, and wraps a
    message by putting the byte [7E] in front of it. *)
Module ToyEngine.

Definition t : Type := nat.

#[global] Instance methods : SASLClient.Methods t := {|
  SASLClient.mechanism := fun _ => "PLAIN"%string;
  SASLClient.process := fun _ n => (inr [x6f; x6b], S n);
  SASLClient.wrap := fun data => ret (x7e :: data);
  SASLClient.unwrap := fun data => ret (tl data);
  SASLClient.complete := fun n => (2 <=? n)%nat;
  SASLClient.dispose := ret tt
|}.

End ToyEngine.

(** ** Rounds of the handshake

    [ok_rounds s k s'] holds when [k] successive rounds of the loop of
    [open], started in state [s], each receive an [OK] message, answer it
    and go round again, leaving state [s']. *)
Section HandshakeRounds.
Context {U E : Type} `{TTransportBase.Methods U} `{SASLClient.Methods E}.

Inductive ok_rounds
  : TSaslClientTransport.t U E -> nat -> TSaslClientTransport.t U E -> Prop :=
| ok_rounds_done (s : TSaslClientTransport.t U E) : ok_rounds s 0 s
| ok_rounds_next (s s1 s2 : TSaslClientTransport.t U E) (k : nat) :
    TSaslClientTransport.open_body tt s = (inr (inl tt), s1) ->
    ok_rounds s1 k s2 ->
    ok_rounds s (S k) s2.
End HandshakeRounds.

(** A client over a channel on which the server answers [OK] with the
    payload [a] and then [BAD] with the payload [no]. *)
Definition refused_client
  : TSaslClientTransport.t (Traced.t Channel.t) ToyEngine.t :=
  TSaslClientTransport.init
    (Traced.watch
       (Channel.mk [[x02; x00; x00; x00; x01; x61];
                    [x03; x00; x00; x00; x02; x6e; x6f]] [] 0 false))
    O.

(** A client over a channel on which the server answers [COMPLETE] at
    once, before the engine is done. *)
Definition hurried_client
  : TSaslClientTransport.t (Traced.t Channel.t) ToyEngine.t :=
  TSaslClientTransport.init
    (Traced.watch (Channel.mk [[x05; x00; x00; x00; x00]] [] 0 false)) O.

(** The state a handshake leaves, whatever its outcome. *)
Definition after_open {U E : Type} `{TTransportBase.Methods U}
  `{SASLClient.Methods E} (fuel : nat) (s : TSaslClientTransport.t U E)
  : TSaslClientTransport.t U E :=
  match TSaslClientTransport.open fuel s with
  | Some (_, s') => s'
  | None => s
  end.

(** ** What a refill owes its caller

    The buffer handed back is open with its cursor at the start, begins
    with the bytes the caller had already consumed and holds at least the
    length asked for. *)
Definition refilled (partialread : bytes) (reqlen : Z) (b : BytesIO.t) : Prop :=
  BytesIO.pos b = O
  /\ BytesIO.closed b = false
  /\ (exists more : bytes, BytesIO.value b = partialread ++ more)
  /\ reqlen <= len (BytesIO.value b).

(** Every exception the engine's [unwrap] raises satisfies [P]. *)
Definition unwrap_raises_only {E : Type} `{SASLClient.Methods E}
  (P : exn -> Prop) : Prop :=
  forall (data : bytes) (g g' : E) (e : exn),
    SASLClient.unwrap data g = (inl e, g') -> P e.

(** [e] is an exception that some [read] of the transport raises. *)
Definition raised_by_read {T : Type} `{TTransportBase.Methods T} (e : exn)
  : Prop :=
  exists (n : Z) (t t' : T), TTransportBase.read n t = (inl e, t').

(** [e] is an exception that some [unwrap] of the engine raises. *)
Definition raised_by_unwrap {E : Type} `{SASLClient.Methods E} (e : exn)
  : Prop :=
  exists (data : bytes) (g g' : E), SASLClient.unwrap data g = (inl e, g').

(** A [TSaslClientTransport], a [TFramedTransport] and a
    [TBufferedTransport] over a channel whose next send fails. *)
Definition flaky : Channel.t := Channel.mk [] [] 1 true.

Definition flaky_sasl : TSaslClientTransport.t Channel.t ToyEngine.t :=
  TSaslClientTransport.init flaky 2%nat.

Definition flaky_framed : TFramedTransport.t Channel.t :=
  TFramedTransport.init flaky.

Definition flaky_buffered : TBufferedTransport.t Channel.t :=
  TBufferedTransport.init flaky TBufferedTransport.DEFAULT_BUFFER.

(** Transports over a sound channel. *)
Definition sound : Channel.t := Channel.mk [] [] 0 true.

Definition sound_sasl : TSaslClientTransport.t Channel.t ToyEngine.t :=
  TSaslClientTransport.init sound 2%nat.

Definition sound_framed : TFramedTransport.t Channel.t :=
  TFramedTransport.init sound.

Definition sound_buffered : TBufferedTransport.t Channel.t :=
  TBufferedTransport.init sound TBufferedTransport.DEFAULT_BUFFER.


(** ** [TFileObjectTransport]

    The wrapped object is anything with the four methods of a file; a
    [BytesIO] is one.  What the file's [write] returns is dropped by the
    transport. *)
Module FileObject.

Class Methods (F : Type) : Type := {
  read : Z -> M F bytes;
  write : pyobj -> M F Z;
  flush : M F unit;
  close : M F unit
}.

(** [BytesIO.flush()] does nothing on an open stream. *)
#[global] Instance bytesio : Methods BytesIO.t := {|
  read := BytesIO.read;
  write := BytesIO.write;
  flush := fun b =>
    if BytesIO.closed b then (inl ValueError, b) else (inr tt, b);
  close := BytesIO.close
|}.

End FileObject.

Module TFileObjectTransport.

Record t (F : Type) : Type := mk { fileobj : F }.

Section Methods.
Context {F : Type} `{FileObject.Methods F}.

Definition init (fileobj : F) : t F := mk fileobj.

Definition on_fileobj {A : Type} : M F A -> M (t F) A :=
  zoom (@fileobj F) (fun f _ => mk f).

Definition isOpen : M (t F) bool := ret true.

(** Not overridden: the [open] of [TTransportBase], which does nothing. *)
Definition open : M (t F) unit := ret tt.

Definition close : M (t F) unit := on_fileobj FileObject.close.

Definition read (sz : Z) : M (t F) bytes := on_fileobj (FileObject.read sz).

Definition write (buf : pyobj) : M (t F) unit :=
  _ <- on_fileobj (FileObject.write buf) ;; ret tt.

Definition flush : M (t F) unit := on_fileobj FileObject.flush.

#[global] Instance methods : TTransportBase.Methods (t F) := {|
  TTransportBase.isOpen := isOpen;
  TTransportBase.open := open;
  TTransportBase.close := close;
  TTransportBase.read := read;
  TTransportBase.write := write;
  TTransportBase.flush := flush
|}.
End Methods.

End TFileObjectTransport.

(** ** The transport factories *)
Module TTransportFactoryBase.
Definition getTransport {U : Type} (trans : U) : U := trans.
End TTransportFactoryBase.

Module TBufferedTransportFactory.
Definition getTransport {U : Type} (trans : U) : TBufferedTransport.t U :=
  TBufferedTransport.init trans TBufferedTransport.DEFAULT_BUFFER.
End TBufferedTransportFactory.

Module TFramedTransportFactory.
Definition getTransport {U : Type} (trans : U) : TFramedTransport.t U :=
  TFramedTransport.init trans.
End TFramedTransportFactory.

(** ** Sequences of calls *)

(** [write(b1); write(b2); ...], stopping at the first that raises. *)
Fixpoint write_each {S : Type} (write : pyobj -> M S unit) (bs : list bytes)
  : M S unit :=
  match bs with
  | [] => ret tt
  | b :: rest => write (PyBytes b) ;;; write_each write rest
  end.

(** A write buffer as the transports keep it: open, cursor at the end. *)
Definition appending (b : BytesIO.t) : Prop :=
  BytesIO.closed b = false /\ BytesIO.pos b = length (BytesIO.value b).

(** ** Frames on a memory buffer *)

(** The bytes [TFramedTransport.flush] sends for a payload [P] of at most
    2^31 - 1 bytes. *)
Definition frame (P : bytes) : bytes := be_bytes4 (len P) ++ P.

(** [write(P); flush()] for each payload in turn. *)
Fixpoint send_each {S : Type} (write : pyobj -> M S unit) (flush : M S unit)
  (Ps : list bytes) : M S unit :=
  match Ps with
  | [] => ret tt
  | P :: rest => write (PyBytes P) ;;; flush ;;; send_each write flush rest
  end.

(** [read(len(P))] returns [P], for each payload in turn. *)
Fixpoint reads_in_turn {S : Type} (read : Z -> M S bytes) (Ps : list bytes)
  (s : S) : Prop :=
  match Ps with
  | [] => True
  | P :: rest =>
      exists s' : S, read (len P) s = (inr P, s')
                     /\ reads_in_turn read rest s'
  end.

(** A [TFramedTransport] reading from memory [v] at cursor [p], its own
    read buffer being [rb]. *)
Definition framed_at (v : bytes) (p : nat) (rb : BytesIO.t)
  : TFramedTransport.t TMemoryBuffer.t :=
  TFramedTransport.mk (mem_at v p) rb (BytesIO.new []).

(** ** Handshake messages on a memory buffer *)

(** The bytes [send_sasl_msg(status, body)] sends. *)
Definition sasl_msg (status : Z) (body : bytes) : bytes :=
  byte_of_Z status :: be_bytes4 (len body) ++ body.

(** What [recv_sasl_msg] returns as the payload of a message with
    [body]. *)
Definition received_payload (body : bytes) : pyobj :=
  match body with
  | [] => PyStr EmptyString
  | _ => PyBytes body
  end.

(** A client over a channel on which the server answers [OK] with the
    payload [a] and then [COMPLETE]. *)
Definition accepted_client
  : TSaslClientTransport.t (Traced.t Channel.t) ToyEngine.t :=
  TSaslClientTransport.init
    (Traced.watch
       (Channel.mk [[x02; x00; x00; x00; x01; x61];
                    [x05; x00; x00; x00; x00]] [] 0 false))
    O.

(** The outcome of a call on a [TMemoryBuffer], seen as the outcome of
    the same call on a [TFileObjectTransport] over the same stream. *)
Definition as_file {A : Type} (r : outcome A * TMemoryBuffer.t)
  : outcome A * TFileObjectTransport.t BytesIO.t :=
  (fst r, TFileObjectTransport.mk (TMemoryBuffer.buffer (snd r))).

(** ** The byte stream behind a buffered transport

    For a [TBufferedTransport] over a memory buffer: the bytes not yet
    handed to the caller are those unread in the read buffer followed by
    those unread in the memory buffer. *)
Definition buffered_pending (s : TBufferedTransport.t TMemoryBuffer.t)
  : bytes :=
  BytesIO.remaining (TBufferedTransport.rbuf s)
    ++ BytesIO.remaining (TMemoryBuffer.buffer (TBufferedTransport.trans s)).

(** Both streams are open, and the write buffer and window are the given
    ones. *)
Definition buffered_readable (wb : BytesIO.t) (W : Z)
  (s : TBufferedTransport.t TMemoryBuffer.t) : Prop :=
  BytesIO.closed (TBufferedTransport.rbuf s) = false
  /\ BytesIO.closed (TMemoryBuffer.buffer (TBufferedTransport.trans s)) = false
  /\ TBufferedTransport.wbuf s = wb
  /\ TBufferedTransport.rbuf_size s = W.


(** ** Wrapped transports that try a refill

    [closed_mem]: a memory buffer that has been closed.  [Zeros]: a peer
    that never stops sending zero bytes, so that every frame read from it
    is an empty frame; its [read] returns exactly the bytes asked for.
    [Generous]: a transport whose [read] returns one byte more than asked
    for. *)
Definition closed_mem : TMemoryBuffer.t :=
  TMemoryBuffer.mk (BytesIO.mk [] 0 true).

Module Zeros.

Definition t : Type := unit.

#[global] Instance methods : TTransportBase.Methods t := {|
  TTransportBase.isOpen := ret true;
  TTransportBase.open := ret tt;
  TTransportBase.close := ret tt;
  TTransportBase.read := fun sz => ret (repeat x00 (Z.to_nat sz));
  TTransportBase.write := fun _ => ret tt;
  TTransportBase.flush := ret tt
|}.

End Zeros.

Module Generous.

Record t : Type := mk { served : nat }.

#[global] Instance methods : TTransportBase.Methods t := {|
  TTransportBase.isOpen := ret true;
  TTransportBase.open := ret tt;
  TTransportBase.close := ret tt;
  TTransportBase.read := fun sz s =>
    (inr (repeat x00 (S (Z.to_nat sz))), mk (S (served s)));
  TTransportBase.write := fun _ => ret tt;
  TTransportBase.flush := ret tt
|}.

End Generous.

(** A [TSaslClientTransport] reading from memory [v] at cursor [p]. *)
Definition sasl_at {E : Type} (v : bytes) (p : nat) (g : E) (rb : BytesIO.t)
  : TSaslClientTransport.t TMemoryBuffer.t E :=
  TSaslClientTransport.mk (mem_at v p) g (BytesIO.new []) rb.

(** * Properties *)

(** Reduces the field accesses on explicit records. *)
Ltac fields :=
  cbn [TFramedTransport.trans TFramedTransport.rbuf TFramedTransport.wbuf
       TBufferedTransport.trans TBufferedTransport.rbuf
       TBufferedTransport.wbuf TBufferedTransport.rbuf_size
       TSaslClientTransport.transport TSaslClientTransport.sasl
       TSaslClientTransport.rbuf TSaslClientTransport.wbuf
       TMemoryBuffer.buffer Traced.inner Traced.calls
       BytesIO.value BytesIO.pos BytesIO.closed] in *.

(** ** Bytes and the wire encodings of integers *)

Lemma len_nonneg {A : Type} (l : list A) : 0 <= len l.
Proof. unfold len. lia. Qed.

Lemma len_nil {A : Type} : len (@nil A) = 0.
Proof. reflexivity. Qed.

Lemma len_app {A : Type} (l1 l2 : list A) : len (l1 ++ l2) = len l1 + len l2.
Proof. unfold len. rewrite length_app. lia. Qed.

Lemma len_nil_iff {A : Type} (l : list A) : len l = 0 <-> l = [].
Proof.
  unfold len. split; intros E.
  - destruct l; [reflexivity | simpl in E; lia].
  - subst. reflexivity.
Qed.

Lemma Z_of_byte_range (b : byte) : 0 <= Z_of_byte b < 256.
Proof.
  unfold Z_of_byte. pose proof (Byte.to_N_bounded b). lia.
Qed.

Lemma Z_of_byte_of_Z (z : Z) : Z_of_byte (byte_of_Z z) = z mod 256.
Proof.
  unfold Z_of_byte, byte_of_Z.
  pose proof (Z.mod_pos_bound z 256 ltac:(lia)) as R.
  destruct (Byte.of_N (Z.to_N (z mod 256))) as [b|] eqn:E.
  - apply Byte.to_of_N in E. rewrite E. lia.
  - apply Byte.of_N_None_iff in E. lia.
Qed.

Lemma byte_of_Z_of_byte (b : byte) : byte_of_Z (Z_of_byte b) = b.
Proof.
  unfold byte_of_Z. pose proof (Z_of_byte_range b) as R.
  rewrite Z.mod_small by lia. unfold Z_of_byte.
  rewrite N2Z.id, Byte.of_to_N. reflexivity.
Qed.

Lemma len_be_bytes4 (n : Z) : len (be_bytes4 n) = 4.
Proof. reflexivity. Qed.

Lemma be_uint_be_bytes4 (n : Z) :
  0 <= n < 4294967296 -> be_uint (be_bytes4 n) = n.
Proof.
  intros R. unfold be_uint, be_bytes4. simpl.
  rewrite !Z_of_byte_of_Z.
  Z.div_mod_to_equations; lia.
Qed.

(** A frame header written by [pack("!i", n)] reads back as [n]. *)
Lemma unpack_i_pack_i (n : Z) (h : bytes) :
  pack_i n = inr h -> unpack_i h = inr n.
Proof.
  unfold pack_i. destruct (_ && _) eqn:R; [|discriminate].
  intros [= <-]. apply andb_prop in R. destruct R as [R1 R2].
  apply Z.leb_le in R1, R2.
  unfold unpack_i. rewrite len_be_bytes4. simpl (4 =? 4).
  cbv iota. rewrite be_uint_be_bytes4
    by (apply Z.mod_pos_bound; lia).
  f_equal. destruct (Z.ltb_spec (n mod 4294967296) 2147483648) as [L|L].
  - destruct (Z.lt_ge_cases n 0) as [Neg|Pos].
    + rewrite <- (Z.mod_add n 1 4294967296) in L by lia.
      rewrite Z.mod_small in L by lia. lia.
    + apply Z.mod_small. lia.
  - destruct (Z.lt_ge_cases n 0) as [Neg|Pos].
    + rewrite <- (Z.mod_add n 1 4294967296) by lia.
      rewrite Z.mod_small by lia. lia.
    + rewrite Z.mod_small in L by lia. lia.
Qed.

Lemma pack_i_small (n : Z) :
  0 <= n <= 2147483647 -> pack_i n = inr (be_bytes4 n).
Proof.
  intros R. unfold pack_i.
  replace (-2147483648 <=? n) with true by (symmetry; apply Z.leb_le; lia).
  replace (n <=? 2147483647) with true by (symmetry; apply Z.leb_le; lia).
  simpl. rewrite Z.mod_small by lia. reflexivity.
Qed.

Lemma pack_i_too_big (n : Z) : 2147483647 < n -> pack_i n = inl StructError.
Proof.
  intros R. unfold pack_i.
  replace (n <=? 2147483647) with false by (symmetry; apply Z.leb_gt; lia).
  rewrite andb_false_r. reflexivity.
Qed.

(** What [unpack('!i', ...)] returns is a signed 32-bit integer. *)
Lemma unpack_i_range (buff : bytes) (sz : Z) :
  unpack_i buff = inr sz -> -2147483648 <= sz <= 2147483647.
Proof.
  unfold unpack_i. destruct (Z.eqb_spec (len buff) 4) as [E4|]; [|discriminate].
  destruct buff as [|a [|b [|c [|d [|x rest]]]]];
    try (unfold len in E4; simpl in E4; lia).
  unfold be_uint. simpl.
  pose proof (Z_of_byte_range a). pose proof (Z_of_byte_range b).
  pose proof (Z_of_byte_range c). pose proof (Z_of_byte_range d).
  destruct (Z.ltb_spec
              (((Z_of_byte a * 256 + Z_of_byte b) * 256 + Z_of_byte c) * 256
               + Z_of_byte d) 2147483648); intros [= <-]; lia.
Qed.

Lemma unpack_i_len (buff : bytes) :
  len buff = 4 -> exists sz, unpack_i buff = inr sz.
Proof. intros E. unfold unpack_i. rewrite E. simpl. eauto. Qed.

(** ** The generic [readAll] *)

Section ReadAllFacts.
Context {T : Type} `{TTransportBase.Methods T}.

Import TTransportBase.

(** The loop never runs out of [fuel]: from [sz - have] on, more fuel
    changes nothing. *)
Lemma readAll_loop_enough (f1 : nat) :
  forall (f2 : nat) (sz : Z) (buff : bytes) (have : Z) (t : T),
    (Z.to_nat (sz - have) <= f1)%nat ->
    (Z.to_nat (sz - have) <= f2)%nat ->
    readAll_loop f1 sz buff have t = readAll_loop f2 sz buff have t.
Proof.
  induction f1 as [|f1 IH]; intros f2 sz buff have t H1 H2.
  - destruct f2 as [|f2]; [reflexivity|]. simpl.
    replace (have <? sz) with false by (symmetry; apply Z.ltb_ge; lia).
    reflexivity.
  - destruct f2 as [|f2]; simpl.
    + replace (have <? sz) with false by (symmetry; apply Z.ltb_ge; lia).
      reflexivity.
    + destruct (Z.ltb_spec have sz) as [Hlt|Hge]; [|reflexivity].
      destruct (read (sz - have) t) as [[e|chunk] t']; [reflexivity|].
      destruct (Z.eqb_spec (len chunk) 0) as [E0|N0]; [reflexivity|].
      pose proof (len_nonneg chunk). apply IH; lia.
Qed.

Lemma readAll_loop_fuel (fuel : nat) (sz : Z) (buff : bytes) (have : Z)
  (t : T) :
  (Z.to_nat (sz - have) <= fuel)%nat ->
  readAll_loop fuel sz buff have t
  = readAll_loop (Z.to_nat (sz - have)) sz buff have t.
Proof. intros Hf. apply readAll_loop_enough; lia. Qed.

(** The loop as the source writes it: test, read, accumulate, go on. *)
Lemma readAll_loop_unfold (fuel : nat) (sz : Z) (buff : bytes) (have : Z)
  (t : T) :
  (Z.to_nat (sz - have) <= fuel)%nat ->
  readAll_loop fuel sz buff have t
  = if have <? sz then
      match read (sz - have) t with
      | (inl e, t') => (inl e, t')
      | (inr chunk, t') =>
          if len chunk =? 0 then (inl EOFError, t')
          else readAll_loop (Z.to_nat (sz - (have + len chunk))) sz
                 (buff ++ chunk) (have + len chunk) t'
      end
    else (inr buff, t).
Proof.
  intros Hf. destruct fuel as [|fuel].
  - simpl. replace (have <? sz) with false
      by (symmetry; apply Z.ltb_ge; lia).
    reflexivity.
  - simpl. destruct (have <? sz); [|reflexivity].
    destruct (read (sz - have) t) as [[e|chunk] t']; [reflexivity|].
    destruct (Z.eqb_spec (len chunk) 0) as [E0|N0]; [reflexivity|].
    pose proof (len_nonneg chunk).
    apply readAll_loop_fuel. lia.
Qed.

Lemma readAll_nonpos (sz : Z) (t : T) :
  sz <= 0 -> readAll sz t = (inr [], t).
Proof.
  intros Hsz. unfold readAll. rewrite readAll_loop_unfold by lia.
  replace (0 <? sz) with false by (symmetry; apply Z.ltb_ge; lia).
  reflexivity.
Qed.

Lemma readAll_loop_yield (sz : Z) (have : Z) (t t' : T)
  (chunks : list bytes) :
  reads_yield sz have t chunks t' ->
  forall buff : bytes,
    sz <= have + len (concat chunks) ->
    readAll_loop (Z.to_nat (sz - have)) sz buff have t
    = (inr (buff ++ concat chunks), t').
Proof.
  induction 1 as [have t | have t t1 t2 chunk chunks Hlt Hread Hne _ IH];
    intros buff Hall.
  - simpl concat in Hall. rewrite len_nil in Hall.
    rewrite readAll_loop_unfold by lia.
    replace (have <? sz) with false by (symmetry; apply Z.ltb_ge; lia).
    rewrite app_nil_r. reflexivity.
  - rewrite readAll_loop_unfold by lia.
    replace (have <? sz) with true by (symmetry; apply Z.ltb_lt; lia).
    rewrite Hread.
    destruct (Z.eqb_spec (len chunk) 0) as [E0|N0].
    + apply len_nil_iff in E0. contradiction.
    + simpl concat in Hall. rewrite len_app in Hall.
      rewrite IH by lia. simpl. rewrite app_assoc. reflexivity.
Qed.

Lemma readAll_loop_starved (sz : Z) (have : Z) (t t1 t2 : T)
  (chunks : list bytes) :
  reads_yield sz have t chunks t1 ->
  forall buff : bytes,
    have + len (concat chunks) < sz ->
    read (sz - (have + len (concat chunks))) t1 = (inr [], t2) ->
    readAll_loop (Z.to_nat (sz - have)) sz buff have t = (inl EOFError, t2).
Proof.
  induction 1 as [have t | have t t1 t3 chunk chunks Hlt Hread Hne _ IH];
    intros buff Hshort Hempty.
  - simpl concat in Hshort, Hempty. rewrite len_nil in Hshort, Hempty.
    rewrite Z.add_0_r in Hempty.
    rewrite readAll_loop_unfold by lia.
    replace (have <? sz) with true by (symmetry; apply Z.ltb_lt; lia).
    rewrite Hempty. reflexivity.
  - rewrite readAll_loop_unfold by lia.
    replace (have <? sz) with true by (symmetry; apply Z.ltb_lt; lia).
    rewrite Hread.
    destruct (Z.eqb_spec (len chunk) 0) as [E0|N0].
    + apply len_nil_iff in E0. contradiction.
    + simpl concat in Hshort, Hempty. rewrite len_app in Hshort, Hempty.
      apply IH; [lia|]. rewrite <- Z.add_assoc. exact Hempty.
Qed.

(** Whatever [readAll] returns has at least the length asked for. *)
Lemma readAll_loop_length (fuel : nat) :
  forall (sz : Z) (buff : bytes) (have : Z) (t t' : T) (out : bytes),
    (Z.to_nat (sz - have) <= fuel)%nat ->
    len buff = have ->
    readAll_loop fuel sz buff have t = (inr out, t') ->
    sz <= len out /\ exists more, out = buff ++ more.
Proof.
  induction fuel as [|fuel IH]; intros sz buff have t t' out Hf Hb Hr.
  - simpl in Hr. injection Hr as <- <-. split; [lia|].
    exists []. now rewrite app_nil_r.
  - simpl in Hr. destruct (Z.ltb_spec have sz) as [Hlt|Hge].
    + destruct (read (sz - have) t) as [[e|chunk] t1]; [discriminate|].
      destruct (Z.eqb_spec (len chunk) 0) as [E0|N0]; [discriminate|].
      pose proof (len_nonneg chunk).
      apply IH in Hr; [| lia | rewrite len_app; lia].
      destruct Hr as [Hlen [more ->]]. split; [exact Hlen|].
      exists (chunk ++ more). now rewrite app_assoc.
    + injection Hr as <- <-. split; [lia|].
      exists []. now rewrite app_nil_r.
Qed.

Lemma readAll_length (sz : Z) (t t' : T) (out : bytes) :
  readAll sz t = (inr out, t') -> sz <= len out.
Proof.
  intros Hr. unfold readAll in Hr.
  apply readAll_loop_length in Hr; [tauto | lia | reflexivity].
Qed.

(** With a [read] that respects its bound the length is exact. *)
Lemma readAll_loop_exact (fuel : nat) :
  read_bounded ->
  forall (sz : Z) (buff : bytes) (have : Z) (t t' : T) (out : bytes),
    (Z.to_nat (sz - have) <= fuel)%nat ->
    len buff = have -> have <= sz ->
    readAll_loop fuel sz buff have t = (inr out, t') ->
    len out = sz.
Proof.
  intros Hb.
  induction fuel as [|fuel IH]; intros sz buff have t t' out Hf Hl Hle Hr.
  - simpl in Hr. injection Hr as <- <-. lia.
  - simpl in Hr. destruct (Z.ltb_spec have sz) as [Hlt|Hge].
    + destruct (read (sz - have) t) as [[e|chunk] t1] eqn:Hread;
        [discriminate|].
      destruct (Z.eqb_spec (len chunk) 0) as [E0|N0]; [discriminate|].
      pose proof (len_nonneg chunk).
      apply Hb in Hread; [|lia].
      apply IH in Hr; [exact Hr | lia | rewrite len_app; lia | lia].
    + injection Hr as <- <-. lia.
Qed.

Lemma readAll_exact (sz : Z) (t t' : T) (out : bytes) :
  read_bounded -> 0 <= sz ->
  readAll sz t = (inr out, t') -> len out = sz.
Proof.
  intros Hb Hsz Hr. unfold readAll in Hr.
  apply readAll_loop_exact in Hr; [exact Hr | exact Hb | lia | reflexivity | lia].
Qed.

(** [readAll] raises [EOFError] or what a [read] raised. *)
Lemma readAll_loop_raises (P : exn -> Prop) (fuel : nat) :
  read_raises_only P ->
  forall (sz : Z) (buff : bytes) (have : Z) (t t' : T) (e : exn),
    readAll_loop fuel sz buff have t = (inl e, t') ->
    e = EOFError \/ P e.
Proof.
  intros HP.
  induction fuel as [|fuel IH]; intros sz buff have t t' e Hr.
  - discriminate.
  - simpl in Hr. destruct (have <? sz); [|discriminate].
    destruct (read (sz - have) t) as [[e1|chunk] t1] eqn:Hread.
    + injection Hr as <- <-. right. eapply HP, Hread.
    + destruct (len chunk =? 0).
      * injection Hr as <- <-. now left.
      * eapply IH, Hr.
Qed.

Lemma readAll_raises (P : exn -> Prop) (sz : Z) (t t' : T) (e : exn) :
  read_raises_only P ->
  readAll sz t = (inl e, t') -> e = EOFError \/ P e.
Proof. intros HP Hr. eapply readAll_loop_raises; eassumption. Qed.

End ReadAllFacts.

(** C1.  [readAll(n)] on any transport that uses the generic [readAll]:
    (1) when the successive [read] calls return non-empty byte strings that
    add up to [n] bytes, [readAll] returns their concatenation, in order;
    (2) when a [read] returns no bytes while fewer than [n] have been
    collected, [readAll] raises [EOFError], the end-of-stream error;
    (3) a [readAll] that returns never returns fewer than [n] bytes, and
    (4) it returns exactly [n] for [n >= 0] when no [read] returns more
    than it was asked for. *)
Theorem readAll_exact_or_eof {T : Type} `{TTransportBase.Methods T}
  (n : Z) (t : T) :
  (forall (chunks : list bytes) (t' : T),
      reads_yield n 0 t chunks t' -> len (concat chunks) = n ->
      TTransportBase.readAll n t = (inr (concat chunks), t'))
  /\ (forall (chunks : list bytes) (t1 t2 : T),
         reads_yield n 0 t chunks t1 -> len (concat chunks) < n ->
         TTransportBase.read (n - len (concat chunks)) t1 = (inr [], t2) ->
         TTransportBase.readAll n t = (inl EOFError, t2))
  /\ (forall (out : bytes) (t' : T),
         TTransportBase.readAll n t = (inr out, t') -> n <= len out)
  /\ (read_bounded -> 0 <= n ->
      forall (out : bytes) (t' : T),
        TTransportBase.readAll n t = (inr out, t') -> len out = n).
Proof.
  repeat split.
  - intros chunks t' Hy Hn. unfold TTransportBase.readAll.
    replace (Z.to_nat n) with (Z.to_nat (n - 0)) by (f_equal; lia).
    rewrite (readAll_loop_yield Hy) by lia. reflexivity.
  - intros chunks t1 t2 Hy Hshort Hempty. unfold TTransportBase.readAll.
    replace (Z.to_nat n) with (Z.to_nat (n - 0)) by (f_equal; lia).
    apply (readAll_loop_starved Hy); [lia | exact Hempty].
  - intros out t'. apply readAll_length.
  - intros Hb Hn out t'. now apply readAll_exact.
Qed.

(** On a channel that delivers [hello] twice, [readAll(7)] collects the
    seven bytes from two reads and [readAll(11)] meets the end of the
    stream. *)
Lemma readAll_exact_or_eof_witness :
  TTransportBase.readAll 7 two_pieces
  = (inr (hello ++ [x68; x65]),
     Channel.mk [[x6c; x6c; x6f]] [] 0 true)
  /\ TTransportBase.readAll 11 two_pieces
     = (inl EOFError, Channel.mk [] [] 0 true).
Proof.
  split.
  - apply (proj1 (readAll_exact_or_eof 7 two_pieces)
             [hello; [x68; x65]]).
    + eapply reads_more; [lia | reflexivity | discriminate |].
      eapply reads_more; [reflexivity | reflexivity | discriminate |].
      apply reads_none.
    + reflexivity.
  - apply (proj1 (proj2 (readAll_exact_or_eof 11 two_pieces))
             [hello; hello] (Channel.mk [] [] 0 true)).
    + eapply reads_more; [lia | reflexivity | discriminate |].
      eapply reads_more; [reflexivity | reflexivity | discriminate |].
      apply reads_none.
    + reflexivity.
    + reflexivity.
Defined.

(** ** [BytesIO] and [TMemoryBuffer] *)

Lemma fits_ssize_t_range (n : Z) :
  -9223372036854775808 <= n <= 9223372036854775807 ->
  BytesIO.fits_ssize_t n = true.
Proof.
  intros Hn. unfold BytesIO.fits_ssize_t, BytesIO.PY_SSIZE_T_MAX.
  apply andb_true_intro. split; apply Z.leb_le; lia.
Qed.

Lemma fits_ssize_t_outside (n : Z) :
  n < -9223372036854775808 \/ 9223372036854775807 < n ->
  BytesIO.fits_ssize_t n = false.
Proof.
  intros Hn. unfold BytesIO.fits_ssize_t, BytesIO.PY_SSIZE_T_MAX.
  apply andb_false_iff. destruct Hn; [left | right]; apply Z.leb_gt; lia.
Qed.

(** Discharges the side condition that a size fits a [Py_ssize_t]. *)
Ltac fits := apply fits_ssize_t_range; lia.

(** A size that does not fit is refused whatever the state of the
    stream. *)
Lemma BytesIO_read_overflow (sz : Z) (b : BytesIO.t) :
  BytesIO.fits_ssize_t sz = false ->
  BytesIO.read sz b = (inl OverflowError, b).
Proof. intros Hf. unfold BytesIO.read. now rewrite Hf. Qed.

Lemma BytesIO_read_open (sz : Z) (v : bytes) (p : nat) :
  BytesIO.fits_ssize_t sz = true ->
  BytesIO.read sz (BytesIO.mk v p false)
  = (inr (if sz <? 0 then skipn p v else firstn (Z.to_nat sz) (skipn p v)),
     BytesIO.mk v
       (p + length (if sz <? 0 then skipn p v
                    else firstn (Z.to_nat sz) (skipn p v)))
       false).
Proof. intros Hf. unfold BytesIO.read. now rewrite Hf. Qed.

(** [read(0)] returns nothing and leaves the cursor where it is. *)
Lemma BytesIO_read_0 (b : BytesIO.t) :
  BytesIO.closed b = false -> BytesIO.read 0 b = (inr [], b).
Proof.
  destruct b as [v p c]. simpl. intros ->. unfold BytesIO.read. simpl.
  rewrite Nat.add_0_r. reflexivity.
Qed.

(** A read that returns nothing leaves the stream as it was. *)
Lemma BytesIO_read_nothing (sz : Z) (b b' : BytesIO.t) :
  BytesIO.closed b = false -> BytesIO.read sz b = (inr [], b') -> b' = b.
Proof.
  destruct b as [v p c]. simpl. intros ->. unfold BytesIO.read.
  destruct (BytesIO.fits_ssize_t sz); [|discriminate]. simpl.
  unfold BytesIO.remaining. simpl.
  destruct (sz <? 0); intros [= E <-]; rewrite E; simpl;
    rewrite Nat.add_0_r; reflexivity.
Qed.

Lemma BytesIO_store_at_end (v data : bytes) :
  BytesIO.store v (length v) data = v ++ data.
Proof.
  unfold BytesIO.store. rewrite Nat.sub_diag. simpl. rewrite app_nil_r.
  rewrite firstn_all. rewrite skipn_all2 by lia. now rewrite app_nil_r.
Qed.

(** Writing bytes to a stream whose cursor is at its end appends them. *)
Lemma BytesIO_write_at_end (v data : bytes) :
  BytesIO.write (PyBytes data) (BytesIO.mk v (length v) false)
  = (inr (len data), BytesIO.mk (v ++ data) (length (v ++ data)) false).
Proof.
  unfold BytesIO.write. simpl. destruct data as [|d data].
  - rewrite app_nil_r. reflexivity.
  - rewrite BytesIO_store_at_end, length_app. reflexivity.
Qed.

(** [TMemoryBuffer()] and [TMemoryBuffer(v)] as built by [__init__]. *)
Lemma TMemoryBuffer_init_empty : TMemoryBuffer.init None 0 = inr (mem_at [] 0).
Proof. reflexivity. Qed.

Lemma TMemoryBuffer_init_value (v : bytes) :
  TMemoryBuffer.init (Some v) 0 = inr (mem_at v 0).
Proof. reflexivity. Qed.

Section MemoryReadAll.
Import TTransportBase.

Lemma mem_read (sz : Z) (v : bytes) (p : nat) :
  0 <= sz <= 9223372036854775807 ->
  read sz (mem_at v p)
  = (inr (firstn (Z.to_nat sz) (skipn p v)),
     mem_at v (p + length (firstn (Z.to_nat sz) (skipn p v)))).
Proof.
  intros Hsz. unfold mem_at. simpl read.
  unfold TMemoryBuffer.read, TMemoryBuffer.on_buffer, zoom. fields.
  rewrite BytesIO_read_open by fits.
  replace (sz <? 0) with false by (symmetry; apply Z.ltb_ge; lia).
  reflexivity.
Qed.

(** [readAll] on an open memory buffer: the next [n] bytes when they
    are there, [EOFError] with the cursor at the end when they are
    not. *)
Lemma mem_readAll (n : Z) (v : bytes) (p : nat) :
  0 <= n <= 9223372036854775807 ->
  readAll n (mem_at v p)
  = if n <=? len (skipn p v)
    then (inr (firstn (Z.to_nat n) (skipn p v)), mem_at v (p + Z.to_nat n))
    else (inl EOFError, mem_at v (p + length (skipn p v))).
Proof.
  intros Hn. destruct (Z.eq_dec n 0) as [->|Hnz].
  - rewrite readAll_nonpos by lia. simpl.
    pose proof (len_nonneg (skipn p v)).
    replace (0 <=? len (skipn p v)) with true
      by (symmetry; apply Z.leb_le; lia).
    rewrite Nat.add_0_r. reflexivity.
  - unfold readAll. rewrite readAll_loop_unfold by lia.
    replace (0 <? n) with true by (symmetry; apply Z.ltb_lt; lia).
    rewrite Z.sub_0_r, mem_read by lia.
    set (rest := skipn p v).
    destruct (Z.leb_spec n (len rest)) as [Hle|Hgt].
    + assert (Hl : length (firstn (Z.to_nat n) rest) = Z.to_nat n)
        by (apply firstn_length_le; unfold len in Hle; lia).
      assert (Hlen : len (firstn (Z.to_nat n) rest) = n)
        by (unfold len; rewrite Hl; lia).
      rewrite Hlen, Hl.
      replace (n =? 0) with false by (symmetry; apply Z.eqb_neq; lia).
      rewrite readAll_loop_unfold by lia.
      replace (0 + n <? n) with false by (symmetry; apply Z.ltb_ge; lia).
      reflexivity.
    + assert (Hall : firstn (Z.to_nat n) rest = rest)
        by (apply firstn_all2; unfold len in Hgt; lia).
      rewrite Hall.
      destruct (Z.eqb_spec (len rest) 0) as [E0|N0]; [reflexivity|].
      pose proof (len_nonneg rest).
      rewrite readAll_loop_unfold by lia.
      replace (0 + len rest <? n) with true
        by (symmetry; apply Z.ltb_lt; lia).
      rewrite mem_read by lia.
      assert (Hnone : skipn (p + length rest) v = []).
      { subst rest. rewrite Nat.add_comm, <- skipn_skipn.
        apply skipn_all. }
      rewrite Hnone, firstn_nil. simpl. rewrite Nat.add_0_r.
      reflexivity.
Qed.

(** The bytes [a] found at the cursor are what [readAll(len a)]
    returns. *)
Lemma mem_readAll_here (pre a post : bytes) :
  len a <= 9223372036854775807 ->
  readAll (len a) (mem_at (pre ++ a ++ post) (length pre))
  = (inr a, mem_at (pre ++ a ++ post) (length pre + length a)).
Proof.
  intros Ha. pose proof (len_nonneg a) as H0a.
  rewrite mem_readAll by lia.
  rewrite skipn_app, skipn_all, Nat.sub_diag. simpl.
  rewrite len_app. pose proof (len_nonneg post).
  replace (len a <=? len a + len post) with true
    by (symmetry; apply Z.leb_le; lia).
  unfold len. rewrite Nat2Z.id, firstn_app, firstn_all, Nat.sub_diag.
  simpl. rewrite app_nil_r. reflexivity.
Qed.

End MemoryReadAll.

(** ** [TFramedTransport] *)

Section FramedFacts.
Context {U : Type} `{TTransportBase.Methods U}.
Import TFramedTransport.

Lemma framed_write_eq (buf : pyobj) (s : t U) :
  write buf s
  = match BytesIO.write buf (wbuf s) with
    | (inl e, b) => (inl e, mk (trans s) (rbuf s) b)
    | (inr _, b) => (inr tt, mk (trans s) (rbuf s) b)
    end.
Proof.
  unfold write, bind, on_wbuf, zoom, ret.
  destruct (BytesIO.write buf (wbuf s)) as [[e|n] b]; reflexivity.
Qed.

Lemma framed_flush_eq (s : t U) :
  BytesIO.closed (wbuf s) = false ->
  flush s
  = match pack_i (len (BytesIO.value (wbuf s))) with
    | inl e => (inl e, mk (trans s) (rbuf s) (BytesIO.new []))
    | inr header =>
        match TTransportBase.write
                (PyBytes (header ++ BytesIO.value (wbuf s))) (trans s) with
        | (inl e, u1) => (inl e, mk u1 (rbuf s) (BytesIO.new []))
        | (inr _, u1) =>
            let (r, u2) := TTransportBase.flush u1 in
            (r, mk u2 (rbuf s) (BytesIO.new []))
        end
    end.
Proof.
  intros Hc. unfold flush, bind, on_wbuf, on_trans, set_wbuf, zoom, modify,
    pure_, BytesIO.getvalue.
  rewrite Hc. simpl.
  destruct (pack_i (len (BytesIO.value (wbuf s)))) as [e|header];
    [reflexivity|].
  destruct (TTransportBase.write _ (trans s)) as [[e|[]] u1];
    [reflexivity|].
  simpl. destruct (TTransportBase.flush u1) as [r u2]. reflexivity.
Qed.

Lemma framed_readFrame_eq (s : t U) :
  readFrame s
  = match TTransportBase.readAll 4 (trans s) with
    | (inl e, u1) => (inl e, mk u1 (rbuf s) (wbuf s))
    | (inr buff, u1) =>
        match unpack_i buff with
        | inl e => (inl e, mk u1 (rbuf s) (wbuf s))
        | inr sz =>
            match TTransportBase.readAll sz u1 with
            | (inl e, u2) => (inl e, mk u2 (rbuf s) (wbuf s))
            | (inr payload, u2) =>
                (inr tt, mk u2 (BytesIO.new payload) (wbuf s))
            end
        end
    end.
Proof.
  unfold readFrame, bind, on_trans, set_rbuf, zoom, modify, pure_.
  destruct (TTransportBase.readAll 4 (trans s)) as [[e|buff] u1];
    [reflexivity|].
  simpl. destruct (unpack_i buff) as [e|sz]; [reflexivity|].
  destruct (TTransportBase.readAll sz u1) as [[e|payload] u2];
    reflexivity.
Qed.

(** A [read] that finds nothing in the read buffer reads a frame and
    serves from it. *)
Lemma framed_read_refill (sz : Z) (s : t U) :
  BytesIO.closed (rbuf s) = false ->
  fst (BytesIO.read sz (rbuf s)) = inr [] ->
  read sz s
  = match readFrame s with
    | (inl e, s') => (inl e, s')
    | (inr _, s') =>
        let (r, b) := BytesIO.read sz (rbuf s') in
        (r, mk (trans s') b (wbuf s'))
    end.
Proof.
  intros Hc Hr. unfold read, bind at 1, on_rbuf at 1, zoom at 1.
  destruct (BytesIO.read sz (rbuf s)) as [r b] eqn:E. simpl in Hr. subst r.
  apply BytesIO_read_nothing in E; [|exact Hc]. subst b.
  simpl. unfold bind, on_rbuf, zoom. destruct s as [u rb wb]. simpl.
  destruct (readFrame (mk u rb wb)) as [[e|[]] s']; reflexivity.
Qed.

End FramedFacts.

Lemma mem_write (v data : bytes) :
  TTransportBase.write (PyBytes data) (mem_at v (length v))
  = (inr tt, mem_at (v ++ data) (length (v ++ data))).
Proof.
  unfold mem_at. simpl.
  unfold TMemoryBuffer.write, bind, TMemoryBuffer.on_buffer, zoom. simpl.
  rewrite BytesIO_write_at_end. reflexivity.
Qed.

Lemma framed_send_eq (P : bytes) :
  framed_send P
  = match pack_i (len P) with
    | inl e => inl e
    | inr header => inr (header ++ P)
    end.
Proof.
  unfold framed_send, bind at 1.
  rewrite framed_write_eq. unfold TFramedTransport.init.
  cbn [TFramedTransport.wbuf TFramedTransport.rbuf TFramedTransport.trans].
  pose proof (BytesIO_write_at_end [] P) as Ew. cbn [length app] in Ew.
  unfold BytesIO.new at 1. rewrite Ew.
  unfold bind. rewrite framed_flush_eq by reflexivity.
  cbn [TFramedTransport.wbuf TFramedTransport.rbuf TFramedTransport.trans
       BytesIO.value].
  destruct (pack_i (len P)) as [e|header]; [reflexivity|].
  pose proof (mem_write [] (header ++ P)) as Em.
  cbn [length app] in Em.
  rewrite Em. reflexivity.
Qed.

Lemma framed_peer_read (header P : bytes) :
  len header = 4 -> unpack_i header = inr (len P) ->
  len P <= 2147483647 ->
  TFramedTransport.read (len P) (framed_peer (header ++ P))
  = (inr P,
     TFramedTransport.mk
       (mem_at (header ++ P) (length header + length P))
       (BytesIO.mk P (length P) false) (BytesIO.new [])).
Proof.
  intros H4 Hu Hmax. unfold framed_peer, TFramedTransport.init.
  pose proof (len_nonneg P) as HP.
  rewrite framed_read_refill; [|reflexivity|].
  2:{ cbn [TFramedTransport.rbuf]. unfold BytesIO.new.
      rewrite BytesIO_read_open by fits. simpl.
      destruct (len P <? 0); [reflexivity | now rewrite firstn_nil]. }
  rewrite framed_readFrame_eq. simpl.
  rewrite <- H4.
  pose proof (mem_readAll_here [] header P ltac:(lia)) as E1. simpl in E1.
  rewrite E1, Hu.
  pose proof (mem_readAll_here header P [] ltac:(lia)) as E2.
  rewrite !app_nil_r in E2. rewrite E2.
  fields. unfold BytesIO.new. rewrite BytesIO_read_open by fits.
  replace (len P <? 0) with false by (symmetry; apply Z.ltb_ge; lia).
  simpl. unfold len. rewrite Nat2Z.id, firstn_all. reflexivity.
Qed.

Lemma framed_peer_readAll (header P : bytes) :
  len header = 4 -> unpack_i header = inr (len P) ->
  len P <= 2147483647 ->
  fst (TTransportBase.readAll (len P) (framed_peer (header ++ P))) = inr P.
Proof.
  intros H4 Hu Hmax. pose proof (len_nonneg P) as HP.
  destruct (Z.eq_dec (len P) 0) as [E0|N0].
  - rewrite readAll_nonpos by lia. apply len_nil_iff in E0. now subst.
  - unfold TTransportBase.readAll.
    rewrite readAll_loop_unfold by lia.
    replace (0 <? len P) with true by (symmetry; apply Z.ltb_lt; lia).
    rewrite Z.sub_0_r.
    change (@TTransportBase.read _ TFramedTransport.methods)
      with (@TFramedTransport.read TMemoryBuffer.t _).
    rewrite framed_peer_read by assumption.
    replace (len P =? 0) with false by (symmetry; apply Z.eqb_neq; lia).
    rewrite readAll_loop_unfold by lia.
    replace (0 + len P <? len P) with false
      by (symmetry; apply Z.ltb_ge; lia).
    reflexivity.
Qed.

Lemma len_two_gib : len two_gib = 2147483648.
Proof.
  unfold two_gib, len. rewrite repeat_length. apply Z2Nat.id. lia.
Qed.

(** C3 (as amended).  For every payload [P] of at most 2^31 - 1 bytes:
    [write(P)] then [flush()] on a [TFramedTransport] puts a 4-byte
    header followed by [P] on the channel, the header's big-endian value
    is [len(P)], and a peer [TFramedTransport] over the channel's bytes
    gets [P] back from [read(len(P))] and from [readAll(len(P))].
    [write(b"hello")] then [flush()] puts [00 00 00 05 68 65 6C 6C 6F] on
    the channel. *)
Theorem framed_round_trip :
  (forall P : bytes,
      len P <= 2147483647 ->
      exists header : bytes,
        framed_send P = inr (header ++ P)
        /\ len header = 4
        /\ be_uint header = len P
        /\ fst (TFramedTransport.read (len P) (framed_peer (header ++ P)))
           = inr P
        /\ fst (TTransportBase.readAll (len P) (framed_peer (header ++ P)))
           = inr P)
  /\ framed_send hello = inr [x00; x00; x00; x05; x68; x65; x6c; x6c; x6f].
Proof.
  split; [|reflexivity].
  intros P HP. pose proof (len_nonneg P) as H0.
  exists (be_bytes4 (len P)).
  assert (Hpack : pack_i (len P) = inr (be_bytes4 (len P)))
    by (apply pack_i_small; lia).
  pose proof (unpack_i_pack_i _ Hpack) as Hun.
  repeat split.
  - rewrite framed_send_eq, Hpack. reflexivity.
  - apply be_uint_be_bytes4. lia.
  - rewrite framed_peer_read; [reflexivity | reflexivity | exact Hun | lia].
  - apply framed_peer_readAll; [reflexivity | exact Hun | lia].
Qed.

Lemma framed_round_trip_witness :
  exists header : bytes,
    framed_send hello = inr (header ++ hello)
    /\ len header = 4
    /\ be_uint header = 5
    /\ fst (TFramedTransport.read 5 (framed_peer (header ++ hello)))
       = inr hello
    /\ fst (TTransportBase.readAll 5 (framed_peer (header ++ hello)))
       = inr hello.
Proof.
  apply (proj1 framed_round_trip hello). vm_compute. discriminate.
Defined.

(** C3 as stated fails for a payload of 2^31 bytes: [flush] cannot pack
    its length and nothing reaches the channel. *)
Lemma framed_round_trip_two_gib : framed_send two_gib = inl StructError.
Proof.
  rewrite framed_send_eq, pack_i_too_big; [reflexivity|].
  rewrite len_two_gib. lia.
Qed.

(** C5 (as amended).  The length header of a frame is 4 bytes in network
    byte order holding the payload length as a signed 32-bit integer.
    Written: for a write buffer of at most 2^31 - 1 bytes, the one
    [write] that [flush] makes on the wrapped transport carries a 4-byte
    header whose big-endian value is the length of the payload alone,
    followed by the payload.  Read: [readFrame] takes 4 bytes, reads them
    as a big-endian integer, values from 2^31 on standing for negative
    numbers, and asks the wrapped transport for that many payload
    bytes. *)
Theorem frame_header_signed_be {U : Type} `{TTransportBase.Methods U} :
  (forall s : TFramedTransport.t (Traced.t U),
      BytesIO.closed (TFramedTransport.wbuf s) = false ->
      len (BytesIO.value (TFramedTransport.wbuf s)) <= 2147483647 ->
      exists (header : bytes) (rest : list Traced.call),
        len header = 4
        /\ be_uint header = len (BytesIO.value (TFramedTransport.wbuf s))
        /\ Traced.calls (TFramedTransport.trans
                           (snd (TFramedTransport.flush s)))
           = Traced.calls (TFramedTransport.trans s)
               ++ Traced.Write
                    (PyBytes
                       (header ++ BytesIO.value (TFramedTransport.wbuf s)))
               :: rest)
  /\ (forall (s : TFramedTransport.t U) (header : bytes) (u1 : U),
         TTransportBase.readAll 4 (TFramedTransport.trans s)
         = (inr header, u1) ->
         len header = 4 ->
         let n := if be_uint header <? 2147483648 then be_uint header
                  else be_uint header - 4294967296 in
         TFramedTransport.readFrame s
         = match TTransportBase.readAll n u1 with
           | (inl e, u2) =>
               (inl e,
                TFramedTransport.mk u2 (TFramedTransport.rbuf s)
                  (TFramedTransport.wbuf s))
           | (inr payload, u2) =>
               (inr tt,
                TFramedTransport.mk u2 (BytesIO.new payload)
                  (TFramedTransport.wbuf s))
           end).
Proof.
  split.
  - intros s Hc Hlen.
    pose proof (len_nonneg (BytesIO.value (TFramedTransport.wbuf s))) as H0.
    exists (be_bytes4 (len (BytesIO.value (TFramedTransport.wbuf s)))).
    rewrite framed_flush_eq by exact Hc.
    rewrite pack_i_small by lia.
    destruct s as [[u calls] rb wb]. fields. simpl.
    unfold Traced.recorded. fields.
    destruct (TTransportBase.write _ u) as [[e|[]] u1].
    + exists []. repeat split. apply be_uint_be_bytes4. lia.
    + simpl. unfold Traced.recorded. fields.
      destruct (TTransportBase.flush u1) as [r u2].
      exists [Traced.Flush]. repeat split.
      * apply be_uint_be_bytes4. lia.
      * simpl. now rewrite <- app_assoc.
  - intros s header u1 Hread H4 n. rewrite framed_readFrame_eq, Hread.
    unfold unpack_i. rewrite H4. reflexivity.
Qed.

(** C5 as stated fails at lengths from 2^31 on, which 32 bits can hold:
    [flush] cannot write the header of a payload of 2^31 bytes, and
    [readFrame] takes the header [80 00 00 01], the unsigned number
    2147483649, for a negative length: it leaves an empty read buffer and
    the bytes after the header unread. *)
Lemma frame_header_not_uint32 :
  pack_i 2147483648 = inl StructError
  /\ framed_send two_gib = inl StructError
  /\ be_uint [x80; x00; x00; x01] = 2147483649
  /\ unpack_i [x80; x00; x00; x01] = inr (-2147483647)
  /\ TFramedTransport.readFrame
       (framed_peer ([x80; x00; x00; x01] ++ hello))
     = (inr tt,
        TFramedTransport.mk (mem_at ([x80; x00; x00; x01] ++ hello) 4)
          (BytesIO.new []) (BytesIO.new [])).
Proof.
  split; [reflexivity|]. split.
  - rewrite framed_send_eq, pack_i_too_big; [reflexivity|].
    rewrite len_two_gib. lia.
  - repeat split; reflexivity.
Qed.

Lemma frame_header_signed_be_witness :
  exists (header : bytes) (rest : list Traced.call),
    len header = 4
    /\ be_uint header = 5
    /\ Traced.calls
         (TFramedTransport.trans
            (snd (TFramedTransport.flush
                    (TFramedTransport.mk (Traced.watch (mem_at [] 0))
                       (BytesIO.new []) (BytesIO.mk hello 5 false)))))
       = [] ++ Traced.Write (PyBytes (header ++ hello)) :: rest.
Proof.
  apply (proj1 (@frame_header_signed_be TMemoryBuffer.t _)
           (TFramedTransport.mk (Traced.watch (mem_at [] 0))
              (BytesIO.new []) (BytesIO.mk hello 5 false))).
  - reflexivity.
  - vm_compute. discriminate.
Defined.

(** C10.  For [sz <= 0], [readAll(sz)] returns the empty byte string and
    leaves the transport, and with it the record of calls made on it, as
    it was: no [read] is made.  So when [readFrame] reads a 4-byte header
    that unpacks to a negative number, it raises nothing and installs an
    empty read buffer, the wrapped transport staying as the header read
    left it. *)
Theorem readAll_nonpositive {T U : Type} `{TTransportBase.Methods T}
  `{TTransportBase.Methods U} :
  (forall (sz : Z) (t : T),
      sz <= 0 -> TTransportBase.readAll sz t = (inr [], t))
  /\ (forall (sz : Z) (t : Traced.t T),
         sz <= 0 ->
         Traced.calls (snd (TTransportBase.readAll sz t)) = Traced.calls t)
  /\ (forall (s : TFramedTransport.t U) (header : bytes) (u1 : U) (sz : Z),
         TTransportBase.readAll 4 (TFramedTransport.trans s)
         = (inr header, u1) ->
         unpack_i header = inr sz ->
         sz < 0 ->
         TFramedTransport.readFrame s
         = (inr tt,
            TFramedTransport.mk u1 (BytesIO.new [])
              (TFramedTransport.wbuf s))).
Proof.
  repeat split.
  - intros sz t Hsz. now apply readAll_nonpos.
  - intros sz t Hsz. now rewrite readAll_nonpos.
  - intros s header u1 sz Hread Hun Hneg.
    rewrite framed_readFrame_eq, Hread, Hun, readAll_nonpos by lia.
    reflexivity.
Qed.

(** A peer sends the header [FF FF FF FF], that is -1, and then
    [hello]: [readAll(-1)] on a traced channel makes no call, and
    [readFrame] installs an empty buffer. *)
Lemma readAll_nonpositive_witness :
  TTransportBase.readAll (-1) (Traced.watch two_pieces)
  = (inr [], Traced.watch two_pieces)
  /\ TFramedTransport.readFrame
       (framed_peer ([xff; xff; xff; xff] ++ hello))
     = (inr tt,
        TFramedTransport.mk (mem_at ([xff; xff; xff; xff] ++ hello) 4)
          (BytesIO.new []) (BytesIO.new [])).
Proof.
  split.
  - apply (proj1 (@readAll_nonpositive _ TMemoryBuffer.t _ _)). lia.
  - apply (proj2 (proj2 (@readAll_nonpositive TMemoryBuffer.t _ _ _))
             (framed_peer ([xff; xff; xff; xff] ++ hello))
             [xff; xff; xff; xff] _ (-1)).
    + reflexivity.
    + reflexivity.
    + lia.
Defined.

(** ** [TBufferedTransport] *)

Section BufferedFacts.
Context {U : Type} `{TTransportBase.Methods U}.
Import TBufferedTransport.

(** A [read] that finds bytes in the read buffer returns them and
    leaves the wrapped transport alone. *)
Lemma buffered_read_served (sz : Z) (s : t U) (out : bytes)
  (b : BytesIO.t) :
  BytesIO.read sz (rbuf s) = (inr out, b) -> out <> [] ->
  read sz s = (inr out, mk (trans s) (wbuf s) b (rbuf_size s)).
Proof.
  intros Hr Hne. unfold read, bind, on_rbuf, zoom. rewrite Hr.
  destruct (Z.eqb_spec (len out) 0) as [E0|N0].
  - apply len_nil_iff in E0. contradiction.
  - reflexivity.
Qed.

(** A [read] that finds nothing there asks the wrapped transport once,
    for [max(sz, rbuf_size)] bytes, and serves from what arrives. *)
Lemma buffered_read_fetch (sz : Z) (s : t U) :
  BytesIO.closed (rbuf s) = false ->
  fst (BytesIO.read sz (rbuf s)) = inr [] ->
  read sz s
  = match TTransportBase.read (Z.max sz (rbuf_size s)) (trans s) with
    | (inl e, u1) => (inl e, mk u1 (wbuf s) (rbuf s) (rbuf_size s))
    | (inr chunk, u1) =>
        let (r, b) := BytesIO.read sz (BytesIO.new chunk) in
        (r, mk u1 (wbuf s) b (rbuf_size s))
    end.
Proof.
  intros Hc Hr. unfold read, bind at 1, on_rbuf at 1, zoom at 1.
  destruct (BytesIO.read sz (rbuf s)) as [r b] eqn:E. simpl in Hr. subst r.
  apply BytesIO_read_nothing in E; [|exact Hc]. subst b.
  destruct s as [u wb rb w]. fields. simpl.
  unfold bind, gets, on_trans, set_rbuf, on_rbuf, zoom, modify. fields.
  destruct (TTransportBase.read (Z.max sz w) u) as [[e|chunk] u1];
    reflexivity.
Qed.

Lemma buffered_write_eq (buf : pyobj) (s : t U) :
  write buf s
  = match BytesIO.write buf (wbuf s) with
    | (inl e, _) =>
        (inl e, mk (trans s) (BytesIO.new []) (rbuf s) (rbuf_size s))
    | (inr _, b) => (inr tt, mk (trans s) b (rbuf s) (rbuf_size s))
    end.
Proof.
  unfold write, try_except, bind, on_wbuf, set_wbuf, zoom, modify, ret,
    raise.
  destruct (BytesIO.write buf (wbuf s)) as [[e|n] b]; reflexivity.
Qed.

Lemma buffered_flush_eq (s : t U) :
  BytesIO.closed (wbuf s) = false ->
  flush s
  = match TTransportBase.write (PyBytes (BytesIO.value (wbuf s)))
            (trans s) with
    | (inl e, u1) =>
        (inl e, mk u1 (BytesIO.new []) (rbuf s) (rbuf_size s))
    | (inr _, u1) =>
        let (r, u2) := TTransportBase.flush u1 in
        (r, mk u2 (BytesIO.new []) (rbuf s) (rbuf_size s))
    end.
Proof.
  intros Hc. unfold flush, bind, on_wbuf, on_trans, set_wbuf, zoom, modify,
    BytesIO.getvalue.
  rewrite Hc. simpl.
  destruct (TTransportBase.write _ (trans s)) as [[e|[]] u1];
    [reflexivity|].
  simpl. destruct (TTransportBase.flush u1) as [r u2]. reflexivity.
Qed.

End BufferedFacts.

(** C6 (as amended).  [TBufferedTransport.read(sz)] with read window [W],
    for a size that fits a machine index ([-2^63 <= sz < 2^63]):
    (1) for [sz] other than 0, when unread bytes remain in the read
    buffer the call returns bytes from the buffer (the first [sz] of
    them, all of them for a negative [sz]), returns at least one, and
    makes no call on the wrapped transport;
    (2) when no unread byte remains, the call makes exactly one call on
    the wrapped transport, [read(max(sz, W))], and, unless that raises,
    puts what it returns in a fresh read buffer and returns its first
    [sz] bytes, or all of it when it is shorter (or [sz] negative);
    (3) with [W = 4096] and ten bytes in the wrapped transport,
    [read(10)] on a new transport makes the one call [read(4096)] and
    returns the ten bytes;
    (4) a size that does not fit raises [OverflowError] and nothing is
    read, from the buffer or from the wrapped transport. *)
Theorem buffered_read_window {U : Type} `{TTransportBase.Methods U} :
  (forall (s : TBufferedTransport.t (Traced.t U)) (sz : Z),
      BytesIO.closed (TBufferedTransport.rbuf s) = false ->
      -9223372036854775808 <= sz <= 9223372036854775807 ->
      sz <> 0 ->
      BytesIO.remaining (TBufferedTransport.rbuf s) <> [] ->
      let rest := BytesIO.remaining (TBufferedTransport.rbuf s) in
      let out := if sz <? 0 then rest else firstn (Z.to_nat sz) rest in
      out <> []
      /\ TBufferedTransport.read sz s
         = (inr out,
            TBufferedTransport.mk (TBufferedTransport.trans s)
              (TBufferedTransport.wbuf s)
              (BytesIO.mk (BytesIO.value (TBufferedTransport.rbuf s))
                 (BytesIO.pos (TBufferedTransport.rbuf s) + length out)
                 false)
              (TBufferedTransport.rbuf_size s)))
  /\ (forall (s : TBufferedTransport.t (Traced.t U)) (sz : Z),
         BytesIO.closed (TBufferedTransport.rbuf s) = false ->
         -9223372036854775808 <= sz <= 9223372036854775807 ->
         BytesIO.remaining (TBufferedTransport.rbuf s) = [] ->
         let W := TBufferedTransport.rbuf_size s in
         let under := TBufferedTransport.trans s in
         let calls' := Traced.calls under ++ [Traced.Read (Z.max sz W)] in
         match TTransportBase.read (Z.max sz W) (Traced.inner under) with
         | (inl e, u1) =>
             TBufferedTransport.read sz s
             = (inl e,
                TBufferedTransport.mk (Traced.mk u1 calls')
                  (TBufferedTransport.wbuf s) (TBufferedTransport.rbuf s) W)
         | (inr chunk, u1) =>
             let out := if sz <? 0 then chunk
                        else firstn (Z.to_nat sz) chunk in
             TBufferedTransport.read sz s
             = (inr out,
                TBufferedTransport.mk (Traced.mk u1 calls')
                  (TBufferedTransport.wbuf s)
                  (BytesIO.mk chunk (length out) false) W)
         end)
  /\ (result (TBufferedTransport.read 10) (buffered_over (hello ++ hello))
      = inr (hello ++ hello)
      /\ Traced.calls
           (TBufferedTransport.trans
              (after (TBufferedTransport.read 10)
                 (buffered_over (hello ++ hello))))
         = [Traced.Read 4096])
  /\ (forall (s : TBufferedTransport.t (Traced.t U)) (sz : Z),
         sz < -9223372036854775808 \/ 9223372036854775807 < sz ->
         TBufferedTransport.read sz s = (inl OverflowError, s)).
Proof.
  split; [|split; [|split; [split; reflexivity|]]].
  - intros s sz Hc Hfit Hsz Hrest rest out.
    assert (Hout : out <> []).
    { subst out. destruct (sz <? 0) eqn:Eneg; [exact Hrest|].
      apply Z.ltb_ge in Eneg. subst rest.
      destruct (BytesIO.remaining (TBufferedTransport.rbuf s)) as [|x r];
        [contradiction|].
      destruct (Z.to_nat sz) as [|k] eqn:Ek; [lia|]. simpl. discriminate. }
    split; [exact Hout|].
    apply buffered_read_served; [|exact Hout].
    destruct s as [u wb [v p c] w]. fields. subst c.
    rewrite BytesIO_read_open by fits. reflexivity.
  - intros s sz Hc Hfit Hrest W under calls'.
    assert (Hnone : fst (BytesIO.read sz (TBufferedTransport.rbuf s))
                    = inr []).
    { destruct (TBufferedTransport.rbuf s) as [v p c]. fields. subst c.
      rewrite BytesIO_read_open by fits. unfold BytesIO.remaining in Hrest.
      fields. simpl. rewrite Hrest.
      destruct (sz <? 0); [reflexivity | now rewrite firstn_nil]. }
    rewrite (buffered_read_fetch _ _ Hc Hnone).
    subst W under calls'. destruct s as [[u calls] wb rb w]. fields.
    simpl TTransportBase.read. unfold Traced.recorded. fields.
    destruct (TTransportBase.read (Z.max sz w) u) as [[e|chunk] u1];
      [reflexivity|].
    unfold BytesIO.new. rewrite BytesIO_read_open by fits. reflexivity.
  - intros s sz Hout.
    unfold TBufferedTransport.read, bind, TBufferedTransport.on_rbuf, zoom.
    rewrite BytesIO_read_overflow by (now apply fits_ssize_t_outside).
    destruct s as [u wb rb w]. reflexivity.
Qed.

Lemma buffered_read_window_witness :
  (let rest := [x6c; x6c; x6f] in
   let out := firstn (Z.to_nat 2) rest in
   out <> []
   /\ TBufferedTransport.read 2
        (after (TBufferedTransport.read 2) (buffered_over hello))
      = (inr out,
         TBufferedTransport.mk
           (Traced.mk (mem_at hello 5) [Traced.Read 4096])
           (BytesIO.new []) (BytesIO.mk hello (2 + length out) false) 4096))
  /\ TBufferedTransport.read 10 (buffered_over hello)
     = (inr hello,
        TBufferedTransport.mk
          (Traced.mk (mem_at hello 5) [Traced.Read 4096])
          (BytesIO.new []) (BytesIO.mk hello 5 false) 4096).
Proof.
  split.
  - pose proof (proj1 (@buffered_read_window TMemoryBuffer.t _)
                  (after (TBufferedTransport.read 2) (buffered_over hello))
                  2 eq_refl ltac:(lia) ltac:(lia) ltac:(discriminate)) as W.
    vm_compute in W. vm_compute. exact W.
  - pose proof (proj1 (proj2 (@buffered_read_window TMemoryBuffer.t _))
                  (buffered_over hello) 10 eq_refl ltac:(lia) eq_refl) as W.
    vm_compute in W. vm_compute. exact W.
Defined.

(** C6 as stated fails in three places.  With [llo] still unread in the
    read buffer, [read(0)] is not served from the buffer: it makes a
    second call on the wrapped transport and replaces the buffer, and the
    three bytes are gone for the next [read(3)].  On an empty read
    buffer with five bytes in the wrapped transport, [read(10)] returns
    those five bytes, not ten.  And with unread bytes in the read
    buffer, [read(2^63)] is not served either: it raises
    [OverflowError]. *)
Lemma buffered_read_not_always_served :
  let s1 := after (TBufferedTransport.read 2) (buffered_over hello) in
  let s2 := after (TBufferedTransport.read 0) s1 in
  BytesIO.remaining (TBufferedTransport.rbuf s1) = [x6c; x6c; x6f]
  /\ result (TBufferedTransport.read 0) s1 = inr []
  /\ Traced.calls (TBufferedTransport.trans s1) = [Traced.Read 4096]
  /\ Traced.calls (TBufferedTransport.trans s2)
     = [Traced.Read 4096; Traced.Read 4096]
  /\ TBufferedTransport.rbuf s2 = BytesIO.new []
  /\ result (TBufferedTransport.read 3) s2 = inr []
  /\ result (TBufferedTransport.read 10) (buffered_over hello) = inr hello
  /\ result (TBufferedTransport.read 9223372036854775808) s1
     = inl OverflowError.
Proof. repeat split. Qed.

(** ** [TSaslClientTransport] *)

Section SaslFacts.
Context {U E : Type} `{TTransportBase.Methods U} `{SASLClient.Methods E}.
Import TSaslClientTransport.

Lemma sasl_read_frame_eq (s : t U E) :
  _read_frame s
  = match TTransportBase.readAll 4 (transport s) with
    | (inl e, u1) => (inl e, mk u1 (sasl s) (wbuf s) (rbuf s))
    | (inr header, u1) =>
        match unpack_i header with
        | inl e => (inl e, mk u1 (sasl s) (wbuf s) (rbuf s))
        | inr length =>
            match TTransportBase.readAll length u1 with
            | (inl e, u2) => (inl e, mk u2 (sasl s) (wbuf s) (rbuf s))
            | (inr encoded, u2) =>
                match SASLClient.unwrap encoded (sasl s) with
                | (inl e, g) => (inl e, mk u2 g (wbuf s) (rbuf s))
                | (inr decoded, g) =>
                    (inr tt, mk u2 g (wbuf s) (BytesIO.new decoded))
                end
            end
        end
    end.
Proof.
  unfold _read_frame, bind, on_transport, on_sasl, set_rbuf, zoom, modify,
    pure_.
  destruct (TTransportBase.readAll 4 (transport s)) as [[e|header] u1];
    [reflexivity|].
  simpl. destruct (unpack_i header) as [e|length]; [reflexivity|].
  destruct (TTransportBase.readAll length u1) as [[e|encoded] u2];
    [reflexivity|].
  simpl. destruct (SASLClient.unwrap encoded (sasl s)) as [[e|decoded] g];
    reflexivity.
Qed.

Lemma sasl_read_frame_fresh (s s' : t U E) :
  _read_frame s = (inr tt, s') ->
  exists decoded : bytes, rbuf s' = BytesIO.new decoded.
Proof.
  rewrite sasl_read_frame_eq.
  destruct (TTransportBase.readAll 4 (transport s)) as [[e|header] u1];
    [discriminate|].
  destruct (unpack_i header) as [e|length]; [discriminate|].
  destruct (TTransportBase.readAll length u1) as [[e|encoded] u2];
    [discriminate|].
  destruct (SASLClient.unwrap encoded (sasl s)) as [[e|decoded] g];
    [discriminate|].
  intros [= <-]. now exists decoded.
Qed.

Lemma sasl_read_refill (sz : Z) (s : t U E) :
  BytesIO.closed (rbuf s) = false ->
  fst (BytesIO.read sz (rbuf s)) = inr [] ->
  read sz s
  = match _read_frame s with
    | (inl e, s') => (inl e, s')
    | (inr _, s') =>
        let (r, b) := BytesIO.read sz (rbuf s') in
        (r, mk (transport s') (sasl s') (wbuf s') b)
    end.
Proof.
  intros Hc Hr. unfold read, bind at 1, on_rbuf at 1, zoom at 1.
  destruct (BytesIO.read sz (rbuf s)) as [r b] eqn:Er. simpl in Hr. subst r.
  apply BytesIO_read_nothing in Er; [|exact Hc]. subst b.
  simpl. unfold bind, on_rbuf, zoom. destruct s as [u g wb rb]. simpl.
  destruct (_read_frame (mk u g wb rb)) as [[e|[]] s']; reflexivity.
Qed.

Lemma sasl_write_eq (data : pyobj) (s : t U E) :
  write data s
  = match BytesIO.write data (wbuf s) with
    | (inl e, b) => (inl e, mk (transport s) (sasl s) b (rbuf s))
    | (inr _, b) => (inr tt, mk (transport s) (sasl s) b (rbuf s))
    end.
Proof.
  unfold write, bind, on_wbuf, zoom, ret.
  destruct (BytesIO.write data (wbuf s)) as [[e|n] b]; reflexivity.
Qed.

End SaslFacts.

Lemma framed_readFrame_fresh {U : Type} `{TTransportBase.Methods U}
  (s s' : TFramedTransport.t U) :
  TFramedTransport.readFrame s = (inr tt, s') ->
  exists payload : bytes, TFramedTransport.rbuf s' = BytesIO.new payload.
Proof.
  rewrite framed_readFrame_eq.
  destruct (TTransportBase.readAll 4 _) as [[e|header] u1]; [discriminate|].
  destruct (unpack_i header) as [e|sz]; [discriminate|].
  destruct (TTransportBase.readAll sz u1) as [[e|payload] u2];
    [discriminate|].
  intros [= <-]. now exists payload.
Qed.



Section HandshakeFacts.
Context {U E : Type} `{TTransportBase.Methods U} `{SASLClient.Methods E}.
Import TSaslClientTransport.

Lemma open_loop_rounds (s s' : t U E) (k : nat) :
  ok_rounds s k s' ->
  forall fuel : nat, open_loop (k + fuel) s = open_loop fuel s'.
Proof.
  induction 1 as [s | s s1 s2 k Hbody _ IH]; intros fuel.
  - reflexivity.
  - simpl. unfold open_loop in *. simpl. rewrite Hbody. apply IH.
Qed.

Lemma open_body_bad_status (s s1 : t U E) (status : Z) (challenge : pyobj) :
  recv_sasl_msg s = (inr (status, challenge), s1) ->
  status <> OK -> status <> COMPLETE ->
  open_body tt s
  = (inl (TTransportException_ TTransportException.NOT_OPEN
            (bad_status_message status challenge)), s1).
Proof.
  intros Hrecv Hok Hcomplete. unfold open_body, bind. rewrite Hrecv.
  apply Z.eqb_neq in Hok, Hcomplete. rewrite Hok, Hcomplete. reflexivity.
Qed.

Lemma open_body_early_complete (s s1 : t U E) (challenge : pyobj) :
  recv_sasl_msg s = (inr (COMPLETE, challenge), s1) ->
  SASLClient.complete (sasl s1) = false ->
  open_body tt s
  = (inl (TTransportException_ TTransportException.NOT_OPEN
            complete_violation_message), s1).
Proof.
  intros Hrecv Hdone. unfold open_body, bind. rewrite Hrecv. simpl.
  unfold gets. rewrite Hdone. reflexivity.
Qed.

Lemma open_after_rounds (s0 s s' : t U E) (k fuel : nat) :
  open_start s0 = (inr tt, s) -> ok_rounds s k s' -> (k < fuel)%nat ->
  open fuel s0
  = match open_body tt s' with
    | (inl e, s1) => Some (inl e, s1)
    | (inr (inl _), s1) => open_loop (fuel - S k) s1
    | (inr (inr _), s1) => Some (inr tt, s1)
    end.
Proof.
  intros Hstart Hrounds Hfuel. unfold open. rewrite Hstart.
  replace fuel with (k + S (fuel - S k))%nat at 1 by lia.
  rewrite (open_loop_rounds Hrounds). unfold open_loop. simpl.
  destruct (open_body tt s') as [[e|[[]|[]]] s1]; reflexivity.
Qed.

End HandshakeFacts.

(** C4 (as amended).  In the handshake driven by [open()], at whatever
    round of its loop (after [k] rounds answered [OK]): receiving a
    status other than [OK] and [COMPLETE] ([BAD], [ERROR] or any other
    code) makes [open] raise [TTransportException] of type [NOT_OPEN]
    with the message ["Bad SASL negotiation status: ..."], and receiving
    [COMPLETE] while the engine does not report completion makes it raise
    [NOT_OPEN] with its own message.  In both cases [open] stops with the
    transport in the state in which the receipt of that message left it:
    no further call is made on the wrapped transport, and nothing is
    closed, disposed or marked. *)
Theorem handshake_failure_stops {U E : Type} `{TTransportBase.Methods U}
  `{SASLClient.Methods E}
  (s0 s s' s1 : TSaslClientTransport.t U E) (k : nat) (status : Z)
  (challenge : pyobj) :
  TSaslClientTransport.open_start s0 = (inr tt, s) ->
  ok_rounds s k s' ->
  TSaslClientTransport.recv_sasl_msg s' = (inr (status, challenge), s1) ->
  (status <> TSaslClientTransport.OK ->
   status <> TSaslClientTransport.COMPLETE ->
   forall fuel : nat,
     (k < fuel)%nat ->
     TSaslClientTransport.open fuel s0
     = Some (inl (TTransportException_ TTransportException.NOT_OPEN
                    (TSaslClientTransport.bad_status_message status
                       challenge)), s1))
  /\ (status = TSaslClientTransport.COMPLETE ->
      SASLClient.complete (TSaslClientTransport.sasl s1) = false ->
      forall fuel : nat,
        (k < fuel)%nat ->
        TSaslClientTransport.open fuel s0
        = Some (inl (TTransportException_ TTransportException.NOT_OPEN
                       TSaslClientTransport.complete_violation_message),
                s1)).
Proof.
  intros Hstart Hrounds Hrecv. split.
  - intros Hok Hcomplete fuel Hfuel.
    rewrite (open_after_rounds s0 Hstart Hrounds Hfuel).
    now rewrite (open_body_bad_status s' Hrecv Hok Hcomplete).
  - intros -> Hdone fuel Hfuel.
    rewrite (open_after_rounds s0 Hstart Hrounds Hfuel).
    now rewrite (open_body_early_complete s' Hrecv Hdone).
Qed.

Lemma handshake_failure_stops_witness :
  TSaslClientTransport.open 5 refused_client
  = Some (inl (TTransportException_ 1
                 "Bad SASL negotiation status: 3 (b'no')"),
          after_open 5 refused_client)
  /\ TSaslClientTransport.open 5 hurried_client
     = Some (inl (TTransportException_ 1
                    TSaslClientTransport.complete_violation_message),
             after_open 5 hurried_client).
Proof.
  split.
  - pose (s := after TSaslClientTransport.open_start refused_client).
    pose (s' := after (TSaslClientTransport.open_body tt) s).
    pose proof (proj1 (@handshake_failure_stops _ _ _ _ refused_client s s'
                         (after TSaslClientTransport.recv_sasl_msg s') 1 3
                         (PyBytes [x6e; x6f]) eq_refl
                         (ok_rounds_next s eq_refl (ok_rounds_done s'))
                         eq_refl)
                  ltac:(discriminate) ltac:(discriminate) 5%nat
                  ltac:(lia)) as W.
    vm_compute in W. vm_compute. exact W.
  - pose (s := after TSaslClientTransport.open_start hurried_client).
    pose proof (proj2 (@handshake_failure_stops _ _ _ _ hurried_client s s
                         (after TSaslClientTransport.recv_sasl_msg s) 0 5
                         (PyStr EmptyString) eq_refl (ok_rounds_done s)
                         eq_refl)
                  eq_refl eq_refl 5%nat ltac:(lia)) as W.
    vm_compute in W. vm_compute. exact W.
Defined.

(** C4 as stated fails in its last clause: the failed handshake leaves a
    half-set-up transport behind and marks nothing as aborted.  After the
    [BAD] answer the wrapped channel, opened by [open], is still open and
    [isOpen()] says so, the engine, not disposed, even reports
    completion, and a later [write] and [flush] send a wrapped frame. *)
Lemma handshake_failure_leaves_open :
  let s := after_open 5 refused_client in
  Channel.opened (Traced.inner (TSaslClientTransport.transport refused_client))
  = false
  /\ result TSaslClientTransport.isOpen s = inr true
  /\ SASLClient.complete (TSaslClientTransport.sasl s) = true
  /\ result (TSaslClientTransport.write (PyBytes hello) ;;;
             TSaslClientTransport.flush) s = inr tt
  /\ last (Channel.sent
             (Traced.inner
                (TSaslClientTransport.transport
                   (after (TSaslClientTransport.write (PyBytes hello) ;;;
                           TSaslClientTransport.flush) s)))) []
     = [x00; x00; x00; x06; x7e] ++ hello.
Proof. repeat split. Qed.

(** ** The write buffer across failures *)

(** [TBufferedTransport.flush] and [TFramedTransport.flush] leave an
    empty write buffer behind whatever happens to the send. *)
Lemma buffered_flush_clears {U : Type} `{TTransportBase.Methods U}
  (s : TBufferedTransport.t U) :
  BytesIO.closed (TBufferedTransport.wbuf s) = false ->
  TBufferedTransport.wbuf (after TBufferedTransport.flush s)
  = BytesIO.new [].
Proof.
  intros Hc. unfold after. rewrite buffered_flush_eq by exact Hc.
  destruct (TTransportBase.write _ _) as [[e|[]] u1]; [reflexivity|].
  destruct (TTransportBase.flush u1) as [r u2]. reflexivity.
Qed.

Lemma framed_flush_clears {U : Type} `{TTransportBase.Methods U}
  (s : TFramedTransport.t U) :
  BytesIO.closed (TFramedTransport.wbuf s) = false ->
  TFramedTransport.wbuf (after TFramedTransport.flush s) = BytesIO.new [].
Proof.
  intros Hc. unfold after. rewrite framed_flush_eq by exact Hc.
  destruct (pack_i _) as [e|header]; [reflexivity|].
  destruct (TTransportBase.write _ _) as [[e|[]] u1]; [reflexivity|].
  destruct (TTransportBase.flush u1) as [r u2]. reflexivity.
Qed.

(** No [write] of the three buffering transports touches the wrapped
    transport. *)
Lemma write_makes_no_call {U E : Type} `{TTransportBase.Methods U}
  `{SASLClient.Methods E} (buf : pyobj) :
  (forall s : TBufferedTransport.t U,
      TBufferedTransport.trans (after (TBufferedTransport.write buf) s)
      = TBufferedTransport.trans s)
  /\ (forall s : TFramedTransport.t U,
         TFramedTransport.trans (after (TFramedTransport.write buf) s)
         = TFramedTransport.trans s)
  /\ (forall s : TSaslClientTransport.t U E,
         TSaslClientTransport.transport
           (after (TSaslClientTransport.write buf) s)
         = TSaslClientTransport.transport s).
Proof.
  unfold after. repeat split; intros s.
  - rewrite buffered_write_eq.
    destruct (BytesIO.write buf _) as [[e|n] b]; reflexivity.
  - rewrite framed_write_eq.
    destruct (BytesIO.write buf _) as [[e|n] b]; reflexivity.
  - rewrite sasl_write_eq.
    destruct (BytesIO.write buf _) as [[e|n] b]; reflexivity.
Qed.

(** A failed [TBufferedTransport.write] leaves an empty write buffer. *)
Lemma buffered_write_failure_resets {U : Type} `{TTransportBase.Methods U}
  (buf : pyobj) (s : TBufferedTransport.t U) (e : exn) :
  result (TBufferedTransport.write buf) s = inl e ->
  TBufferedTransport.wbuf (after (TBufferedTransport.write buf) s)
  = BytesIO.new [].
Proof.
  unfold result, after. rewrite buffered_write_eq.
  destruct (BytesIO.write buf _) as [[e1|n] b]; [reflexivity|discriminate].
Qed.

(** C2, at its failing input.  [TSaslClientTransport.flush] clears the
    write buffer after the send, not before it: when the send of the
    frame of [hello] fails, [hello] is still in the write buffer, and
    the next [flush] sends it.  [TFramedTransport] and
    [TBufferedTransport] over the same failing channel have an empty
    write buffer after the failure, and their next [flush] sends an empty
    frame and no bytes. *)
Theorem sasl_flush_keeps_buffer_on_failure :
  let s1 := after (TSaslClientTransport.write (PyBytes hello)) flaky_sasl in
  let s2 := after TSaslClientTransport.flush s1 in
  let s3 := after TSaslClientTransport.flush s2 in
  let f1 := after (TFramedTransport.write (PyBytes hello)) flaky_framed in
  let f2 := after TFramedTransport.flush f1 in
  let f3 := after TFramedTransport.flush f2 in
  let b1 := after (TBufferedTransport.write (PyBytes hello)) flaky_buffered in
  let b2 := after TBufferedTransport.flush b1 in
  let b3 := after TBufferedTransport.flush b2 in
  (result TSaslClientTransport.flush s1 = inl (ChannelError "send failed")
   /\ BytesIO.value (TSaslClientTransport.wbuf s2) = hello
   /\ result TSaslClientTransport.flush s2 = inr tt
   /\ Channel.sent (TSaslClientTransport.transport s3)
      = [[x00; x00; x00; x06; x7e] ++ hello])
  /\ (result TFramedTransport.flush f1 = inl (ChannelError "send failed")
      /\ TFramedTransport.wbuf f2 = BytesIO.new []
      /\ Channel.sent (TFramedTransport.trans f3) = [[x00; x00; x00; x00]])
  /\ (result TBufferedTransport.flush b1 = inl (ChannelError "send failed")
      /\ TBufferedTransport.wbuf b2 = BytesIO.new []
      /\ Channel.sent (TBufferedTransport.trans b3) = [[]]).
Proof. repeat split. Qed.

(** C8, at its failing input.  [write] is handed a text instead of
    bytes after [hello] has been written, and raises [TypeError].
    [TFramedTransport] and [TSaslClientTransport] do not reset the write
    buffer: [hello] is still in it and the next [flush] sends its frame.
    [TBufferedTransport] resets it and the next [flush] sends no
    bytes. *)
Theorem framed_write_failure_keeps_buffer :
  let f1 := after (TFramedTransport.write (PyBytes hello)) sound_framed in
  let f2 := after (TFramedTransport.write (PyStr "x")) f1 in
  let s1 := after (TSaslClientTransport.write (PyBytes hello)) sound_sasl in
  let s2 := after (TSaslClientTransport.write (PyStr "x")) s1 in
  let b1 := after (TBufferedTransport.write (PyBytes hello)) sound_buffered in
  let b2 := after (TBufferedTransport.write (PyStr "x")) b1 in
  (result (TFramedTransport.write (PyStr "x")) f1 = inl TypeError
   /\ BytesIO.value (TFramedTransport.wbuf f2) = hello
   /\ Channel.sent (TFramedTransport.trans (after TFramedTransport.flush f2))
      = [[x00; x00; x00; x05] ++ hello])
  /\ (result (TSaslClientTransport.write (PyStr "x")) s1 = inl TypeError
      /\ BytesIO.value (TSaslClientTransport.wbuf s2) = hello
      /\ Channel.sent
           (TSaslClientTransport.transport
              (after TSaslClientTransport.flush s2))
         = [[x00; x00; x00; x06; x7e] ++ hello])
  /\ (result (TBufferedTransport.write (PyStr "x")) b1 = inl TypeError
      /\ TBufferedTransport.wbuf b2 = BytesIO.new []
      /\ Channel.sent
           (TBufferedTransport.trans (after TBufferedTransport.flush b2))
         = [[]]).
Proof. repeat split. Qed.

(** * Further properties of the module *)

(** ** [TMemoryBuffer] *)

Lemma mem_write_each (bs : list bytes) :
  forall v : bytes,
    write_each TMemoryBuffer.write bs (mem_at v (length v))
    = (inr tt, mem_at (v ++ concat bs) (length (v ++ concat bs))).
Proof.
  induction bs as [|b bs IH]; intros v.
  - simpl. rewrite app_nil_r. reflexivity.
  - simpl. unfold bind.
    change (TMemoryBuffer.write (PyBytes b) (mem_at v (length v)))
      with (TTransportBase.write (PyBytes b) (mem_at v (length v))).
    rewrite mem_write, IH, app_assoc. reflexivity.
Qed.

(** X1.  A [TMemoryBuffer()] made for writing collects its writes: after
    [write(b1)], ..., [write(bn)], every one of which succeeds,
    [getvalue()] returns [b1 + ... + bn], unframed. *)
Theorem mem_writes_then_getvalue (bs : list bytes) :
  forall m : TMemoryBuffer.t,
    TMemoryBuffer.init None 0 = inr m ->
    (write_each TMemoryBuffer.write bs ;;; TMemoryBuffer.getvalue) m
    = (inr (concat bs), mem_at (concat bs) (length (concat bs))).
Proof.
  intros m [= <-]. unfold bind.
  pose proof (mem_write_each bs []) as E. simpl in E.
  change (TMemoryBuffer.mk (BytesIO.new [])) with (mem_at [] 0).
  rewrite E. reflexivity.
Qed.

Lemma mem_writes_then_getvalue_witness :
  (write_each TMemoryBuffer.write [hello; []; hello] ;;;
   TMemoryBuffer.getvalue) (mem_at [] 0)
  = (inr (hello ++ hello), mem_at (hello ++ hello) 10).
Proof.
  apply (mem_writes_then_getvalue [hello; []; hello] (m := mem_at [] 0)).
  reflexivity.
Defined.

(** X2.  Writing and then reading the same [TMemoryBuffer] reads nothing
    (the NOTE of its docstring): after any writes on a new buffer, [read]
    of a size that fits a machine index ([-2^63 <= sz < 2^63]) returns
    the empty byte string, [read] of a size outside that range raises
    [OverflowError], and [readAll(n)] for [0 < n < 2^63] raises
    [EOFError]; none of them changes the buffer. *)
Theorem mem_write_then_read_nothing (bs : list bytes) (sz n : Z) :
  0 < n <= 9223372036854775807 ->
  let m := after (write_each TMemoryBuffer.write bs) (mem_at [] 0) in
  (-9223372036854775808 <= sz <= 9223372036854775807 ->
   TMemoryBuffer.read sz m = (inr [], m))
  /\ (sz < -9223372036854775808 \/ 9223372036854775807 < sz ->
      TMemoryBuffer.read sz m = (inl OverflowError, m))
  /\ TTransportBase.readAll n m = (inl EOFError, m).
Proof.
  intros Hn m. subst m. unfold after.
  pose proof (mem_write_each bs []) as E. simpl in E. rewrite E. simpl snd.
  set (v := concat bs).
  assert (Hrest : skipn (length v) v = []) by apply skipn_all.
  split; [|split].
  - intros Hsz.
    unfold mem_at, TMemoryBuffer.read, TMemoryBuffer.on_buffer, zoom. fields.
    rewrite BytesIO_read_open by fits.
    rewrite Hrest, firstn_nil. destruct (sz <? 0); simpl;
      rewrite Nat.add_0_r; reflexivity.
  - intros Hsz.
    unfold mem_at, TMemoryBuffer.read, TMemoryBuffer.on_buffer, zoom. fields.
    rewrite BytesIO_read_overflow by (apply fits_ssize_t_outside; exact Hsz).
    reflexivity.
  - rewrite mem_readAll by lia. rewrite Hrest.
    replace (n <=? len (@nil byte)) with false
      by (symmetry; apply Z.leb_gt; rewrite len_nil; lia).
    simpl. rewrite Nat.add_0_r. reflexivity.
Qed.

Lemma mem_write_then_read_nothing_witness :
  let m := after (write_each TMemoryBuffer.write [hello]) (mem_at [] 0) in
  TMemoryBuffer.read 5 m = (inr [], m)
  /\ TTransportBase.readAll 5 m = (inl EOFError, m).
Proof.
  pose proof (@mem_write_then_read_nothing [hello] 5 5 ltac:(lia))
    as [W1 [_ W2]].
  split; [apply W1; lia | exact W2].
Defined.

(** X3.  [readAll(n)] on an open [TMemoryBuffer], [0 <= n < 2^63]: when
    at least [n] bytes lie after the cursor it returns exactly the next
    [n] and moves the cursor [n] on; when fewer do, it raises [EOFError]
    with the cursor at the end, the bytes that were there consumed. *)
Theorem mem_readAll_consumes (n : Z) (v : bytes) (p : nat) :
  0 <= n <= 9223372036854775807 ->
  (n <= len (skipn p v) ->
   TTransportBase.readAll n (mem_at v p)
   = (inr (firstn (Z.to_nat n) (skipn p v)), mem_at v (p + Z.to_nat n))
   /\ len (firstn (Z.to_nat n) (skipn p v)) = n)
  /\ (len (skipn p v) < n ->
      TTransportBase.readAll n (mem_at v p)
      = (inl EOFError, mem_at v (p + length (skipn p v)))
      /\ BytesIO.remaining
           (TMemoryBuffer.buffer (mem_at v (p + length (skipn p v)))) = []).
Proof.
  intros Hn. split; intros Hcmp.
  - rewrite mem_readAll by exact Hn.
    replace (n <=? len (skipn p v)) with true
      by (symmetry; apply Z.leb_le; lia).
    split; [reflexivity|]. unfold len in *.
    rewrite firstn_length_le; lia.
  - rewrite mem_readAll by exact Hn.
    replace (n <=? len (skipn p v)) with false
      by (symmetry; apply Z.leb_gt; lia).
    split; [reflexivity|]. unfold BytesIO.remaining. simpl.
    rewrite Nat.add_comm, <- skipn_skipn. apply skipn_all.
Qed.

Lemma mem_readAll_consumes_witness :
  TTransportBase.readAll 3 (mem_at hello 1)
  = (inr [x65; x6c; x6c], mem_at hello 4)
  /\ TTransportBase.readAll 5 (mem_at hello 1)
     = (inl EOFError, mem_at hello 5).
Proof.
  split.
  - apply (proj1 (@mem_readAll_consumes 3 hello 1 ltac:(lia))).
    vm_compute. discriminate.
  - apply (proj2 (@mem_readAll_consumes 5 hello 1 ltac:(lia))).
    reflexivity.
Defined.

(** X4.  A closed [TMemoryBuffer]: after [close()], [isOpen()] answers
    false; [read] of a size that fits a machine index
    ([-2^63 <= sz < 2^63]), [write], [getvalue] and a [readAll] of a
    length [0 < n < 2^63] raise [ValueError]; [read] of a size outside
    that range raises [OverflowError], the size being checked before the
    stream; and a second [close()] is accepted. *)
Theorem mem_closed_refuses (m : TMemoryBuffer.t) (sz n : Z) (buf : pyobj) :
  0 < n <= 9223372036854775807 ->
  let c := after TMemoryBuffer.close m in
  TMemoryBuffer.isOpen c = (inr false, c)
  /\ (-9223372036854775808 <= sz <= 9223372036854775807 ->
      TMemoryBuffer.read sz c = (inl ValueError, c))
  /\ (sz < -9223372036854775808 \/ 9223372036854775807 < sz ->
      TMemoryBuffer.read sz c = (inl OverflowError, c))
  /\ TMemoryBuffer.write buf c = (inl ValueError, c)
  /\ TMemoryBuffer.getvalue c = (inl ValueError, c)
  /\ TTransportBase.readAll n c = (inl ValueError, c)
  /\ TMemoryBuffer.close c = (inr tt, c).
Proof.
  intros Hn c. subst c. destruct m as [[v p cl]].
  assert (Hclosed : forall k : Z,
             -9223372036854775808 <= k <= 9223372036854775807 ->
             TMemoryBuffer.read k (TMemoryBuffer.mk (BytesIO.mk v p true))
             = (inl ValueError, TMemoryBuffer.mk (BytesIO.mk v p true))).
  { intros k Hk. unfold TMemoryBuffer.read, TMemoryBuffer.on_buffer, zoom,
      BytesIO.read. fields.
    now rewrite fits_ssize_t_range by exact Hk. }
  split; [reflexivity|]. split; [exact (Hclosed sz)|].
  split.
  { intros Hsz. unfold after, TMemoryBuffer.close, TMemoryBuffer.read,
      TMemoryBuffer.on_buffer, zoom. fields.
    rewrite BytesIO_read_overflow by (apply fits_ssize_t_outside; exact Hsz).
    reflexivity. }
  repeat split.
  unfold TTransportBase.readAll. rewrite readAll_loop_unfold by lia.
  replace (0 <? n) with true by (symmetry; apply Z.ltb_lt; lia).
  rewrite Z.sub_0_r. unfold after. simpl TTransportBase.read.
  change (snd (TMemoryBuffer.close (TMemoryBuffer.mk (BytesIO.mk v p cl))))
    with (TMemoryBuffer.mk (BytesIO.mk v p true)).
  rewrite Hclosed by lia. reflexivity.
Qed.

Lemma mem_closed_refuses_witness :
  let c := after TMemoryBuffer.close (mem_at hello 0) in
  TMemoryBuffer.isOpen c = (inr false, c)
  /\ TMemoryBuffer.read 5 c = (inl ValueError, c)
  /\ TMemoryBuffer.write (PyBytes hello) c = (inl ValueError, c)
  /\ TMemoryBuffer.getvalue c = (inl ValueError, c)
  /\ TTransportBase.readAll 5 c = (inl ValueError, c)
  /\ TMemoryBuffer.close c = (inr tt, c).
Proof.
  pose proof (@mem_closed_refuses (mem_at hello 0) 5 5 (PyBytes hello)
                ltac:(lia)) as [W1 [W2 [_ W3]]].
  split; [exact W1|]. split; [apply W2; lia | exact W3].
Defined.

(** X5.  The [offset] of [TMemoryBuffer(value, offset)]: an offset that
    does not fit a machine index (below [-2^63] or from [2^63] on) makes
    the constructor raise [OverflowError]; a negative offset that fits
    makes it raise [ValueError]; an offset from 0 up to [2^63 - 1] gives
    a buffer whose reads start [offset] bytes into [value], and nothing
    is read, whatever the size that fits a machine index, when the
    offset lies beyond its end. *)
Theorem mem_init_offset (value : bytes) (offset : Z) :
  (offset < -9223372036854775808 \/ 9223372036854775807 < offset ->
   TMemoryBuffer.init (Some value) offset = inl OverflowError)
  /\ (-9223372036854775808 <= offset < 0 ->
      TMemoryBuffer.init (Some value) offset = inl ValueError)
  /\ (0 <= offset <= 9223372036854775807 ->
      TMemoryBuffer.init (Some value) offset
      = inr (mem_at value (Z.to_nat offset))
      /\ result (TMemoryBuffer.read (-1)) (mem_at value (Z.to_nat offset))
         = inr (skipn (Z.to_nat offset) value)
      /\ (len value <= offset ->
          forall sz : Z,
            -9223372036854775808 <= sz <= 9223372036854775807 ->
            result (TMemoryBuffer.read sz) (mem_at value (Z.to_nat offset))
            = inr [])).
Proof.
  split; [|split].
  - intros Hout. unfold TMemoryBuffer.init.
    replace (offset =? 0) with false by (symmetry; apply Z.eqb_neq; lia).
    unfold BytesIO.seek.
    rewrite fits_ssize_t_outside by exact Hout. reflexivity.
  - intros Hneg. unfold TMemoryBuffer.init.
    replace (offset =? 0) with false by (symmetry; apply Z.eqb_neq; lia).
    unfold BytesIO.seek. rewrite fits_ssize_t_range by lia. simpl.
    replace (offset <? 0) with true by (symmetry; apply Z.ltb_lt; lia).
    reflexivity.
  - intros Hpos. repeat split.
    + unfold TMemoryBuffer.init.
      destruct (Z.eqb_spec offset 0) as [->|Hnz]; [reflexivity|].
      unfold BytesIO.seek. rewrite fits_ssize_t_range by lia. simpl.
      replace (offset <? 0) with false by (symmetry; apply Z.ltb_ge; lia).
      reflexivity.
    + intros Hbeyond sz Hsz. unfold result, mem_at, TMemoryBuffer.read,
        TMemoryBuffer.on_buffer, zoom. fields.
      rewrite BytesIO_read_open by fits.
      rewrite skipn_all2 by (unfold len in Hbeyond; lia).
      rewrite firstn_nil. now destruct (sz <? 0).
Qed.

Lemma mem_init_offset_witness :
  TMemoryBuffer.init (Some hello) 9223372036854775808 = inl OverflowError
  /\ TMemoryBuffer.init (Some hello) (-1) = inl ValueError
  /\ TMemoryBuffer.init (Some hello) 2 = inr (mem_at hello 2)
  /\ result (TMemoryBuffer.read 3) (mem_at hello 7) = inr [].
Proof.
  split; [|split; [|split]].
  - apply (proj1 (mem_init_offset hello 9223372036854775808)). lia.
  - apply (proj1 (proj2 (mem_init_offset hello (-1)))). lia.
  - apply (proj1 (proj2 (proj2 (mem_init_offset hello 2)) ltac:(lia))).
  - apply (proj2 (proj2 (proj2 (proj2 (mem_init_offset hello 7))
                           ltac:(lia)))); [vm_compute; discriminate | lia].
Defined.

(** ** Writes gathered, sent by one flush *)

Section GatheredWrites.
Context {U : Type} `{TTransportBase.Methods U}.

Lemma buffered_write_each (bs : list bytes) :
  forall (u : U) (v : bytes) (rb : BytesIO.t) (w : Z),
    write_each TBufferedTransport.write bs
      (TBufferedTransport.mk u (BytesIO.mk v (length v) false) rb w)
    = (inr tt,
       TBufferedTransport.mk u
         (BytesIO.mk (v ++ concat bs) (length (v ++ concat bs)) false) rb w).
Proof.
  induction bs as [|b bs IH]; intros u v rb w.
  - simpl. rewrite app_nil_r. reflexivity.
  - simpl. unfold bind. rewrite buffered_write_eq. fields.
    rewrite BytesIO_write_at_end, IH, app_assoc. reflexivity.
Qed.

Lemma framed_write_each (bs : list bytes) :
  forall (u : U) (v : bytes) (rb : BytesIO.t),
    write_each TFramedTransport.write bs
      (TFramedTransport.mk u rb (BytesIO.mk v (length v) false))
    = (inr tt,
       TFramedTransport.mk u rb
         (BytesIO.mk (v ++ concat bs) (length (v ++ concat bs)) false)).
Proof.
  induction bs as [|b bs IH]; intros u v rb.
  - simpl. rewrite app_nil_r. reflexivity.
  - simpl. unfold bind. rewrite framed_write_eq. fields.
    rewrite BytesIO_write_at_end, IH, app_assoc. reflexivity.
Qed.

End GatheredWrites.

(** X6.  [TBufferedTransport]: the writes made since the last flush
    reach the wrapped transport in one piece.  Starting with an empty
    write buffer, [write(b1)], ..., [write(bn)] make no call on the
    wrapped transport; the [flush()] that follows makes one [write]
    there, of [b1 + ... + bn], then one [flush] if that write did not
    raise, and in either case leaves the write buffer empty. *)
Theorem buffered_flush_sends_concat {U : Type} `{TTransportBase.Methods U}
  (s : TBufferedTransport.t (Traced.t U)) (bs : list bytes) :
  TBufferedTransport.wbuf s = BytesIO.new [] ->
  let s1 := after (write_each TBufferedTransport.write bs) s in
  let under := TBufferedTransport.trans s in
  let sent := Traced.Write (PyBytes (concat bs)) in
  TBufferedTransport.trans s1 = under
  /\ match TTransportBase.write (PyBytes (concat bs)) (Traced.inner under)
     with
     | (inl e, u1) =>
         TBufferedTransport.flush s1
         = (inl e,
            TBufferedTransport.mk
              (Traced.mk u1 (Traced.calls under ++ [sent]))
              (BytesIO.new []) (TBufferedTransport.rbuf s)
              (TBufferedTransport.rbuf_size s))
     | (inr _, u1) =>
         TBufferedTransport.flush s1
         = (fst (TTransportBase.flush u1),
            TBufferedTransport.mk
              (Traced.mk (snd (TTransportBase.flush u1))
                 (Traced.calls under ++ [sent; Traced.Flush]))
              (BytesIO.new []) (TBufferedTransport.rbuf s)
              (TBufferedTransport.rbuf_size s))
     end.
Proof.
  intros Hw s1 under sent. subst s1 under sent.
  destruct s as [[u calls] wb rb w]. fields. subst wb. unfold after.
  pose proof (buffered_write_each bs (Traced.mk u calls) [] rb w) as E.
  cbn [length app] in E. unfold BytesIO.new. rewrite E. simpl snd.
  split; [reflexivity|].
  rewrite buffered_flush_eq by reflexivity. fields.
  simpl. unfold Traced.recorded. fields.
  destruct (TTransportBase.write (PyBytes (concat bs)) u) as [[e|[]] u1];
    [reflexivity|].
  simpl. unfold Traced.recorded. fields.
  destruct (TTransportBase.flush u1) as [r u2]. simpl.
  now rewrite <- app_assoc.
Qed.

Lemma buffered_flush_sends_concat_witness :
  let s1 := after (write_each TBufferedTransport.write [hello; hello])
              (buffered_over []) in
  TBufferedTransport.trans s1 = Traced.watch (mem_at [] 0)
  /\ TBufferedTransport.flush s1
     = (inr tt,
        TBufferedTransport.mk
          (Traced.mk (mem_at (hello ++ hello) 10)
             [Traced.Write (PyBytes (hello ++ hello)); Traced.Flush])
          (BytesIO.new []) (BytesIO.new []) 4096).
Proof.
  pose proof (@buffered_flush_sends_concat TMemoryBuffer.t _
                (buffered_over []) [hello; hello] eq_refl) as W.
  vm_compute in W. vm_compute. exact W.
Defined.

(** X7.  [TFramedTransport]: the writes made since the last flush leave
    as one frame.  Starting with an empty write buffer, the writes make
    no call on the wrapped transport; when they add up to at most
    2^31 - 1 bytes, [flush()] makes one [write] there, of the 4-byte
    big-endian total length followed by [b1 + ... + bn], then one
    [flush] if that write did not raise, and leaves the write buffer
    empty. *)
Theorem framed_flush_sends_one_frame {U : Type} `{TTransportBase.Methods U}
  (s : TFramedTransport.t (Traced.t U)) (bs : list bytes) :
  TFramedTransport.wbuf s = BytesIO.new [] ->
  len (concat bs) <= 2147483647 ->
  let s1 := after (write_each TFramedTransport.write bs) s in
  let under := TFramedTransport.trans s in
  let frame := be_bytes4 (len (concat bs)) ++ concat bs in
  let sent := Traced.Write (PyBytes frame) in
  TFramedTransport.trans s1 = under
  /\ be_uint (firstn 4 frame) = len (concat bs)
  /\ match TTransportBase.write (PyBytes frame) (Traced.inner under) with
     | (inl e, u1) =>
         TFramedTransport.flush s1
         = (inl e,
            TFramedTransport.mk
              (Traced.mk u1 (Traced.calls under ++ [sent]))
              (TFramedTransport.rbuf s) (BytesIO.new []))
     | (inr _, u1) =>
         TFramedTransport.flush s1
         = (fst (TTransportBase.flush u1),
            TFramedTransport.mk
              (Traced.mk (snd (TTransportBase.flush u1))
                 (Traced.calls under ++ [sent; Traced.Flush]))
              (TFramedTransport.rbuf s) (BytesIO.new []))
     end.
Proof.
  intros Hw Hlen s1 under frame sent. subst s1 under sent frame.
  pose proof (len_nonneg (concat bs)) as H0.
  destruct s as [[u calls] rb wb]. fields. subst wb. unfold after.
  pose proof (framed_write_each bs (Traced.mk u calls) [] rb) as E.
  cbn [length app] in E. unfold BytesIO.new. rewrite E. simpl snd.
  split; [reflexivity|]. split.
  - change (firstn 4 (be_bytes4 (len (concat bs)) ++ concat bs))
      with (be_bytes4 (len (concat bs))).
    apply be_uint_be_bytes4. lia.
  - rewrite framed_flush_eq by reflexivity. fields.
    rewrite pack_i_small by lia.
    simpl TTransportBase.write. unfold Traced.recorded. fields.
    destruct (TTransportBase.write _ u) as [[e|[]] u1]; [reflexivity|].
    simpl TTransportBase.flush. unfold Traced.recorded. fields.
    destruct (TTransportBase.flush u1) as [r u2]. simpl.
    now rewrite <- app_assoc.
Qed.

Lemma framed_flush_sends_one_frame_witness :
  let s1 := after (write_each TFramedTransport.write [hello; hello])
              (TFramedTransport.init (Traced.watch (mem_at [] 0))) in
  TFramedTransport.flush s1
  = (inr tt,
     TFramedTransport.mk
       (Traced.mk (mem_at ([x00; x00; x00; x0a] ++ hello ++ hello) 14)
          [Traced.Write (PyBytes ([x00; x00; x00; x0a] ++ hello ++ hello));
           Traced.Flush])
       (BytesIO.new []) (BytesIO.new [])).
Proof.
  pose proof (proj2 (proj2 (@framed_flush_sends_one_frame TMemoryBuffer.t _
                (TFramedTransport.init (Traced.watch (mem_at [] 0)))
                [hello; hello] eq_refl ltac:(vm_compute; discriminate)))) as W.
  vm_compute in W. vm_compute. exact W.
Defined.

(** X8.  Transports fresh from the factories, over any transport [u]:
    the base factory hands [u] back; building a buffered or framed
    transport makes no call on [u]; the buffered one has the default
    window, so its first [read(sz)], for a size that fits a machine
    index ([-2^63 <= sz < 2^63]), makes the one call
    [read(max(sz, 4096))], while for a size outside that range it raises
    [OverflowError] without a call on [u]; and a [flush()] with nothing
    written still sends: the buffered transport writes the empty byte
    string, the framed one the empty frame [00 00 00 00]. *)
Theorem factory_built_transports {U : Type} `{TTransportBase.Methods U}
  (u : U) (sz : Z) :
  let b := TBufferedTransportFactory.getTransport (Traced.watch u) in
  let f := TFramedTransportFactory.getTransport (Traced.watch u) in
  TTransportFactoryBase.getTransport u = u
  /\ Traced.calls (TBufferedTransport.trans b) = []
  /\ Traced.calls (TFramedTransport.trans f) = []
  /\ (-9223372036854775808 <= sz <= 9223372036854775807 ->
      Traced.calls
        (TBufferedTransport.trans (after (TBufferedTransport.read sz) b))
      = [Traced.Read (Z.max sz 4096)])
  /\ (sz < -9223372036854775808 \/ 9223372036854775807 < sz ->
      TBufferedTransport.read sz b = (inl OverflowError, b))
  /\ (exists rest : list Traced.call,
         Traced.calls
           (TBufferedTransport.trans (after TBufferedTransport.flush b))
         = Traced.Write (PyBytes []) :: rest)
  /\ (exists rest : list Traced.call,
         Traced.calls
           (TFramedTransport.trans (after TFramedTransport.flush f))
         = Traced.Write (PyBytes [x00; x00; x00; x00]) :: rest).
Proof.
  intros b f. subst b f.
  unfold after, TBufferedTransportFactory.getTransport,
    TFramedTransportFactory.getTransport, TBufferedTransport.init,
    TFramedTransport.init, Traced.watch.
  repeat split.
  - intros Hsz. rewrite buffered_read_fetch; [|reflexivity|].
    + simpl TTransportBase.read. unfold Traced.recorded. fields.
      match goal with
      | |- context [TTransportBase.read ?n u] =>
          destruct (TTransportBase.read n u) as [[e|chunk] u1]
      end; [reflexivity|].
      unfold BytesIO.new. rewrite BytesIO_read_open by fits. reflexivity.
    + fields. unfold BytesIO.new. rewrite BytesIO_read_open by fits.
      simpl. destruct (sz <? 0); [reflexivity | now rewrite firstn_nil].
  - intros Hsz.
    unfold TBufferedTransport.read, bind, TBufferedTransport.on_rbuf, zoom.
    rewrite BytesIO_read_overflow by (now apply fits_ssize_t_outside).
    reflexivity.
  - rewrite buffered_flush_eq by reflexivity.
    simpl. unfold Traced.recorded. fields.
    destruct (TTransportBase.write _ u) as [[e|[]] u1].
    + now exists [].
    + simpl. unfold Traced.recorded. fields.
      destruct (TTransportBase.flush u1) as [r u2]. now exists [Traced.Flush].
  - rewrite framed_flush_eq by reflexivity.
    simpl. unfold Traced.recorded. fields.
    destruct (TTransportBase.write _ u) as [[e|[]] u1].
    + now exists [].
    + simpl. unfold Traced.recorded. fields.
      destruct (TTransportBase.flush u1) as [r u2]. now exists [Traced.Flush].
Qed.

(** ** No transport of the module returns more than it is asked for *)

Lemma BytesIO_read_le (sz : Z) (b b' : BytesIO.t) (out : bytes) :
  0 <= sz -> BytesIO.read sz b = (inr out, b') -> len out <= sz.
Proof.
  intros Hsz. unfold BytesIO.read.
  destruct (BytesIO.fits_ssize_t sz); [|discriminate]. simpl.
  destruct (BytesIO.closed b); [discriminate|].
  replace (sz <? 0) with false by (symmetry; apply Z.ltb_ge; lia).
  intros [= <- _]. unfold len.
  pose proof (firstn_le_length (Z.to_nat sz) (BytesIO.remaining b)). lia.
Qed.

(** X9.  For [sz >= 0], [read(sz)] on a [TMemoryBuffer], a
    [TBufferedTransport], a [TFramedTransport] or a
    [TSaslClientTransport] never returns more than [sz] bytes, whatever
    the wrapped transport (or the engine) hands over; so a [readAll(n)]
    through the first three that returns, returns exactly [n] bytes. *)
Theorem reads_respect_their_bound {U E : Type} `{TTransportBase.Methods U}
  `{SASLClient.Methods E} :
  read_bounded (T := TMemoryBuffer.t)
  /\ read_bounded (T := TBufferedTransport.t U)
  /\ read_bounded (T := TFramedTransport.t U)
  /\ (forall (sz : Z) (s s' : TSaslClientTransport.t U E) (out : bytes),
         0 <= sz -> TSaslClientTransport.read sz s = (inr out, s') ->
         len out <= sz)
  /\ (forall (n : Z) (out : bytes),
         0 <= n ->
         (forall m m' : TMemoryBuffer.t,
             TTransportBase.readAll n m = (inr out, m') -> len out = n)
         /\ (forall s s' : TBufferedTransport.t U,
                TTransportBase.readAll n s = (inr out, s') -> len out = n)
         /\ (forall s s' : TFramedTransport.t U,
                TTransportBase.readAll n s = (inr out, s') -> len out = n)).
Proof.
  assert (Hmem : read_bounded (T := TMemoryBuffer.t)).
  { intros n t t' chunk Hn. simpl.
    unfold TMemoryBuffer.read, TMemoryBuffer.on_buffer, zoom.
    destruct (BytesIO.read n (TMemoryBuffer.buffer t)) as [r b] eqn:Er.
    intros [= -> _]. eapply BytesIO_read_le; eassumption. }
  assert (Hbuf : read_bounded (T := TBufferedTransport.t U)).
  { intros n t t' chunk Hn. simpl.
    unfold TBufferedTransport.read, bind at 1,
      TBufferedTransport.on_rbuf at 1, zoom at 1.
    destruct (BytesIO.read n (TBufferedTransport.rbuf t))
      as [[e|ret_] b] eqn:Er; [discriminate|].
    destruct (negb (len ret_ =? 0)).
    - intros [= <- _]. eapply BytesIO_read_le; eassumption.
    - unfold bind, gets, TBufferedTransport.on_trans,
        TBufferedTransport.set_rbuf, TBufferedTransport.on_rbuf, zoom,
        modify. fields.
      destruct (TTransportBase.read _ _) as [[e|got] u1]; [discriminate|].
      fields.
      destruct (BytesIO.read n (BytesIO.new got)) as [r b1] eqn:Er1.
      intros [= -> _]. eapply BytesIO_read_le; eassumption. }
  assert (Hfr : read_bounded (T := TFramedTransport.t U)).
  { intros n t t' chunk Hn. simpl.
    unfold TFramedTransport.read, bind at 1,
      TFramedTransport.on_rbuf at 1, zoom at 1.
    destruct (BytesIO.read n (TFramedTransport.rbuf t))
      as [[e|ret_] b] eqn:Er; [discriminate|].
    destruct (negb (len ret_ =? 0)).
    - intros [= <- _]. eapply BytesIO_read_le; eassumption.
    - unfold bind at 1.
      destruct (TFramedTransport.readFrame _) as [[e|[]] s1];
        [discriminate|].
      unfold TFramedTransport.on_rbuf, zoom.
      destruct (BytesIO.read n (TFramedTransport.rbuf s1)) as [r b1] eqn:Er1.
      intros [= -> _]. eapply BytesIO_read_le; eassumption. }
  split; [exact Hmem|]. split; [exact Hbuf|]. split; [exact Hfr|]. split.
  - intros sz s s' out Hsz.
    unfold TSaslClientTransport.read, bind at 1,
      TSaslClientTransport.on_rbuf at 1, zoom at 1.
    destruct (BytesIO.read sz (TSaslClientTransport.rbuf s))
      as [[e|ret_] b] eqn:Er; [discriminate|].
    destruct (negb (len ret_ =? 0)).
    + intros [= <- _]. eapply BytesIO_read_le; eassumption.
    + unfold bind at 1.
      destruct (TSaslClientTransport._read_frame _) as [[e|[]] s1];
        [discriminate|].
      unfold TSaslClientTransport.on_rbuf, zoom.
      destruct (BytesIO.read sz (TSaslClientTransport.rbuf s1))
        as [r b1] eqn:Er1.
      intros [= -> _]. eapply BytesIO_read_le; eassumption.
  - intros n out Hn. repeat split; intros s s' Hr.
    + exact (@readAll_exact _ _ n s s' out Hmem Hn Hr).
    + exact (@readAll_exact _ _ n s s' out Hbuf Hn Hr).
    + exact (@readAll_exact _ _ n s s' out Hfr Hn Hr).
Qed.

Lemma reads_respect_their_bound_witness :
  result (TBufferedTransport.read 2) (buffered_over hello) = inr [x68; x65]
  /\ len [x68; x65] <= 2.
Proof.
  split; [reflexivity|].
  apply (proj1 (proj2 (@reads_respect_their_bound (Traced.t TMemoryBuffer.t)
                         ToyEngine.t _ _))
           2 (buffered_over hello)
           (after (TBufferedTransport.read 2) (buffered_over hello))).
  - lia.
  - reflexivity.
Defined.

(** ** Frames read from a memory buffer *)

(** What [readFrame] does on an open memory buffer, case by case. *)
Lemma framed_readFrame_mem (v : bytes) (p : nat) (rb wb : BytesIO.t) :
  TFramedTransport.readFrame (TFramedTransport.mk (mem_at v p) rb wb)
  = if 4 <=? len (skipn p v) then
      match unpack_i (firstn 4 (skipn p v)) with
      | inl e => (inl e, TFramedTransport.mk (mem_at v (p + 4)) rb wb)
      | inr sz =>
          if sz <=? 0 then
            (inr tt,
             TFramedTransport.mk (mem_at v (p + 4)) (BytesIO.new []) wb)
          else if sz <=? len (skipn (p + 4) v) then
            (inr tt,
             TFramedTransport.mk (mem_at v (p + 4 + Z.to_nat sz))
               (BytesIO.new (firstn (Z.to_nat sz) (skipn (p + 4) v))) wb)
          else
            (inl EOFError,
             TFramedTransport.mk
               (mem_at v (p + 4 + length (skipn (p + 4) v))) rb wb)
      end
    else
      (inl EOFError,
       TFramedTransport.mk (mem_at v (p + length (skipn p v))) rb wb).
Proof.
  rewrite framed_readFrame_eq. fields. rewrite mem_readAll by lia.
  destruct (4 <=? len (skipn p v)); [|reflexivity].
  change (Z.to_nat 4) with 4%nat.
  destruct (unpack_i (firstn 4 (skipn p v))) as [e|sz] eqn:Eu;
    [reflexivity|].
  pose proof (unpack_i_range _ Eu) as Hrange.
  destruct (Z.leb_spec sz 0) as [Hneg|Hpos].
  - rewrite readAll_nonpos by exact Hneg. reflexivity.
  - rewrite mem_readAll by lia.
    destruct (sz <=? len (skipn (p + 4) v)); reflexivity.
Qed.

Lemma unpack_i_be_bytes4 (n : Z) :
  0 <= n <= 2147483647 -> unpack_i (be_bytes4 n) = inr n.
Proof.
  intros Hn. apply unpack_i_pack_i. now apply pack_i_small.
Qed.

(** The frame of [P] found at the cursor is read whole. *)
Lemma framed_readFrame_here (pre P post : bytes) (rb wb : BytesIO.t) :
  len P <= 2147483647 ->
  TFramedTransport.readFrame
    (TFramedTransport.mk (mem_at (pre ++ frame P ++ post) (length pre)) rb wb)
  = (inr tt,
     TFramedTransport.mk
       (mem_at (pre ++ frame P ++ post) (length (pre ++ frame P)))
       (BytesIO.new P) wb).
Proof.
  intros HP. pose proof (len_nonneg P) as H0.
  rewrite framed_readFrame_eq. fields.
  unfold frame. rewrite <- !app_assoc.
  pose proof (mem_readAll_here pre (be_bytes4 (len P)) (P ++ post)
                ltac:(rewrite len_be_bytes4; lia)) as E1.
  rewrite len_be_bytes4 in E1. rewrite E1.
  rewrite unpack_i_be_bytes4 by lia.
  pose proof (mem_readAll_here (pre ++ be_bytes4 (len P)) P post
                ltac:(lia)) as E2.
  rewrite <- !app_assoc, length_app in E2. rewrite E2.
  rewrite !length_app. now rewrite Nat.add_assoc.
Qed.

Lemma BytesIO_read_all_fresh (P : bytes) :
  len P <= 9223372036854775807 ->
  BytesIO.read (len P) (BytesIO.new P)
  = (inr P, BytesIO.mk P (length P) false).
Proof.
  intros HP. pose proof (len_nonneg P).
  unfold BytesIO.new. rewrite BytesIO_read_open by fits.
  replace (len P <? 0) with false by (symmetry; apply Z.ltb_ge; lia).
  simpl. unfold len. now rewrite Nat2Z.id, firstn_all.
Qed.

Lemma BytesIO_read_exhausted (sz : Z) (P : bytes) :
  -9223372036854775808 <= sz <= 9223372036854775807 ->
  BytesIO.read sz (BytesIO.mk P (length P) false)
  = (inr [], BytesIO.mk P (length P) false).
Proof.
  intros Hsz. rewrite BytesIO_read_open by fits.
  rewrite skipn_all, firstn_nil.
  destruct (sz <? 0); simpl; now rewrite Nat.add_0_r.
Qed.

(** With its read buffer used up, [read(len(P))] at the frame of [P]
    returns [P] and uses up the new read buffer. *)
Lemma framed_read_frame_here (pre P post old : bytes) :
  len P <= 2147483647 ->
  TFramedTransport.read (len P)
    (framed_at (pre ++ frame P ++ post) (length pre)
       (BytesIO.mk old (length old) false))
  = (inr P,
     framed_at (pre ++ frame P ++ post) (length (pre ++ frame P))
       (BytesIO.mk P (length P) false)).
Proof.
  intros HP. pose proof (len_nonneg P) as H0. unfold framed_at.
  rewrite framed_read_refill; [|reflexivity|].
  2:{ fields. now rewrite BytesIO_read_exhausted by lia. }
  rewrite framed_readFrame_here by exact HP. fields.
  rewrite BytesIO_read_all_fresh by lia. reflexivity.
Qed.

Lemma framed_reads_in_turn (Ps : list bytes) :
  Forall (fun P => len P <= 2147483647) Ps ->
  forall pre old : bytes,
    reads_in_turn TFramedTransport.read Ps
      (framed_at (pre ++ concat (map frame Ps)) (length pre)
         (BytesIO.mk old (length old) false)).
Proof.
  induction 1 as [|P Ps HP _ IH]; intros pre old; [exact I|].
  cbn [reads_in_turn map concat]. eexists. split.
  - apply framed_read_frame_here. exact HP.
  - specialize (IH (pre ++ frame P) P).
    rewrite <- app_assoc in IH. exact IH.
Qed.

Lemma framed_send_each_mem (Ps : list bytes) :
  Forall (fun P => len P <= 2147483647) Ps ->
  forall (v : bytes) (rb : BytesIO.t),
    send_each TFramedTransport.write TFramedTransport.flush Ps
      (TFramedTransport.mk (mem_at v (length v)) rb (BytesIO.new []))
    = (inr tt,
       TFramedTransport.mk
         (mem_at (v ++ concat (map frame Ps))
            (length (v ++ concat (map frame Ps))))
         rb (BytesIO.new [])).
Proof.
  induction 1 as [|P Ps HP _ IH]; intros v rb.
  - simpl. rewrite app_nil_r. reflexivity.
  - pose proof (len_nonneg P) as H0.
    cbn [send_each map concat]. unfold bind at 1.
    rewrite framed_write_eq. fields.
    pose proof (BytesIO_write_at_end [] P) as Ew. cbn [length app] in Ew.
    unfold BytesIO.new at 1. rewrite Ew.
    unfold bind at 1. rewrite framed_flush_eq by reflexivity. fields.
    rewrite pack_i_small by lia. rewrite mem_write.
    simpl TTransportBase.flush. unfold TMemoryBuffer.flush, ret.
    change (be_bytes4 (len P) ++ P) with (frame P).
    rewrite IH, <- app_assoc. reflexivity.
Qed.

(** X10.  Messages come back one by one.  When each of the payloads
    [P1], ..., [Pn] (of at most 2^31 - 1 bytes each) is written and
    flushed through a [TFramedTransport] over an empty memory buffer,
    that buffer ends up holding their frames one after the other; and a
    [TFramedTransport] over those bytes returns [P1] to [read(len(P1))],
    then [P2] to [read(len(P2))], and so on. *)
Theorem framed_messages_in_turn (Ps : list bytes) :
  Forall (fun P => len P <= 2147483647) Ps ->
  (send_each TFramedTransport.write TFramedTransport.flush Ps ;;;
   TFramedTransport.on_trans TMemoryBuffer.getvalue)
    (TFramedTransport.init (mem_at [] 0))
  = (inr (concat (map frame Ps)),
     TFramedTransport.mk
       (mem_at (concat (map frame Ps)) (length (concat (map frame Ps))))
       (BytesIO.new []) (BytesIO.new []))
  /\ reads_in_turn TFramedTransport.read Ps
       (framed_peer (concat (map frame Ps))).
Proof.
  intros HPs. split.
  - unfold bind, TFramedTransport.init.
    pose proof (framed_send_each_mem HPs [] (BytesIO.new [])) as E.
    cbn [length app] in E. rewrite E. reflexivity.
  - apply (framed_reads_in_turn HPs [] []).
Qed.

Lemma framed_messages_in_turn_witness :
  reads_in_turn TFramedTransport.read [hello; []; [x68; x65]]
    (framed_peer (concat (map frame [hello; []; [x68; x65]]))).
Proof.
  apply (@framed_messages_in_turn [hello; []; [x68; x65]]).
  repeat constructor; vm_compute; discriminate.
Defined.

(** X11.  An empty frame reads as the end of the stream.  With its read
    buffer used up and an empty frame ([00 00 00 00]) next on the wire,
    [read] of a size that fits a machine index ([-2^63 <= sz < 2^63])
    consumes that frame and returns the empty byte string, whatever
    follows it; so [readAll(n)], [0 < n < 2^63], on the framed transport
    raises [EOFError] there although frames remain unread.  A [read] of
    a size outside that range raises [OverflowError] and consumes
    nothing. *)
Theorem framed_empty_frame_reads_as_eof (pre post old : bytes) (sz n : Z) :
  0 < n <= 9223372036854775807 ->
  let wire := pre ++ frame [] ++ post in
  let s := framed_at wire (length pre) (BytesIO.mk old (length old) false) in
  let s' := framed_at wire (length (pre ++ frame [])) (BytesIO.new []) in
  (-9223372036854775808 <= sz <= 9223372036854775807 ->
   TFramedTransport.read sz s = (inr [], s'))
  /\ (sz < -9223372036854775808 \/ 9223372036854775807 < sz ->
      TFramedTransport.read sz s = (inl OverflowError, s))
  /\ TTransportBase.readAll n s = (inl EOFError, s').
Proof.
  intros Hn wire s s'.
  assert (Hread : forall k : Z,
             -9223372036854775808 <= k <= 9223372036854775807 ->
             TFramedTransport.read k s = (inr [], s')).
  { intros k Hk. subst s s' wire. unfold framed_at.
    rewrite framed_read_refill; [|reflexivity|].
    2:{ fields. now rewrite BytesIO_read_exhausted by lia. }
    rewrite framed_readFrame_here by (rewrite len_nil; lia). fields.
    unfold BytesIO.new. rewrite BytesIO_read_open by fits. simpl skipn.
    rewrite firstn_nil. destruct (k <? 0); reflexivity. }
  split; [apply Hread|]. split.
  - intros Hsz. subst s. unfold framed_at, TFramedTransport.read, bind,
      TFramedTransport.on_rbuf, zoom. fields.
    rewrite BytesIO_read_overflow by (now apply fits_ssize_t_outside).
    reflexivity.
  - unfold TTransportBase.readAll. rewrite readAll_loop_unfold by lia.
    replace (0 <? n) with true by (symmetry; apply Z.ltb_lt; lia).
    change (@TTransportBase.read _ TFramedTransport.methods)
      with (@TFramedTransport.read TMemoryBuffer.t _).
    rewrite Z.sub_0_r, Hread by lia. reflexivity.
Qed.

Lemma framed_empty_frame_reads_as_eof_witness :
  let wire := [] ++ frame [] ++ frame hello in
  TTransportBase.readAll 5 (framed_at wire 0 (BytesIO.mk [] 0 false))
  = (inl EOFError, framed_at wire 4 (BytesIO.new [])).
Proof.
  apply (proj2 (proj2 (@framed_empty_frame_reads_as_eof [] (frame hello) []
                         5 5 ltac:(lia)))).
Defined.

(** X12.  A frame cut short.  On a memory buffer, [readFrame] raises
    [EOFError] when fewer than 4 bytes are left for the header, and when
    the header announces more payload bytes than are left; either way
    the bytes that were left are consumed and the transport's read
    buffer stays as it was. *)
Theorem framed_truncated_frame (v : bytes) (p : nat) (rb wb : BytesIO.t) :
  (len (skipn p v) < 4 ->
   TFramedTransport.readFrame (TFramedTransport.mk (mem_at v p) rb wb)
   = (inl EOFError,
      TFramedTransport.mk (mem_at v (p + length (skipn p v))) rb wb))
  /\ (forall sz : Z,
         4 <= len (skipn p v) ->
         unpack_i (firstn 4 (skipn p v)) = inr sz ->
         len (skipn (p + 4) v) < sz ->
         TFramedTransport.readFrame (TFramedTransport.mk (mem_at v p) rb wb)
         = (inl EOFError,
            TFramedTransport.mk
              (mem_at v (p + 4 + length (skipn (p + 4) v))) rb wb)
         /\ skipn (p + 4 + length (skipn (p + 4) v)) v = []).
Proof.
  split.
  - intros Hshort. rewrite framed_readFrame_mem.
    replace (4 <=? len (skipn p v)) with false
      by (symmetry; apply Z.leb_gt; lia).
    reflexivity.
  - intros sz Hhead Hun Hshort. rewrite framed_readFrame_mem, Hun.
    pose proof (len_nonneg (skipn (p + 4) v)) as H0.
    replace (4 <=? len (skipn p v)) with true
      by (symmetry; apply Z.leb_le; lia).
    replace (sz <=? 0) with false by (symmetry; apply Z.leb_gt; lia).
    replace (sz <=? len (skipn (p + 4) v)) with false
      by (symmetry; apply Z.leb_gt; lia).
    split; [reflexivity|].
    rewrite (Nat.add_comm (p + 4)), <- skipn_skipn. apply skipn_all.
Qed.

Lemma framed_truncated_frame_witness :
  TFramedTransport.readFrame (framed_peer [x00; x00; x00])
  = (inl EOFError,
     TFramedTransport.mk (mem_at [x00; x00; x00] 3) (BytesIO.new [])
       (BytesIO.new []))
  /\ TFramedTransport.readFrame (framed_peer ([x00; x00; x00; x09] ++ hello))
     = (inl EOFError,
        TFramedTransport.mk (mem_at ([x00; x00; x00; x09] ++ hello) 9)
          (BytesIO.new []) (BytesIO.new [])).
Proof.
  split.
  - apply (proj1 (framed_truncated_frame [x00; x00; x00] 0 (BytesIO.new [])
                    (BytesIO.new []))).
    vm_compute. reflexivity.
  - apply (proj2 (framed_truncated_frame ([x00; x00; x00; x09] ++ hello) 0
                    (BytesIO.new []) (BytesIO.new [])) 9).
    + vm_compute. discriminate.
    + reflexivity.
    + vm_compute. reflexivity.
Defined.

(** X13.  A read inside a frame stays inside it.  On a
    [TFramedTransport] or a [TSaslClientTransport] whose read buffer
    still has unread bytes, [read(sz)] with [sz] other than 0 that fits
    a machine index ([-2^63 <= sz < 2^63]) returns bytes of the buffer
    (its next [sz] bytes, or all that are left when fewer are, or [sz]
    is negative), at least one, and leaves the wrapped transport, the
    engine and the write buffer untouched: no frame is read and nothing
    beyond the current frame is returned. *)
Theorem framing_reads_served_from_buffer {U E : Type}
  `{TTransportBase.Methods U} `{SASLClient.Methods E} (sz : Z) :
  sz <> 0 ->
  -9223372036854775808 <= sz <= 9223372036854775807 ->
  (forall s : TFramedTransport.t U,
      BytesIO.closed (TFramedTransport.rbuf s) = false ->
      BytesIO.remaining (TFramedTransport.rbuf s) <> [] ->
      let rest := BytesIO.remaining (TFramedTransport.rbuf s) in
      let out := if sz <? 0 then rest else firstn (Z.to_nat sz) rest in
      out <> []
      /\ TFramedTransport.read sz s
         = (inr out,
            TFramedTransport.mk (TFramedTransport.trans s)
              (BytesIO.mk (BytesIO.value (TFramedTransport.rbuf s))
                 (BytesIO.pos (TFramedTransport.rbuf s) + length out) false)
              (TFramedTransport.wbuf s)))
  /\ (forall s : TSaslClientTransport.t U E,
         BytesIO.closed (TSaslClientTransport.rbuf s) = false ->
         BytesIO.remaining (TSaslClientTransport.rbuf s) <> [] ->
         let rest := BytesIO.remaining (TSaslClientTransport.rbuf s) in
         let out := if sz <? 0 then rest else firstn (Z.to_nat sz) rest in
         out <> []
         /\ TSaslClientTransport.read sz s
            = (inr out,
               TSaslClientTransport.mk (TSaslClientTransport.transport s)
                 (TSaslClientTransport.sasl s) (TSaslClientTransport.wbuf s)
                 (BytesIO.mk (BytesIO.value (TSaslClientTransport.rbuf s))
                    (BytesIO.pos (TSaslClientTransport.rbuf s) + length out)
                    false))).
Proof.
  intros Hsz Hfit.
  assert (Hout : forall rest : bytes,
             rest <> [] ->
             (if sz <? 0 then rest else firstn (Z.to_nat sz) rest) <> []).
  { intros rest Hrest. destruct (sz <? 0) eqn:Eneg; [exact Hrest|].
    apply Z.ltb_ge in Eneg. destruct rest as [|x r]; [contradiction|].
    destruct (Z.to_nat sz) as [|k] eqn:Ek; [lia|]. simpl. discriminate. }
  split.
  - intros [u [v p c] wb] Hc Hrest rest out. fields. subst c rest out.
    unfold BytesIO.remaining in *. fields.
    specialize (Hout _ Hrest). split; [exact Hout|].
    unfold TFramedTransport.read, bind, TFramedTransport.on_rbuf, zoom.
    fields. rewrite BytesIO_read_open by fits.
    destruct (Z.eqb_spec (len (if sz <? 0 then skipn p v
                               else firstn (Z.to_nat sz) (skipn p v))) 0)
      as [E0|N0]; [|reflexivity].
    apply len_nil_iff in E0. contradiction.
  - intros [u g wb [v p c]] Hc Hrest rest out. fields. subst c rest out.
    unfold BytesIO.remaining in *. fields.
    specialize (Hout _ Hrest). split; [exact Hout|].
    unfold TSaslClientTransport.read, bind, TSaslClientTransport.on_rbuf,
      zoom.
    fields. rewrite BytesIO_read_open by fits.
    destruct (Z.eqb_spec (len (if sz <? 0 then skipn p v
                               else firstn (Z.to_nat sz) (skipn p v))) 0)
      as [E0|N0]; [|reflexivity].
    apply len_nil_iff in E0. contradiction.
Qed.

(** Two bytes of a five-byte frame, then the other three. *)
Lemma framing_reads_served_from_buffer_witness :
  let s := after (TFramedTransport.read 2) (framed_peer (frame hello)) in
  TFramedTransport.read 3 s
  = (inr [x6c; x6c; x6f],
     TFramedTransport.mk (mem_at (frame hello) 9)
       (BytesIO.mk hello 5 false) (BytesIO.new [])).
Proof.
  pose proof (proj2 (proj1 (@framing_reads_served_from_buffer
                              TMemoryBuffer.t ToyEngine.t _ _ 3
                              ltac:(discriminate) ltac:(lia))
                       (after (TFramedTransport.read 2)
                          (framed_peer (frame hello)))
                       eq_refl ltac:(discriminate))) as W.
  vm_compute in W. vm_compute. exact W.
Defined.

(** ** Handshake messages *)

Lemma be_uint_le_4 (n : Z) : 0 <= n <= 4294967295 -> be_uint (be_bytes4 n) = n.
Proof. intros Hn. apply be_uint_be_bytes4. lia. Qed.

Section SaslMessages.
Context {E : Type} `{SASLClient.Methods E}.

Lemma send_sasl_msg_mem (status : Z) (body v : bytes) (g : E)
  (wb rb : BytesIO.t) :
  0 <= status <= 255 -> len body <= 4294967295 ->
  TSaslClientTransport.send_sasl_msg status body
    (TSaslClientTransport.mk (mem_at v (length v)) g wb rb)
  = (inr tt,
     TSaslClientTransport.mk
       (mem_at (v ++ sasl_msg status body)
          (length (v ++ sasl_msg status body))) g wb rb).
Proof.
  intros Hs Hb. pose proof (len_nonneg body) as H0.
  unfold TSaslClientTransport.send_sasl_msg, bind, pure_, pack_BI.
  replace (0 <=? status) with true by (symmetry; apply Z.leb_le; lia).
  replace (status <=? 255) with true by (symmetry; apply Z.leb_le; lia).
  replace (0 <=? len body) with true by (symmetry; apply Z.leb_le; lia).
  replace (len body <=? 4294967295) with true
    by (symmetry; apply Z.leb_le; lia).
  cbn [andb]. unfold TSaslClientTransport.on_transport, zoom. fields.
  rewrite mem_write. reflexivity.
Qed.

Lemma recv_sasl_msg_mem (status : Z) (body pre post : bytes) (g : E)
  (wb rb : BytesIO.t) :
  0 <= status <= 255 -> len body <= 4294967295 ->
  TSaslClientTransport.recv_sasl_msg
    (TSaslClientTransport.mk
       (mem_at (pre ++ sasl_msg status body ++ post) (length pre)) g wb rb)
  = (inr (status, received_payload body),
     TSaslClientTransport.mk
       (mem_at (pre ++ sasl_msg status body ++ post)
          (length (pre ++ sasl_msg status body))) g wb rb).
Proof.
  intros Hs Hb. pose proof (len_nonneg body) as H0.
  unfold TSaslClientTransport.recv_sasl_msg, bind at 1,
    TSaslClientTransport.on_transport at 1, zoom at 1. fields.
  set (header := byte_of_Z status :: be_bytes4 (len body)).
  assert (Hwire : sasl_msg status body ++ post = header ++ body ++ post).
  { unfold sasl_msg, header. cbn [app]. now rewrite <- app_assoc. }
  rewrite Hwire.
  pose proof (mem_readAll_here pre header (body ++ post)
                ltac:(change (len header) with 5; lia)) as E1.
  change (len header) with 5 in E1. rewrite E1.
  unfold bind at 1, pure_ at 1, unpack_BI, header.
  rewrite len_be_bytes4. cbn [Z.eqb Pos.eqb].
  rewrite Z_of_byte_of_Z, Z.mod_small by lia.
  rewrite be_uint_le_4 by lia. cbv iota beta.
  assert (Hlen : length (pre ++ sasl_msg status body)
                 = (length pre + length header + length body)%nat).
  { rewrite length_app. unfold sasl_msg, header. cbn [length].
    rewrite length_app.
    change (length (be_bytes4 (len body))) with 4%nat. lia. }
  rewrite Hlen.
  destruct body as [|b body].
  - simpl. unfold bind, ret. rewrite Nat.add_0_r. reflexivity.
  - replace (0 <? len (b :: body)) with true
      by (symmetry; apply Z.ltb_lt; unfold len; simpl; lia).
    unfold bind, TSaslClientTransport.on_transport, zoom, ret. fields.
    pose proof (mem_readAll_here (pre ++ header) (b :: body) post
                  ltac:(lia)) as E2.
    rewrite <- !app_assoc, length_app in E2. subst header.
    rewrite E2. reflexivity.
Qed.

End SaslMessages.

(** X14.  A handshake message survives the trip, but an empty payload
    changes type.  For a status byte and a body of at most 2^32 - 1
    bytes, [send_sasl_msg] appends the status, the 4-byte big-endian
    length of the body and the body to the memory buffer it writes on;
    [recv_sasl_msg], reading those bytes, returns the same status and
    the body as bytes, except that an empty body comes back as the empty
    text. *)
Theorem sasl_message_round_trip {E : Type} `{SASLClient.Methods E}
  (status : Z) (body pre post : bytes) (g : E) (wb rb : BytesIO.t) :
  0 <= status <= 255 ->
  len body <= 4294967295 ->
  let wire := pre ++ sasl_msg status body in
  TSaslClientTransport.send_sasl_msg status body
    (TSaslClientTransport.mk (mem_at pre (length pre)) g wb rb)
  = (inr tt, TSaslClientTransport.mk (mem_at wire (length wire)) g wb rb)
  /\ TSaslClientTransport.recv_sasl_msg
       (TSaslClientTransport.mk (mem_at (wire ++ post) (length pre)) g wb rb)
     = (inr (status, received_payload body),
        TSaslClientTransport.mk (mem_at (wire ++ post) (length wire)) g wb rb)
  /\ (body <> [] -> received_payload body = PyBytes body)
  /\ (body = [] -> received_payload body = PyStr EmptyString).
Proof.
  intros Hs Hb wire. subst wire. repeat split.
  - now apply send_sasl_msg_mem.
  - rewrite <- app_assoc. now apply recv_sasl_msg_mem.
  - intros Hne. destruct body; [contradiction | reflexivity].
  - intros ->. reflexivity.
Qed.

Lemma sasl_message_round_trip_witness :
  TSaslClientTransport.recv_sasl_msg
    (TSaslClientTransport.init
       (mem_at ([x02; x00; x00; x00; x05] ++ hello) 0) O)
  = (inr (2, PyBytes hello),
     TSaslClientTransport.init
       (mem_at ([x02; x00; x00; x00; x05] ++ hello) 10) O).
Proof.
  pose proof (proj1 (proj2 (@sasl_message_round_trip ToyEngine.t _ 2 hello
                              [] [] O (BytesIO.new []) (BytesIO.new [])
                              ltac:(lia) ltac:(vm_compute; discriminate))))
    as W.
  vm_compute in W. vm_compute. exact W.
Defined.

(** ** The handshake that succeeds *)

Section HandshakeSuccess.
Context {U E : Type} `{TTransportBase.Methods U} `{SASLClient.Methods E}.
Import TSaslClientTransport.

Lemma open_loop_short_of_fuel (s s' : t U E) (k : nat) :
  ok_rounds s k s' ->
  forall fuel : nat, (fuel <= k)%nat -> open_loop fuel s = None.
Proof.
  induction 1 as [s | s s1 s2 k Hbody _ IH]; intros fuel Hfuel.
  - replace fuel with O by lia. reflexivity.
  - destruct fuel as [|fuel]; [reflexivity|].
    unfold open_loop in *. simpl. rewrite Hbody. apply IH. lia.
Qed.

Lemma open_body_complete (s s1 : t U E) (challenge : pyobj) :
  recv_sasl_msg s = (inr (COMPLETE, challenge), s1) ->
  SASLClient.complete (sasl s1) = true ->
  open_body tt s = (inr (inr tt), s1).
Proof.
  intros Hrecv Hdone. unfold open_body, bind. rewrite Hrecv. simpl.
  unfold gets. rewrite Hdone. reflexivity.
Qed.

Lemma open_body_ok (s s1 s2 : t U E) (challenge : pyobj) (response : bytes)
  (g : E) :
  recv_sasl_msg s = (inr (OK, challenge), s1) ->
  SASLClient.process (Some challenge) (sasl s1) = (inr response, g) ->
  send_sasl_msg OK response (mk (transport s1) g (wbuf s1) (rbuf s1))
  = (inr tt, s2) ->
  open_body tt s = (inr (inl tt), s2).
Proof.
  intros Hrecv Hprocess Hsend. unfold open_body, bind at 1. rewrite Hrecv.
  simpl. unfold bind at 1, on_sasl, zoom. rewrite Hprocess.
  unfold bind. rewrite Hsend. reflexivity.
Qed.

End HandshakeSuccess.

(** X15.  The handshake that succeeds.  A round of the loop of [open]
    that receives [OK] hands the payload to the engine, sends the
    engine's response back with status [OK] and goes round again.  When,
    after [k] such rounds, [COMPLETE] is received and the engine reports
    completion, [open] returns normally, leaving the transport as the
    receipt of that message left it: this takes [k + 1] rounds, no
    fewer. *)
Theorem handshake_completes {U E : Type} `{TTransportBase.Methods U}
  `{SASLClient.Methods E}
  (s0 s s' s1 : TSaslClientTransport.t U E) (k : nat) (challenge : pyobj) :
  TSaslClientTransport.open_start s0 = (inr tt, s) ->
  ok_rounds s k s' ->
  TSaslClientTransport.recv_sasl_msg s'
  = (inr (TSaslClientTransport.COMPLETE, challenge), s1) ->
  SASLClient.complete (TSaslClientTransport.sasl s1) = true ->
  (forall fuel : nat,
      (k < fuel)%nat -> TSaslClientTransport.open fuel s0 = Some (inr tt, s1))
  /\ (forall fuel : nat,
         (fuel <= k)%nat -> TSaslClientTransport.open fuel s0 = None)
  /\ (forall (a a1 a2 : TSaslClientTransport.t U E) (payload : pyobj)
             (response : bytes) (g : E),
         TSaslClientTransport.recv_sasl_msg a
         = (inr (TSaslClientTransport.OK, payload), a1) ->
         SASLClient.process (Some payload) (TSaslClientTransport.sasl a1)
         = (inr response, g) ->
         TSaslClientTransport.send_sasl_msg TSaslClientTransport.OK response
           (TSaslClientTransport.mk (TSaslClientTransport.transport a1) g
              (TSaslClientTransport.wbuf a1) (TSaslClientTransport.rbuf a1))
         = (inr tt, a2) ->
         ok_rounds a 1 a2).
Proof.
  intros Hstart Hrounds Hrecv Hdone. repeat split.
  - intros fuel Hfuel.
    rewrite (open_after_rounds s0 Hstart Hrounds Hfuel).
    now rewrite (open_body_complete s' Hrecv Hdone).
  - intros fuel Hfuel. unfold TSaslClientTransport.open. rewrite Hstart.
    now apply (open_loop_short_of_fuel Hrounds).
  - intros a a1 a2 payload response g Ha Hp Hs.
    eapply ok_rounds_next; [|apply ok_rounds_done].
    eapply open_body_ok; eassumption.
Qed.

Lemma handshake_completes_witness :
  TSaslClientTransport.open 2 accepted_client
  = Some (inr tt, after_open 2 accepted_client)
  /\ TSaslClientTransport.open 1 accepted_client = None
  /\ SASLClient.complete
       (TSaslClientTransport.sasl (after_open 2 accepted_client)) = true.
Proof.
  pose (s := after TSaslClientTransport.open_start accepted_client).
  pose (s' := after (TSaslClientTransport.open_body tt) s).
  pose proof (@handshake_completes _ _ _ _ accepted_client s s'
                (after TSaslClientTransport.recv_sasl_msg s') 1
                (PyStr EmptyString) eq_refl
                (ok_rounds_next s eq_refl (ok_rounds_done s'))
                eq_refl eq_refl) as [W1 [W2 _]].
  specialize (W1 2%nat ltac:(lia)). specialize (W2 1%nat ltac:(lia)).
  split; [|split; [|reflexivity]].
  - vm_compute in W1. vm_compute. exact W1.
  - exact W2.
Defined.

(** X16.  How [open] starts.  Over a channel whose sends succeed, with
    an engine whose mechanism name is ASCII and whose first [process()]
    returns [first]: [open] asks the channel whether it is open and
    opens it only if it is not, then sends [START] with the mechanism
    name and [OK] with [first], each as one write followed by a flush,
    and touches neither of its buffers.  With a mechanism name that is
    not ASCII it raises [UnicodeEncodeError] after the channel has been
    opened and before anything is sent. *)
Theorem handshake_opening {E : Type} `{SASLClient.Methods E}
  (c : Channel.t) (calls : list Traced.call) (g : E) (wb rb : BytesIO.t) :
  Channel.faults c = O ->
  let s0 := TSaslClientTransport.mk (Traced.mk c calls) g wb rb in
  let asked := calls ++ Traced.IsOpen
                 :: (if Channel.opened c then [] else [Traced.Open]) in
  (forall (mech first : bytes) (g1 : E),
      PyFormat.ascii_encode (SASLClient.mechanism g) = inr mech ->
      len mech <= 4294967295 ->
      SASLClient.process None g = (inr first, g1) ->
      len first <= 4294967295 ->
      let m1 := sasl_msg TSaslClientTransport.START mech in
      let m2 := sasl_msg TSaslClientTransport.OK first in
      TSaslClientTransport.open_start s0
      = (inr tt,
         TSaslClientTransport.mk
           (Traced.mk
              (Channel.mk (Channel.incoming c) (Channel.sent c ++ [m1; m2])
                 O true)
              (asked ++ [Traced.Write (PyBytes m1); Traced.Flush;
                         Traced.Write (PyBytes m2); Traced.Flush]))
           g1 wb rb))
  /\ (PyFormat.ascii_encode (SASLClient.mechanism g) = inl UnicodeEncodeError ->
      forall fuel : nat,
        TSaslClientTransport.open fuel s0
        = Some (inl UnicodeEncodeError,
                TSaslClientTransport.mk
                  (Traced.mk
                     (Channel.mk (Channel.incoming c) (Channel.sent c) O true)
                     asked)
                  g wb rb)).
Proof.
  intros Hf s0 asked. subst s0 asked. destruct c as [inc sent faults opened].
  simpl in Hf. subst faults. split.
  - intros mech first g1 Hmech Hlm Hfirst Hlf m1 m2. subst m1 m2.
    pose proof (len_nonneg mech). pose proof (len_nonneg first).
    assert (Hp1 : pack_BI TSaslClientTransport.START (len mech)
                  = inr (byte_of_Z TSaslClientTransport.START
                           :: be_bytes4 (len mech))).
    { unfold pack_BI.
      replace (len mech <=? 4294967295) with true
        by (symmetry; apply Z.leb_le; lia).
      replace (0 <=? len mech) with true by (symmetry; apply Z.leb_le; lia).
      reflexivity. }
    assert (Hp2 : pack_BI TSaslClientTransport.OK (len first)
                  = inr (byte_of_Z TSaslClientTransport.OK
                           :: be_bytes4 (len first))).
    { unfold pack_BI.
      replace (len first <=? 4294967295) with true
        by (symmetry; apply Z.leb_le; lia).
      replace (0 <=? len first) with true by (symmetry; apply Z.leb_le; lia).
      reflexivity. }
    unfold TSaslClientTransport.open_start, TSaslClientTransport.send_sasl_msg,
      bind, gets, pure_, TSaslClientTransport.on_transport,
      TSaslClientTransport.on_sasl, zoom, sasl_msg.
    destruct opened;
      cbn -[pack_BI be_bytes4 len PyFormat.ascii_encode byte_of_Z];
      rewrite Hmech, Hp1;
      cbn -[pack_BI be_bytes4 len PyFormat.ascii_encode byte_of_Z];
      rewrite Hfirst, Hp2;
      cbn -[pack_BI be_bytes4 len PyFormat.ascii_encode byte_of_Z];
      rewrite <- ?app_assoc; reflexivity.
  - intros Hmech fuel.
    unfold TSaslClientTransport.open, TSaslClientTransport.open_start,
      bind, gets, pure_, TSaslClientTransport.on_transport, zoom.
    destruct opened;
      cbn -[PyFormat.ascii_encode]; rewrite Hmech, <- ?app_assoc;
      reflexivity.
Qed.

Lemma handshake_opening_witness :
  TSaslClientTransport.open_start
    (TSaslClientTransport.init (Traced.watch (Channel.mk [] [] 0 false)) O)
  = (inr tt,
     TSaslClientTransport.init
       (Traced.mk
          (Channel.mk []
             [[x01; x00; x00; x00; x05; x50; x4c; x41; x49; x4e];
              [x02; x00; x00; x00; x02; x6f; x6b]] 0 true)
          [Traced.IsOpen; Traced.Open;
           Traced.Write
             (PyBytes [x01; x00; x00; x00; x05; x50; x4c; x41; x49; x4e]);
           Traced.Flush;
           Traced.Write (PyBytes [x02; x00; x00; x00; x02; x6f; x6b]);
           Traced.Flush])
       1%nat).
Proof.
  pose proof (proj1 (@handshake_opening ToyEngine.t _
                       (Channel.mk [] [] 0 false) [] O (BytesIO.new [])
                       (BytesIO.new []) eq_refl)
                [x50; x4c; x41; x49; x4e] [x6f; x6b] 1%nat eq_refl
                ltac:(vm_compute; discriminate) eq_refl
                ltac:(vm_compute; discriminate)) as W.
  vm_compute in W. vm_compute. exact W.
Defined.

(** ** Data frames of the secured transport *)



(** ** [TFileObjectTransport] *)

Lemma file_readAll_loop (fuel : nat) :
  forall (sz : Z) (buff : bytes) (have : Z) (b : BytesIO.t),
    TTransportBase.readAll_loop fuel sz buff have (TFileObjectTransport.mk b)
    = as_file (TTransportBase.readAll_loop fuel sz buff have
                 (TMemoryBuffer.mk b)).
Proof.
  induction fuel as [|fuel IH]; intros sz buff have b; [reflexivity|].
  simpl. destruct (have <? sz); [|reflexivity].
  unfold TFileObjectTransport.read, TFileObjectTransport.on_fileobj,
    TMemoryBuffer.read, TMemoryBuffer.on_buffer, zoom. simpl.
  destruct (BytesIO.read (sz - have) b) as [[e|chunk] b1]; [reflexivity|].
  destruct (len chunk =? 0); [reflexivity|]. apply IH.
Qed.

(** X18.  A [TFileObjectTransport] over a [BytesIO] stream reads,
    writes, reads exact lengths and closes exactly as a [TMemoryBuffer]
    over the same stream does: each call has the same outcome (the
    [OverflowError] of a size that does not fit a machine index
    included) and leaves the stream in the same state.  The two differ
    in [isOpen()]: the file transport answers true always, also after
    [close()], when its reads raise [ValueError] for a size that fits a
    machine index ([-2^63 <= sz < 2^63]) and [OverflowError] for one
    that does not; and its [open()] does nothing. *)
Theorem file_transport_over_stream (b : BytesIO.t) (sz n : Z) (buf : pyobj) :
  let f := TFileObjectTransport.mk b in
  let m := TMemoryBuffer.mk b in
  TFileObjectTransport.read sz f = as_file (TMemoryBuffer.read sz m)
  /\ TFileObjectTransport.write buf f = as_file (TMemoryBuffer.write buf m)
  /\ TTransportBase.readAll n f = as_file (TTransportBase.readAll n m)
  /\ TFileObjectTransport.close f = as_file (TMemoryBuffer.close m)
  /\ TFileObjectTransport.open f = (inr tt, f)
  /\ result TFileObjectTransport.isOpen (after TFileObjectTransport.close f)
     = inr true
  /\ result TMemoryBuffer.isOpen (after TMemoryBuffer.close m) = inr false
  /\ (-9223372036854775808 <= sz <= 9223372036854775807 ->
      result (TFileObjectTransport.read sz)
        (after TFileObjectTransport.close f) = inl ValueError)
  /\ (sz < -9223372036854775808 \/ 9223372036854775807 < sz ->
      result (TFileObjectTransport.read sz)
        (after TFileObjectTransport.close f) = inl OverflowError).
Proof.
  intros f m. subst f m. repeat split.
  - unfold TFileObjectTransport.read, TFileObjectTransport.on_fileobj,
      TMemoryBuffer.read, TMemoryBuffer.on_buffer, zoom, as_file. simpl.
    destruct (BytesIO.read sz b) as [r b1]. reflexivity.
  - unfold TFileObjectTransport.write, TFileObjectTransport.on_fileobj,
      TMemoryBuffer.write, TMemoryBuffer.on_buffer, bind, zoom, as_file.
    simpl. destruct (BytesIO.write buf b) as [[e|k] b1]; reflexivity.
  - apply file_readAll_loop.
  - intros Hsz. unfold result, after, TFileObjectTransport.read,
      TFileObjectTransport.close, TFileObjectTransport.on_fileobj, zoom.
    simpl. unfold BytesIO.read. fields.
    now rewrite fits_ssize_t_range by exact Hsz.
  - intros Hsz. unfold result, after, TFileObjectTransport.read,
      TFileObjectTransport.close, TFileObjectTransport.on_fileobj, zoom.
    simpl. unfold BytesIO.read. fields.
    now rewrite fits_ssize_t_outside by exact Hsz.
Qed.

(** ** Reading through a buffer *)

(** X19.  Read-ahead.  On a [TBufferedTransport] with window [W] over an
    open memory buffer, its read buffer used up, with [W] and [n] sizes
    that fit a machine index ([W < 2^63], [n < 2^63]: the memory buffer
    refuses a [read] of a larger size with [OverflowError]),
    [readAll(n)] for [0 < n] no larger than what the memory buffer still
    holds returns the next [n] bytes and costs one call on the wrapped
    transport, [read(max(n, W))]; what that call brought beyond the [n]
    bytes stays in the read buffer, and a following [readAll(k)] that
    fits in it is served without any call on the wrapped transport. *)
Theorem buffered_read_ahead (v old : bytes) (p : nat)
  (calls : list Traced.call) (wb : BytesIO.t) (W n k : Z) :
  0 < n -> n <= len (skipn p v) ->
  n <= 9223372036854775807 -> W <= 9223372036854775807 ->
  let rest := skipn p v in
  let chunk := firstn (Z.to_nat (Z.max n W)) rest in
  let s := TBufferedTransport.mk (Traced.mk (mem_at v p) calls) wb
             (BytesIO.mk old (length old) false) W in
  let under := Traced.mk (mem_at v (p + length chunk))
                 (calls ++ [Traced.Read (Z.max n W)]) in
  let s1 := TBufferedTransport.mk under wb
              (BytesIO.mk chunk (Z.to_nat n) false) W in
  TTransportBase.readAll n s = (inr (firstn (Z.to_nat n) rest), s1)
  /\ (0 < k -> n + k <= len chunk ->
      TTransportBase.readAll k s1
      = (inr (firstn (Z.to_nat k) (skipn (Z.to_nat n) chunk)),
         TBufferedTransport.mk under wb
           (BytesIO.mk chunk (Z.to_nat n + Z.to_nat k) false) W)).
Proof.
  intros Hn Hfit HnM HWM rest chunk s under s1.
  assert (Hrest : (Z.to_nat n <= length rest)%nat)
    by (unfold len in Hfit; subst rest; lia).
  assert (Hchunk : firstn (Z.to_nat n) chunk = firstn (Z.to_nat n) rest).
  { subst chunk. rewrite firstn_firstn. f_equal. lia. }
  assert (Hlen : length (firstn (Z.to_nat n) rest) = Z.to_nat n)
    by (apply firstn_length_le; exact Hrest).
  split.
  - unfold TTransportBase.readAll. rewrite readAll_loop_unfold by lia.
    replace (0 <? n) with true by (symmetry; apply Z.ltb_lt; lia).
    rewrite Z.sub_0_r.
    change (@TTransportBase.read _ TBufferedTransport.methods)
      with (@TBufferedTransport.read (Traced.t TMemoryBuffer.t) _).
    subst s. rewrite buffered_read_fetch; [|reflexivity|].
    2:{ fields. now rewrite BytesIO_read_exhausted by lia. }
    fields. simpl TTransportBase.read. unfold Traced.recorded. fields.
    pose proof (@mem_read (Z.max n W) v p ltac:(lia)) as Em.
    simpl TTransportBase.read in Em. rewrite Em.
    fold rest. fold chunk. unfold BytesIO.new.
    rewrite BytesIO_read_open by fits.
    replace (n <? 0) with false by (symmetry; apply Z.ltb_ge; lia).
    simpl skipn. rewrite Hchunk, Hlen.
    replace (len (firstn (Z.to_nat n) rest) =? 0) with false
      by (symmetry; apply Z.eqb_neq; unfold len; rewrite Hlen; lia).
    rewrite readAll_loop_unfold
      by (unfold len; rewrite Hlen; lia).
    replace (0 + len (firstn (Z.to_nat n) rest) <? n) with false
      by (symmetry; apply Z.ltb_ge; unfold len; rewrite Hlen; lia).
    reflexivity.
  - intros Hk Hfit2.
    assert (HkM : k <= 9223372036854775807).
    { assert (len chunk <= Z.max n W); [|lia].
      subst chunk. unfold len.
      pose proof (firstn_le_length (Z.to_nat (Z.max n W)) rest). lia. }
    assert (Hroom : (Z.to_nat k <= length (skipn (Z.to_nat n) chunk))%nat)
      by (rewrite length_skipn; unfold len in Hfit2; lia).
    assert (Hlen2 : length (firstn (Z.to_nat k) (skipn (Z.to_nat n) chunk))
                    = Z.to_nat k)
      by (apply firstn_length_le; exact Hroom).
    unfold TTransportBase.readAll. rewrite readAll_loop_unfold by lia.
    replace (0 <? k) with true by (symmetry; apply Z.ltb_lt; lia).
    rewrite Z.sub_0_r.
    change (@TTransportBase.read _ TBufferedTransport.methods)
      with (@TBufferedTransport.read (Traced.t TMemoryBuffer.t) _).
    subst s1.
    rewrite (@buffered_read_served _ _ k _
               (firstn (Z.to_nat k) (skipn (Z.to_nat n) chunk))
               (BytesIO.mk chunk (Z.to_nat n + Z.to_nat k) false)).
    + fields.
      replace (len (firstn (Z.to_nat k) (skipn (Z.to_nat n) chunk)) =? 0)
        with false
        by (symmetry; apply Z.eqb_neq; unfold len; rewrite Hlen2; lia).
      rewrite readAll_loop_unfold by (unfold len; rewrite Hlen2; lia).
      replace (0 + len (firstn (Z.to_nat k) (skipn (Z.to_nat n) chunk)) <? k)
        with false
        by (symmetry; apply Z.ltb_ge; unfold len; rewrite Hlen2; lia).
      reflexivity.
    + fields. rewrite BytesIO_read_open by fits.
      replace (k <? 0) with false by (symmetry; apply Z.ltb_ge; lia).
      now rewrite Hlen2.
    + intros Hnil. rewrite Hnil in Hlen2. simpl in Hlen2. lia.
Qed.

Lemma buffered_read_ahead_witness :
  TTransportBase.readAll 2 (buffered_over hello)
  = (inr [x68; x65],
     TBufferedTransport.mk
       (Traced.mk (mem_at hello 5) [Traced.Read 4096])
       (BytesIO.new []) (BytesIO.mk hello 2 false) 4096).
Proof.
  pose proof (proj1 (@buffered_read_ahead hello [] 0 [] (BytesIO.new [])
                       4096 2 3 ltac:(lia)
                       ltac:(vm_compute; discriminate)
                       ltac:(lia) ltac:(lia))) as W.
  vm_compute in W. vm_compute. exact W.
Defined.

(** ** Transports that hand out a byte stream piece by piece *)

Section StreamReadAll.
Context {T : Type} `{TTransportBase.Methods T}.
Variable I : T -> Prop.
Variable st : T -> bytes.
Variable B : Z.

(** Every [read] of a positive size up to [B], while bytes are pending,
    returns a non-empty piece from the front of the pending bytes, no
    longer than asked. *)
Hypothesis Hread :
  forall (k : Z) (t : T),
    0 < k <= B -> I t -> st t <> [] ->
    exists (out : bytes) (t' : T),
      TTransportBase.read k t = (inr out, t')
      /\ out <> [] /\ len out <= k /\ st t = out ++ st t' /\ I t'.

Lemma readAll_loop_stream (fuel : nat) :
  forall (sz : Z) (buff : bytes) (have : Z) (t : T),
    (Z.to_nat (sz - have) <= fuel)%nat ->
    I t -> sz - have <= len (st t) -> sz - have <= B ->
    exists t' : T,
      TTransportBase.readAll_loop fuel sz buff have t
      = (inr (buff ++ firstn (Z.to_nat (sz - have)) (st t)), t')
      /\ st t' = skipn (Z.to_nat (sz - have)) (st t) /\ I t'.
Proof.
  induction fuel as [|fuel IH]; intros sz buff have t Hfuel Hinv Hfit HB.
  - exists t. replace (Z.to_nat (sz - have)) with O by lia. simpl.
    rewrite app_nil_r. auto.
  - simpl. destruct (Z.ltb_spec have sz) as [Hlt|Hge].
    + assert (Hne : st t <> []).
      { intros Hnil. rewrite Hnil, len_nil in Hfit. lia. }
      destruct (Hread (k := sz - have) ltac:(lia) Hinv Hne)
        as (out & t1 & Hr & Hout & Hle & Hsplit & Hinv1).
      rewrite Hr.
      assert (Hpos : 0 < len out).
      { pose proof (len_nonneg out). destruct (Z.eq_dec (len out) 0) as [E0|];
          [apply len_nil_iff in E0; contradiction | lia]. }
      replace (len out =? 0) with false by (symmetry; apply Z.eqb_neq; lia).
      assert (Hfit1 : sz - (have + len out) <= len (st t1)).
      { rewrite Hsplit, len_app in Hfit. lia. }
      destruct (IH sz (buff ++ out) (have + len out) t1 ltac:(lia) Hinv1
                  Hfit1 ltac:(lia))
        as (t2 & Hloop & Hst & Hinv2).
      exists t2. rewrite Hloop. split; [|split; [|exact Hinv2]].
      * rewrite <- app_assoc, Hsplit, firstn_app.
        rewrite (@firstn_all2 _ (Z.to_nat (sz - have)) out)
          by (unfold len in Hle; lia).
        replace (Z.to_nat (sz - have) - length out)%nat
          with (Z.to_nat (sz - (have + len out))) by (unfold len; lia).
        reflexivity.
      * rewrite Hst, Hsplit, skipn_app.
        rewrite (@skipn_all2 _ (Z.to_nat (sz - have)) out)
          by (unfold len in Hle; lia).
        replace (Z.to_nat (sz - have) - length out)%nat
          with (Z.to_nat (sz - (have + len out))) by (unfold len; lia).
        reflexivity.
    + exists t. replace (Z.to_nat (sz - have)) with O by lia. simpl.
      rewrite app_nil_r. auto.
Qed.

Lemma readAll_stream (n : Z) (t : T) :
  I t -> n <= len (st t) -> n <= B ->
  exists t' : T,
    TTransportBase.readAll n t = (inr (firstn (Z.to_nat n) (st t)), t')
    /\ st t' = skipn (Z.to_nat n) (st t) /\ I t'.
Proof.
  intros Hinv Hfit HB. unfold TTransportBase.readAll.
  destruct (@readAll_loop_stream (Z.to_nat n) n [] 0 t) as (t' & Hr & Hrest);
    [lia | exact Hinv | lia | lia |].
  rewrite Z.sub_0_r in Hr, Hrest. exists t'. split; assumption.
Qed.

End StreamReadAll.

Lemma skipn_firstn_length {A : Type} (n : nat) (l : list A) :
  skipn (length (firstn n l)) l = skipn n l.
Proof.
  rewrite length_firstn.
  destruct (Nat.le_ge_cases n (length l)) as [Hle|Hge].
  - now rewrite Nat.min_l.
  - rewrite Nat.min_r by exact Hge.
    rewrite skipn_all. symmetry. now apply skipn_all2.
Qed.

Lemma buffered_read_piece (wb : BytesIO.t) (W k : Z)
  (s : TBufferedTransport.t TMemoryBuffer.t) :
  W <= 9223372036854775807 ->
  0 < k <= 9223372036854775807 ->
  buffered_readable wb W s -> buffered_pending s <> [] ->
  exists (out : bytes) (s' : TBufferedTransport.t TMemoryBuffer.t),
    TTransportBase.read k s = (inr out, s')
    /\ out <> [] /\ len out <= k
    /\ buffered_pending s = out ++ buffered_pending s'
    /\ buffered_readable wb W s'.
Proof.
  intros HWM Hk (Hrc & Hmc & Hwb & HW) Hpend.
  destruct s as [[[v p mc]] wb0 [rv rp rc] W0]. unfold buffered_pending in *.
  fields. unfold BytesIO.remaining in *. fields. subst rc mc wb0 W0.
  change (@TTransportBase.read _ TBufferedTransport.methods)
    with (@TBufferedTransport.read TMemoryBuffer.t _).
  assert (Hfirst : forall l : bytes,
             l <> [] -> firstn (Z.to_nat k) l <> []).
  { intros l Hl. destruct l; [contradiction|].
    destruct (Z.to_nat k) eqn:Ek; [lia | discriminate]. }
  assert (Hle : forall l : bytes, len (firstn (Z.to_nat k) l) <= k).
  { intros l. unfold len. pose proof (firstn_le_length (Z.to_nat k) l). lia. }
  destruct (skipn rp rv) as [|x rest] eqn:Erest.
  - (* nothing unread in the read buffer: one fetch *)
    simpl in Hpend.
    rewrite buffered_read_fetch; [|reflexivity|].
    2:{ fields. rewrite BytesIO_read_open by fits.
        rewrite Erest, firstn_nil.
        now destruct (k <? 0). }
    fields.
    pose proof (@mem_read (Z.max k W) v p ltac:(lia)) as Em.
    unfold mem_at in Em. rewrite Em.
    set (chunk := firstn (Z.to_nat (Z.max k W)) (skipn p v)).
    unfold BytesIO.new. rewrite BytesIO_read_open by fits.
    replace (k <? 0) with false by (symmetry; apply Z.ltb_ge; lia).
    simpl skipn.
    assert (Hchunk : chunk <> []).
    { subst chunk. destruct (skipn p v); [contradiction|].
      destruct (Z.to_nat (Z.max k W)) eqn:Ek; [lia | discriminate]. }
    eexists. eexists. split; [reflexivity|].
    split; [now apply Hfirst|]. split; [apply Hle|]. split.
    + fields. simpl app at 1.
      rewrite <- (firstn_skipn (Z.to_nat (Z.max k W)) (skipn p v)) at 1.
      fold chunk. rewrite <- (firstn_skipn (Z.to_nat k) chunk) at 1.
      rewrite <- app_assoc. f_equal. f_equal.
      * cbn [Nat.add]. now rewrite skipn_firstn_length.
      * unfold BytesIO.remaining. fields.
        rewrite Nat.add_comm, <- skipn_skipn. subst chunk.
        now rewrite skipn_firstn_length.
    + repeat split.
  - (* bytes unread in the read buffer: served from it *)
    rewrite (@buffered_read_served _ _ k _ (firstn (Z.to_nat k) (x :: rest))
               (BytesIO.mk rv (rp + length (firstn (Z.to_nat k) (x :: rest)))
                  false)).
    + eexists. eexists. split; [reflexivity|].
      split; [now apply Hfirst|]. split; [apply Hle|]. split.
      * fields.
        rewrite <- (firstn_skipn (Z.to_nat k) (x :: rest)) at 1.
        rewrite <- app_assoc. f_equal. f_equal.
        rewrite Nat.add_comm, <- skipn_skipn, Erest.
        now rewrite skipn_firstn_length.
      * repeat split.
    + fields. rewrite BytesIO_read_open by fits. rewrite Erest.
      replace (k <? 0) with false by (symmetry; apply Z.ltb_ge; lia).
      reflexivity.
    + now apply Hfirst.
Qed.

Lemma buffered_readAll_stream (wb : BytesIO.t) (W n : Z)
  (s : TBufferedTransport.t TMemoryBuffer.t) :
  W <= 9223372036854775807 ->
  buffered_readable wb W s -> n <= len (buffered_pending s) ->
  n <= 9223372036854775807 ->
  exists s' : TBufferedTransport.t TMemoryBuffer.t,
    TTransportBase.readAll n s
    = (inr (firstn (Z.to_nat n) (buffered_pending s)), s')
    /\ buffered_pending s' = skipn (Z.to_nat n) (buffered_pending s)
    /\ buffered_readable wb W s'.
Proof.
  intros HWM.
  apply (@readAll_stream _ _ (buffered_readable wb W) buffered_pending
           9223372036854775807).
  intros k t Hk Hinv Hne. now apply buffered_read_piece.
Qed.

(** X20.  A [TBufferedTransport] is transparent to [readAll].  Over an
    open memory buffer, whatever the window that fits a machine index
    ([W < 2^63]: with a larger one the memory buffer refuses the fetch
    with [OverflowError]) and however many bytes are already in the read
    buffer, [readAll(n)] for [n < 2^63] up to the number of bytes not
    yet handed out returns the next [n] of them, those unread in the
    read buffer first, then those of the memory buffer, and leaves the
    rest, in order, for the calls that follow. *)
Theorem buffered_is_transparent (wb : BytesIO.t) (W n : Z)
  (s : TBufferedTransport.t TMemoryBuffer.t) :
  W <= 9223372036854775807 ->
  n <= 9223372036854775807 ->
  buffered_readable wb W s ->
  n <= len (buffered_pending s) ->
  exists s' : TBufferedTransport.t TMemoryBuffer.t,
    TTransportBase.readAll n s
    = (inr (firstn (Z.to_nat n) (buffered_pending s)), s')
    /\ buffered_pending s' = skipn (Z.to_nat n) (buffered_pending s)
    /\ buffered_readable wb W s'.
Proof.
  intros HWM HnM Hinv Hfit. now apply buffered_readAll_stream.
Qed.

(** A window of two bytes: [readAll(4)] of [hello] takes two fetches. *)
Lemma buffered_is_transparent_witness :
  exists s' : TBufferedTransport.t TMemoryBuffer.t,
    TTransportBase.readAll 4 (TBufferedTransport.init (mem_at hello 0) 2)
    = (inr [x68; x65; x6c; x6c], s')
    /\ buffered_pending s' = [x6f]
    /\ buffered_readable (BytesIO.new []) 2 s'.
Proof.
  apply (@buffered_is_transparent (BytesIO.new []) 2 4
           (TBufferedTransport.init (mem_at hello 0) 2)).
  - lia.
  - lia.
  - repeat split.
  - vm_compute. discriminate.
Defined.

(** ** A chain: framing over buffering over memory *)

(** X21.  Framing composed with buffering.  A [TFramedTransport] over a
    [TBufferedTransport] (any window that fits a machine index,
    [W < 2^63]: with a larger one the memory buffer refuses the fetch
    with [OverflowError]) over an empty memory buffer: [write(P)] then
    [flush()], for [P] of at most 2^31 - 1 bytes, leaves exactly the
    frame of [P] in the memory buffer and both write buffers empty.  The
    same chain over a memory buffer holding that frame, followed by
    anything, returns [P] to [read(len(P))] and leaves what followed the
    frame pending, unread. *)
Theorem framed_over_buffered_round_trip (P post : bytes) (W : Z) :
  len P <= 2147483647 ->
  W <= 9223372036854775807 ->
  (TFramedTransport.write (PyBytes P) ;;; TFramedTransport.flush)
    (TFramedTransport.init (TBufferedTransport.init (mem_at [] 0) W))
  = (inr tt,
     TFramedTransport.init
       (TBufferedTransport.init (mem_at (frame P) (length (frame P))) W))
  /\ exists s' : TFramedTransport.t (TBufferedTransport.t TMemoryBuffer.t),
      TFramedTransport.read (len P)
        (TFramedTransport.init
           (TBufferedTransport.init (mem_at (frame P ++ post) 0) W))
      = (inr P, s')
      /\ buffered_pending (TFramedTransport.trans s') = post.
Proof.
  intros HP HWM. pose proof (len_nonneg P) as H0. split.
  - unfold bind at 1. rewrite framed_write_eq.
    unfold TFramedTransport.init. fields.
    pose proof (BytesIO_write_at_end [] P) as Ew. cbn [length app] in Ew.
    unfold BytesIO.new at 1. rewrite Ew.
    rewrite framed_flush_eq by reflexivity. fields.
    rewrite pack_i_small by lia.
    change (@TTransportBase.write _ TBufferedTransport.methods)
      with (@TBufferedTransport.write TMemoryBuffer.t).
    rewrite buffered_write_eq. unfold TBufferedTransport.init. fields.
    pose proof (BytesIO_write_at_end [] (be_bytes4 (len P) ++ P)) as Ew2.
    cbn [length app] in Ew2. unfold BytesIO.new at 1. rewrite Ew2.
    change (@TTransportBase.flush _ TBufferedTransport.methods)
      with (@TBufferedTransport.flush TMemoryBuffer.t _).
    rewrite buffered_flush_eq by reflexivity. fields.
    pose proof (mem_write [] (be_bytes4 (len P) ++ P)) as Em.
    cbn [length app] in Em. rewrite Em. reflexivity.
  - set (u0 := TBufferedTransport.init (mem_at (frame P ++ post) 0) W).
    assert (Hinv : buffered_readable (BytesIO.new []) W u0)
      by (repeat split).
    assert (Hpend : buffered_pending u0 = be_bytes4 (len P) ++ P ++ post).
    { unfold u0, buffered_pending, frame, TBufferedTransport.init, mem_at,
        BytesIO.remaining, BytesIO.new.
      fields. cbn [skipn app]. now rewrite <- app_assoc. }
    destruct (@buffered_readAll_stream (BytesIO.new []) W 4 u0 HWM Hinv)
      as (u1 & Hhead & Hpend1 & Hinv1).
    { rewrite Hpend, len_app, len_be_bytes4.
      pose proof (len_nonneg (P ++ post)). lia. }
    { lia. }
    rewrite Hpend in Hhead, Hpend1.
    change (firstn (Z.to_nat 4) (be_bytes4 (len P) ++ P ++ post))
      with (be_bytes4 (len P)) in Hhead.
    change (skipn (Z.to_nat 4) (be_bytes4 (len P) ++ P ++ post))
      with (P ++ post) in Hpend1.
    destruct (@buffered_readAll_stream (BytesIO.new []) W (len P) u1 HWM
                Hinv1)
      as (u2 & Hbody & Hpend2 & Hinv2).
    { rewrite Hpend1, len_app. pose proof (len_nonneg post). lia. }
    { lia. }
    rewrite Hpend1 in Hbody, Hpend2. unfold len in Hbody, Hpend2 at 1.
    rewrite Nat2Z.id in Hbody, Hpend2.
    rewrite firstn_app, firstn_all, Nat.sub_diag in Hbody.
    simpl firstn in Hbody. rewrite app_nil_r in Hbody.
    rewrite skipn_app, skipn_all, Nat.sub_diag in Hpend2.
    simpl in Hpend2.
    exists (TFramedTransport.mk u2 (BytesIO.mk P (length P) false)
              (BytesIO.new [])).
    split; [|exact Hpend2].
    unfold TFramedTransport.init. rewrite framed_read_refill; [|reflexivity|].
    2:{ fields.
        change (BytesIO.new []) with (BytesIO.mk [] (length (@nil byte)) false).
        now rewrite BytesIO_read_exhausted by lia. }
    rewrite framed_readFrame_eq. fields. fold u0. rewrite Hhead.
    rewrite unpack_i_be_bytes4 by lia. unfold len at 1. rewrite Hbody.
    fields. rewrite BytesIO_read_all_fresh by lia. reflexivity.
Qed.

Lemma framed_over_buffered_round_trip_witness :
  exists s' : TFramedTransport.t (TBufferedTransport.t TMemoryBuffer.t),
    TFramedTransport.read 5
      (TFramedTransport.init
         (TBufferedTransport.init (mem_at (frame hello ++ [x01]) 0) 3))
    = (inr hello, s')
    /\ buffered_pending (TFramedTransport.trans s') = [x01].
Proof.
  apply (proj2 (@framed_over_buffered_round_trip hello [x01] 3
                  ltac:(vm_compute; discriminate) ltac:(lia))).
Defined.

(** ** A write that fails *)

(** X22.  [TBufferedTransport.write] starts over after a failure.  When
    a [write] raises (a text or [None] handed in instead of bytes raises
    [TypeError]), the exception reaches the caller after the write buffer
    has been replaced by an empty one: bytes accepted by earlier writes
    are dropped with it, the wrapped transport is not called, and the
    read buffer is untouched. *)
Theorem buffered_write_failure_starts_over {U : Type}
  `{TTransportBase.Methods U} (s : TBufferedTransport.t U) (buf : pyobj)
  (e : exn) :
  result (TBufferedTransport.write buf) s = inl e ->
  after (TBufferedTransport.write buf) s
  = TBufferedTransport.mk (TBufferedTransport.trans s) (BytesIO.new [])
      (TBufferedTransport.rbuf s) (TBufferedTransport.rbuf_size s)
  /\ (BytesIO.closed (TBufferedTransport.wbuf s) = false ->
      forall text : string,
        result (TBufferedTransport.write (PyStr text)) s = inl TypeError
        /\ result (TBufferedTransport.write PyNone) s = inl TypeError).
Proof.
  unfold result, after. rewrite !buffered_write_eq.
  destruct (BytesIO.write buf (TBufferedTransport.wbuf s)) as [[e1|k] b];
    [|discriminate].
  intros _. split; [reflexivity|].
  intros Hc text. rewrite !buffered_write_eq. unfold BytesIO.write.
  rewrite Hc. split; reflexivity.
Qed.

Lemma buffered_write_failure_starts_over_witness :
  let s := after (TBufferedTransport.write (PyBytes hello))
             (buffered_over []) in
  BytesIO.value (TBufferedTransport.wbuf s) = hello
  /\ after (TBufferedTransport.write PyNone) s = buffered_over [].
Proof.
  split; [reflexivity|].
  apply (proj1 (@buffered_write_failure_starts_over (Traced.t TMemoryBuffer.t) _
                  (after (TBufferedTransport.write (PyBytes hello))
                     (buffered_over []))
                  PyNone TypeError eq_refl)).
Defined.

(** ** Refills of the framed transport *)

(** X23.  [TFramedTransport.cstringio_refill] works in whole frames.
    When the bytes passed in already reach the required length it reads
    no frame and makes them the new read buffer.  Otherwise, on a memory
    buffer whose next frame carries [P], with [P] enough to reach the
    required length, it reads that one frame and the new read buffer is
    the bytes passed in followed by all of [P], also the part beyond the
    required length.  Either way what the old read buffer held is
    dropped. *)
Theorem framed_refill_whole_frames (prefix : bytes) (reqlen : Z)
  (fuel : nat) :
  (forall (U : Type) (M : TTransportBase.Methods U)
          (s : TFramedTransport.t U),
      reqlen <= len prefix ->
      TFramedTransport.cstringio_refill (S fuel) prefix reqlen s
      = Some (inr (BytesIO.new prefix),
              TFramedTransport.mk (TFramedTransport.trans s)
                (BytesIO.new prefix) (TFramedTransport.wbuf s)))
  /\ (forall (pre P post : bytes) (rb : BytesIO.t),
         len P <= 2147483647 ->
         len prefix < reqlen ->
         reqlen <= len prefix + len P ->
         TFramedTransport.cstringio_refill (S (S fuel)) prefix reqlen
           (framed_at (pre ++ frame P ++ post) (length pre) rb)
         = Some (inr (BytesIO.new (prefix ++ P)),
                 framed_at (pre ++ frame P ++ post) (length (pre ++ frame P))
                   (BytesIO.new (prefix ++ P)))).
Proof.
  split.
  - intros U M s Hlen. unfold TFramedTransport.cstringio_refill. simpl.
    unfold TFramedTransport.cstringio_refill_body.
    replace (len prefix <? reqlen) with false
      by (symmetry; apply Z.ltb_ge; lia).
    reflexivity.
  - intros pre P post rb HP Hshort Hfit.
    unfold TFramedTransport.cstringio_refill.
    change (loop (S (S fuel)) ?b ?a ?s)
      with (match b a s with
            | (inl e, s') => Some (inl e, s')
            | (inr (inl a'), s') => loop (S fuel) b a' s'
            | (inr (inr r), s') => Some (inr r, s')
            end).
    unfold TFramedTransport.cstringio_refill_body at 1.
    replace (len prefix <? reqlen) with true
      by (symmetry; apply Z.ltb_lt; lia).
    unfold bind at 1, framed_at.
    rewrite framed_readFrame_here by exact HP.
    unfold bind, TFramedTransport.on_rbuf, zoom, ret, BytesIO.getvalue,
      BytesIO.new.
    fields. cbn [loop]. unfold TFramedTransport.cstringio_refill_body, ret.
    replace (len (prefix ++ P) <? reqlen) with false
      by (symmetry; apply Z.ltb_ge; rewrite len_app; lia).
    reflexivity.
Qed.

Lemma framed_refill_whole_frames_witness :
  TFramedTransport.cstringio_refill 2 [x01] 3
    (framed_at (frame hello ++ frame hello) 0 (BytesIO.new [xff]))
  = Some (inr (BytesIO.new ([x01] ++ hello)),
          framed_at (frame hello ++ frame hello) 9
            (BytesIO.new ([x01] ++ hello))).
Proof.
  apply (proj2 (framed_refill_whole_frames [x01] 3 0) [] hello (frame hello)).
  - vm_compute. discriminate.
  - reflexivity.
  - vm_compute. discriminate.
Defined.

(** ** Refilling the buffer of the C decoder *)

(** A loop that has ended gives the same result with more fuel. *)
Lemma loop_more_fuel {S A B : Type} (body : A -> M S (A + B)) (fuel : nat) :
  forall (a : A) (s : S) (r : outcome B * S),
    loop fuel body a s = Some r ->
    forall k : nat, loop (fuel + k) body a s = Some r.
Proof.
  induction fuel as [|fuel IH]; intros a s r Hr k; [discriminate|].
  simpl in *. destruct (body a s) as [[e|[a'|b]] s']; try exact Hr.
  now apply IH.
Qed.

Lemma unpack_i_fails (buff : bytes) (e : exn) :
  unpack_i buff = inl e -> e = StructError /\ len buff <> 4.
Proof.
  unfold unpack_i. destruct (Z.eqb_spec (len buff) 4) as [E4|N4];
    [discriminate|].
  intros [= <-]. now split.
Qed.

Section RefillFacts.
Context {U : Type} `{TTransportBase.Methods U}.
Variable P : exn -> Prop.
Hypothesis Hraises : read_raises_only (T := U) P.

Lemma buffered_refill_spec (partialread : bytes) (reqlen : Z)
  (s : TBufferedTransport.t U) :
  match TBufferedTransport.cstringio_refill partialread reqlen s with
  | (inr b, s') =>
      b = TBufferedTransport.rbuf s' /\ refilled partialread reqlen b
  | (inl e, _) => e = EOFError \/ P e
  end.
Proof.
  unfold TBufferedTransport.cstringio_refill.
  unfold bind at 1, gets at 1.
  set (w := TBufferedTransport.rbuf_size s).
  assert (Hfinish : forall (retstring : bytes) (s1 : TBufferedTransport.t U),
             (exists more, retstring = partialread ++ more) ->
             match
               (retstring0 <-
                  (if len retstring <? reqlen
                   then more <- TBufferedTransport.on_trans
                                  (TTransportBase.readAll
                                     (reqlen - len retstring)) ;;
                        ret (retstring ++ more)
                   else ret retstring) ;;
                TBufferedTransport.set_rbuf (BytesIO.new retstring0) ;;;
                gets (@TBufferedTransport.rbuf U)) s1
             with
             | (inr b, s') =>
                 b = TBufferedTransport.rbuf s'
                 /\ refilled partialread reqlen b
             | (inl e, _) => e = EOFError \/ P e
             end).
  { intros retstring s1 [more0 Hpre].
    destruct (Z.ltb_spec (len retstring) reqlen) as [Hshort|Hlong].
    - unfold bind, TBufferedTransport.on_trans, zoom.
      destruct (TTransportBase.readAll (reqlen - len retstring)
                  (TBufferedTransport.trans s1)) as [[e|more] u1] eqn:Hall.
      + eapply readAll_raises; eassumption.
      + simpl. split; [reflexivity|]. apply readAll_length in Hall.
        repeat split.
        * exists (more0 ++ more). subst retstring.
          now rewrite app_assoc.
        * simpl. rewrite len_app. lia.
    - simpl. split; [reflexivity|]. repeat split.
      + exists more0. exact Hpre.
      + simpl. lia. }
  destruct (reqlen <? w).
  - unfold bind at 1. unfold bind at 1.
    unfold TBufferedTransport.on_trans at 1, zoom at 1.
    destruct (TTransportBase.read w (TBufferedTransport.trans s))
      as [[e|chunk] u1] eqn:Hread.
    + right. eapply Hraises, Hread.
    + apply Hfinish. now exists chunk.
  - unfold bind at 1. unfold ret at 1. apply Hfinish.
    exists []. now rewrite app_nil_r.
Qed.

(** A frame read raises [EOFError], what the wrapped [read] raised, or
    [StructError] when the header came back longer than the 4 bytes
    asked for. *)
Lemma framed_readFrame_raises (s s' : TFramedTransport.t U) (e : exn) :
  TFramedTransport.readFrame s = (inl e, s') ->
  e = EOFError \/ P e \/ (e = StructError /\ ~ read_bounded (T := U)).
Proof.
  rewrite framed_readFrame_eq.
  destruct (TTransportBase.readAll 4 (TFramedTransport.trans s))
    as [[e1|header] u1] eqn:Hhead.
  - intros [= <- <-].
    destruct (@readAll_raises U _ P _ _ _ _ Hraises Hhead); auto.
  - destruct (unpack_i header) as [e1|sz] eqn:Hun.
    + intros [= <- <-]. right. right.
      apply unpack_i_fails in Hun. destruct Hun as [-> Hlen].
      split; [reflexivity|]. intros Hb. apply Hlen.
      exact (@readAll_exact U _ 4 _ _ _ Hb ltac:(lia) Hhead).
    + destruct (TTransportBase.readAll sz u1) as [[e1|payload] u2] eqn:Hbody;
        [|discriminate].
      intros [= <- <-].
      destruct (@readAll_raises U _ P _ _ _ _ Hraises Hbody); auto.
Qed.

Lemma framed_refill_loop (reqlen : Z) (fuel : nat) :
  forall (prefix : bytes) (s : TFramedTransport.t U),
    match loop fuel (TFramedTransport.cstringio_refill_body reqlen)
            prefix s with
    | None => True
    | Some (inl e, _) =>
        e = EOFError \/ P e \/ (e = StructError /\ ~ read_bounded (T := U))
    | Some (inr prefix', _) =>
        (exists more : bytes, prefix' = prefix ++ more)
        /\ reqlen <= len prefix'
    end.
Proof.
  induction fuel as [|fuel IH]; intros prefix s; [exact I|].
  simpl. unfold TFramedTransport.cstringio_refill_body at 1.
  destruct (Z.ltb_spec (len prefix) reqlen) as [Hshort|Hlong].
  - unfold bind at 1.
    destruct (TFramedTransport.readFrame s) as [[e|[]] s1] eqn:Hframe.
    + eapply framed_readFrame_raises, Hframe.
    + destruct (framed_readFrame_fresh _ Hframe) as [payload Hfresh].
      unfold bind, TFramedTransport.on_rbuf, zoom, BytesIO.getvalue.
      rewrite Hfresh. simpl.
      specialize (IH (prefix ++ payload)
                    (TFramedTransport.mk (TFramedTransport.trans s1)
                       (BytesIO.new payload) (TFramedTransport.wbuf s1))).
      destruct (loop fuel _ _ _) as [[[e|prefix'] s2]|]; try exact IH.
      destruct IH as [[more ->] Hlen]. split; [|exact Hlen].
      exists (payload ++ more). now rewrite app_assoc.
  - simpl. split; [|lia]. exists []. now rewrite app_nil_r.
Qed.

Lemma framed_refill_spec (fuel : nat) (prefix : bytes) (reqlen : Z)
  (s : TFramedTransport.t U) (r : outcome BytesIO.t * TFramedTransport.t U) :
  TFramedTransport.cstringio_refill fuel prefix reqlen s = Some r ->
  (forall k : nat,
      TFramedTransport.cstringio_refill (fuel + k) prefix reqlen s = Some r)
  /\ match r with
     | (inr b, s') =>
         b = TFramedTransport.rbuf s' /\ refilled prefix reqlen b
     | (inl e, _) =>
         e = EOFError \/ P e \/ (e = StructError /\ ~ read_bounded (T := U))
     end.
Proof.
  unfold TFramedTransport.cstringio_refill.
  pose proof (framed_refill_loop reqlen fuel prefix s) as Hloop.
  destruct (loop fuel _ prefix s) as [[[e|prefix'] s1]|] eqn:El;
    [| |discriminate].
  - intros [= <-]. split; [|exact Hloop].
    intros k. now rewrite (loop_more_fuel _ _ _ _ El k).
  - intros [= <-]. split.
    + intros k. now rewrite (loop_more_fuel _ _ _ _ El k).
    + destruct Hloop as [Hpre Hlen]. simpl. split; [reflexivity|].
      repeat split; assumption.
Qed.

End RefillFacts.

Section SaslRefillFacts.
Context {U E : Type} `{TTransportBase.Methods U} `{SASLClient.Methods E}.
Variable P : exn -> Prop.
Hypothesis Hraises : read_raises_only (T := U) P.
Variable Q : exn -> Prop.
Hypothesis Hunwrap : unwrap_raises_only (E := E) Q.

Lemma sasl_read_frame_raises (s s' : TSaslClientTransport.t U E)
  (e : exn) :
  TSaslClientTransport._read_frame s = (inl e, s') ->
  e = EOFError \/ P e \/ Q e
  \/ (e = StructError /\ ~ read_bounded (T := U)).
Proof.
  rewrite sasl_read_frame_eq.
  destruct (TTransportBase.readAll 4 (TSaslClientTransport.transport s))
    as [[e1|header] u1] eqn:Hhead.
  - intros [= <- <-].
    destruct (@readAll_raises U _ P _ _ _ _ Hraises Hhead); auto.
  - destruct (unpack_i header) as [e1|sz] eqn:Hun.
    + intros [= <- <-]. right. right. right.
      apply unpack_i_fails in Hun. destruct Hun as [-> Hlen].
      split; [reflexivity|]. intros Hb. apply Hlen.
      exact (@readAll_exact U _ 4 _ _ _ Hb ltac:(lia) Hhead).
    + destruct (TTransportBase.readAll sz u1) as [[e1|encoded] u2] eqn:Hbody.
      * intros [= <- <-].
        destruct (@readAll_raises U _ P _ _ _ _ Hraises Hbody); auto.
      * destruct (SASLClient.unwrap encoded (TSaslClientTransport.sasl s))
          as [[e1|decoded] g] eqn:Hdec; [|discriminate].
        intros [= <- <-]. right. right. left. eapply Hunwrap, Hdec.
Qed.

Lemma sasl_refill_loop (reqlen : Z) (fuel : nat) :
  forall (prefix : bytes) (s : TSaslClientTransport.t U E),
    match loop fuel (TSaslClientTransport.cstringio_refill_body reqlen)
            prefix s with
    | None => True
    | Some (inl e, _) =>
        e = EOFError \/ P e \/ Q e
        \/ (e = StructError /\ ~ read_bounded (T := U))
    | Some (inr prefix', _) =>
        (exists more : bytes, prefix' = prefix ++ more)
        /\ reqlen <= len prefix'
    end.
Proof.
  induction fuel as [|fuel IH]; intros prefix s; [exact I|].
  simpl. unfold TSaslClientTransport.cstringio_refill_body at 1.
  destruct (Z.ltb_spec (len prefix) reqlen) as [Hshort|Hlong].
  - unfold bind at 1.
    destruct (TSaslClientTransport._read_frame s) as [[e|[]] s1] eqn:Hframe.
    + eapply sasl_read_frame_raises, Hframe.
    + destruct (sasl_read_frame_fresh _ Hframe) as [payload Hfresh].
      unfold bind, TSaslClientTransport.on_rbuf, zoom, BytesIO.getvalue.
      rewrite Hfresh. simpl.
      specialize (IH (prefix ++ payload)
                    (TSaslClientTransport.mk
                       (TSaslClientTransport.transport s1)
                       (TSaslClientTransport.sasl s1)
                       (TSaslClientTransport.wbuf s1)
                       (BytesIO.new payload))).
      destruct (loop fuel _ _ _) as [[[e|prefix'] s2]|]; try exact IH.
      destruct IH as [[more ->] Hlen]. split; [|exact Hlen].
      exists (payload ++ more). now rewrite app_assoc.
  - simpl. split; [|lia]. exists []. now rewrite app_nil_r.
Qed.

Lemma sasl_refill_spec (fuel : nat) (prefix : bytes) (reqlen : Z)
  (s : TSaslClientTransport.t U E)
  (r : outcome BytesIO.t * TSaslClientTransport.t U E) :
  TSaslClientTransport.cstringio_refill fuel prefix reqlen s = Some r ->
  (forall k : nat,
      TSaslClientTransport.cstringio_refill (fuel + k) prefix reqlen s
      = Some r)
  /\ match r with
     | (inr b, s') =>
         b = TSaslClientTransport.rbuf s' /\ refilled prefix reqlen b
     | (inl e, _) =>
         e = EOFError \/ P e \/ Q e
         \/ (e = StructError /\ ~ read_bounded (T := U))
     end.
Proof.
  unfold TSaslClientTransport.cstringio_refill.
  pose proof (sasl_refill_loop reqlen fuel prefix s) as Hloop.
  destruct (loop fuel _ prefix s) as [[[e|prefix'] s1]|] eqn:El;
    [| |discriminate].
  - intros [= <-]. split; [|exact Hloop].
    intros k. now rewrite (loop_more_fuel _ _ _ _ El k).
  - intros [= <-]. split.
    + intros k. now rewrite (loop_more_fuel _ _ _ _ El k).
    + destruct Hloop as [Hpre Hlen]. simpl. split; [reflexivity|].
      repeat split; assumption.
Qed.

End SaslRefillFacts.

Lemma read_raises_raised {U : Type} `{TTransportBase.Methods U} :
  read_raises_only (T := U) (raised_by_read (T := U)).
Proof. intros n t t' e Hr. now exists n, t, t'. Qed.

Lemma unwrap_raises_raised {E : Type} `{SASLClient.Methods E} :
  unwrap_raises_only (E := E) (raised_by_unwrap (E := E)).
Proof. intros data g g' e Hr. now exists data, g, g'. Qed.

(** *** Refills that come to an end *)

(** On a memory buffer the refill loop of [TFramedTransport] ends: every
    round that does not raise moves the cursor at least four bytes
    on. *)
Lemma framed_refill_loop_mem (reqlen : Z) (n : nat) :
  forall (prefix : bytes) (v : bytes) (p : nat) (c : bool)
         (rb wb : BytesIO.t),
    (length v - p <= n)%nat ->
    loop (S n) (TFramedTransport.cstringio_refill_body reqlen) prefix
      (TFramedTransport.mk (TMemoryBuffer.mk (BytesIO.mk v p c)) rb wb)
    <> None.
Proof.
  induction n as [|n IH]; intros prefix v p c rb wb Hn.
  - simpl. unfold TFramedTransport.cstringio_refill_body.
    destruct (len prefix <? reqlen); [|discriminate].
    unfold bind at 1. rewrite framed_readFrame_eq. fields.
    destruct c.
    + discriminate.
    + change (TMemoryBuffer.mk (BytesIO.mk v p false)) with (mem_at v p).
      rewrite mem_readAll by lia.
      assert (Hrest : len (skipn p v) = 0).
      { unfold len. rewrite length_skipn. lia. }
      rewrite Hrest. discriminate.
  - change (loop (S (S n)) ?b ?a ?s)
      with (match b a s with
            | (inl e, s') => Some (inl e, s')
            | (inr (inl a'), s') => loop (S n) b a' s'
            | (inr (inr r), s') => Some (inr r, s')
            end).
    unfold TFramedTransport.cstringio_refill_body at 1.
    destruct (len prefix <? reqlen); [|discriminate].
    unfold bind at 1. rewrite framed_readFrame_eq. fields.
    destruct c.
    + discriminate.
    + change (TMemoryBuffer.mk (BytesIO.mk v p false)) with (mem_at v p).
      rewrite mem_readAll by lia.
      destruct (Z.leb_spec 4 (len (skipn p v))) as [Hhave|Hnot];
        [|discriminate].
      assert (Hhead : len (firstn (Z.to_nat 4) (skipn p v)) = 4).
      { unfold len in *. rewrite firstn_length_le; lia. }
      destruct (unpack_i_len _ Hhead) as [sz Hsz].
      pose proof (unpack_i_range _ Hsz) as Hrange. rewrite Hsz.
      assert (Hp : (p + 4 <= length v)%nat).
      { unfold len in Hhave. rewrite length_skipn in Hhave. lia. }
      destruct (Z.le_gt_cases sz 0) as [Hneg|Hpos].
      * rewrite readAll_nonpos by exact Hneg.
        unfold bind, TFramedTransport.on_rbuf, zoom. simpl.
        apply IH. simpl. lia.
      * rewrite mem_readAll by lia.
        destruct (sz <=? len (skipn (p + Z.to_nat 4) v)); [|discriminate].
        unfold bind, TFramedTransport.on_rbuf, zoom. simpl.
        apply IH. simpl. lia.
Qed.

Lemma framed_refill_mem_ends (prefix : bytes) (reqlen : Z)
  (s : TFramedTransport.t TMemoryBuffer.t) :
  exists (fuel : nat)
         (r : outcome BytesIO.t * TFramedTransport.t TMemoryBuffer.t),
    TFramedTransport.cstringio_refill fuel prefix reqlen s = Some r.
Proof.
  destruct s as [[[v p c]] rb wb].
  exists (S (length v - p)). unfold TFramedTransport.cstringio_refill.
  pose proof (@framed_refill_loop_mem reqlen (length v - p) prefix v p c
                rb wb (Nat.le_refl _)) as Hloop.
  destruct (loop _ _ _ _) as [[[e|prefix'] s1]|];
    [eauto | eauto | contradiction].
Qed.

(** The same for [TSaslClientTransport], whatever the engine does with
    the frames. *)
Lemma sasl_refill_loop_mem {E : Type} `{SASLClient.Methods E} (reqlen : Z)
  (n : nat) :
  forall (prefix : bytes) (v : bytes) (p : nat) (c : bool) (g : E)
         (wb rb : BytesIO.t),
    (length v - p <= n)%nat ->
    loop (S n) (TSaslClientTransport.cstringio_refill_body reqlen) prefix
      (TSaslClientTransport.mk (TMemoryBuffer.mk (BytesIO.mk v p c)) g wb rb)
    <> None.
Proof.
  induction n as [|n IH]; intros prefix v p c g wb rb Hn.
  - simpl. unfold TSaslClientTransport.cstringio_refill_body.
    destruct (len prefix <? reqlen); [|discriminate].
    unfold bind at 1. rewrite sasl_read_frame_eq. fields.
    destruct c.
    + discriminate.
    + change (TMemoryBuffer.mk (BytesIO.mk v p false)) with (mem_at v p).
      rewrite mem_readAll by lia.
      assert (Hrest : len (skipn p v) = 0).
      { unfold len. rewrite length_skipn. lia. }
      rewrite Hrest. discriminate.
  - change (loop (S (S n)) ?b ?a ?s)
      with (match b a s with
            | (inl e, s') => Some (inl e, s')
            | (inr (inl a'), s') => loop (S n) b a' s'
            | (inr (inr r), s') => Some (inr r, s')
            end).
    unfold TSaslClientTransport.cstringio_refill_body at 1.
    destruct (len prefix <? reqlen); [|discriminate].
    unfold bind at 1. rewrite sasl_read_frame_eq. fields.
    destruct c.
    + discriminate.
    + change (TMemoryBuffer.mk (BytesIO.mk v p false)) with (mem_at v p).
      rewrite mem_readAll by lia.
      destruct (Z.leb_spec 4 (len (skipn p v))) as [Hhave|Hnot];
        [|discriminate].
      assert (Hhead : len (firstn (Z.to_nat 4) (skipn p v)) = 4).
      { unfold len in *. rewrite firstn_length_le; lia. }
      destruct (unpack_i_len _ Hhead) as [sz Hsz].
      pose proof (unpack_i_range _ Hsz) as Hrange. rewrite Hsz.
      assert (Hp : (p + 4 <= length v)%nat).
      { unfold len in Hhave. rewrite length_skipn in Hhave. lia. }
      destruct (Z.le_gt_cases sz 0) as [Hneg|Hpos].
      * rewrite readAll_nonpos by exact Hneg.
        destruct (SASLClient.unwrap [] g) as [[e|decoded] g1];
          [discriminate|].
        unfold bind, TSaslClientTransport.on_rbuf, zoom. simpl.
        apply IH. simpl. lia.
      * rewrite mem_readAll by lia.
        destruct (sz <=? len (skipn (p + Z.to_nat 4) v)); [|discriminate].
        destruct (SASLClient.unwrap _ g) as [[e|decoded] g1];
          [discriminate|].
        unfold bind, TSaslClientTransport.on_rbuf, zoom. simpl.
        apply IH. simpl. lia.
Qed.

Lemma sasl_refill_mem_ends {E : Type} `{SASLClient.Methods E}
  (prefix : bytes) (reqlen : Z)
  (s : TSaslClientTransport.t TMemoryBuffer.t E) :
  exists (fuel : nat)
         (r : outcome BytesIO.t * TSaslClientTransport.t TMemoryBuffer.t E),
    TSaslClientTransport.cstringio_refill fuel prefix reqlen s = Some r.
Proof.
  destruct s as [[[v p c]] g wb rb].
  exists (S (length v - p)). unfold TSaslClientTransport.cstringio_refill.
  pose proof (@sasl_refill_loop_mem E _ reqlen (length v - p) prefix v p c
                g wb rb (Nat.le_refl _)) as Hloop.
  destruct (loop _ _ _ _) as [[[e|prefix'] s1]|];
    [eauto | eauto | contradiction].
Qed.

(** *** Refills that return *)

Lemma mem_read_fits (sz : Z) (v : bytes) (p : nat) :
  -9223372036854775808 <= sz <= 9223372036854775807 ->
  TTransportBase.read sz (mem_at v p)
  = (inr (if sz <? 0 then skipn p v else firstn (Z.to_nat sz) (skipn p v)),
     mem_at v
       (p + length (if sz <? 0 then skipn p v
                    else firstn (Z.to_nat sz) (skipn p v)))).
Proof.
  intros Hsz. unfold mem_at. simpl TTransportBase.read.
  unfold TMemoryBuffer.read, TMemoryBuffer.on_buffer, zoom. fields.
  rewrite BytesIO_read_open by fits. reflexivity.
Qed.

(** Over an open memory buffer that holds the bytes still missing, the
    refill of [TBufferedTransport] returns. *)
Lemma buffered_refill_mem_returns (v : bytes) (p : nat) (wb rb : BytesIO.t)
  (W : Z) (partialread : bytes) (reqlen : Z) :
  -9223372036854775808 <= W <= 9223372036854775807 ->
  reqlen <= 9223372036854775807 ->
  reqlen <= len partialread + len (skipn p v) ->
  exists (b : BytesIO.t) (s' : TBufferedTransport.t TMemoryBuffer.t),
    TBufferedTransport.cstringio_refill partialread reqlen
      (TBufferedTransport.mk (mem_at v p) wb rb W)
    = (inr b, s')
    /\ b = TBufferedTransport.rbuf s' /\ refilled partialread reqlen b.
Proof.
  intros HW Hreq Hfit.
  pose proof (@buffered_refill_spec TMemoryBuffer.t _ (fun _ => True)
                (fun _ _ _ _ _ => I) partialread reqlen
                (TBufferedTransport.mk (mem_at v p) wb rb W)) as Hspec.
  destruct (TBufferedTransport.cstringio_refill partialread reqlen
              (TBufferedTransport.mk (mem_at v p) wb rb W))
    as [[e|b] s'] eqn:Er.
  2:{ exists b, s'. split; [reflexivity | exact Hspec]. }
  exfalso. clear Hspec. revert Er.
  pose proof (len_nonneg partialread) as H0.
  unfold TBufferedTransport.cstringio_refill, bind, gets,
    TBufferedTransport.on_trans, TBufferedTransport.set_rbuf, zoom, modify,
    ret.
  fields.
  assert (Hall : forall (q : nat) (n : Z),
             0 <= n <= 9223372036854775807 -> n <= len (skipn q v) ->
             fst (TTransportBase.readAll n (mem_at v q))
             = inr (firstn (Z.to_nat n) (skipn q v))).
  { intros q n Hn Hle. rewrite mem_readAll by exact Hn.
    replace (n <=? len (skipn q v)) with true
      by (symmetry; apply Z.leb_le; exact Hle).
    reflexivity. }
  destruct (reqlen <? W).
  - cbv beta. fields. rewrite mem_read_fits by exact HW.
    set (chunk := if W <? 0 then skipn p v
                  else firstn (Z.to_nat W) (skipn p v)).
    assert (Hchunk : skipn p v = chunk ++ skipn (p + length chunk) v).
    { subst chunk. destruct (W <? 0).
      - rewrite Nat.add_comm, <- skipn_skipn, skipn_all, app_nil_r.
        reflexivity.
      - rewrite Nat.add_comm, <- skipn_skipn, skipn_firstn_length.
        now rewrite firstn_skipn. }
    fields.
    destruct (Z.ltb_spec (len (partialread ++ chunk)) reqlen)
      as [Hshort|Hlong]; [|discriminate].
    cbv beta. fields. rewrite len_app in Hshort.
    pose proof (len_nonneg chunk) as H1.
    assert (Hroom : reqlen - len (partialread ++ chunk)
                    <= len (skipn (p + length chunk) v)).
    { rewrite Hchunk, len_app in Hfit. rewrite len_app. lia. }
    specialize (Hall (p + length chunk)%nat
                  (reqlen - len (partialread ++ chunk))
                  ltac:(rewrite len_app; lia) Hroom).
    destruct (TTransportBase.readAll _ (mem_at v (p + length chunk)))
      as [[e1|more] u1]; [simpl in Hall; discriminate Hall | simpl; discriminate].
  - cbv beta. fields.
    destruct (Z.ltb_spec (len partialread) reqlen) as [Hshort|Hlong];
      [|discriminate].
    cbv beta. fields.
    specialize (Hall p (reqlen - len partialread) ltac:(lia) ltac:(lia)).
    destruct (TTransportBase.readAll _ (mem_at v p)) as [[e1|more] u1];
      [simpl in Hall; discriminate Hall | simpl; discriminate].
Qed.

(** The loop of the framed refill over a memory buffer that holds the
    frames of [Ps]: it reads frames until the bytes suffice. *)
Lemma framed_refill_loop_frames (reqlen : Z) (Ps : list bytes) :
  Forall (fun P => len P <= 2147483647) Ps ->
  forall (prefix pre post : bytes) (rb : BytesIO.t) (fuel : nat),
    reqlen <= len prefix + len (concat Ps) ->
    (length Ps < fuel)%nat ->
    exists (k : nat) (rb' : BytesIO.t),
      loop fuel (TFramedTransport.cstringio_refill_body reqlen) prefix
        (framed_at (pre ++ concat (map frame Ps) ++ post) (length pre) rb)
      = Some (inr (prefix ++ concat (firstn k Ps)),
              framed_at (pre ++ concat (map frame Ps) ++ post)
                (length (pre ++ concat (map frame (firstn k Ps)))) rb').
Proof.
  induction 1 as [|P Ps HP _ IH]; intros prefix pre post rb fuel Hfit Hfuel.
  - destruct fuel as [|fuel]; [lia|]. exists O, rb.
    cbn [loop]. unfold TFramedTransport.cstringio_refill_body.
    replace (len prefix <? reqlen) with false
      by (symmetry; apply Z.ltb_ge; simpl in Hfit; rewrite len_nil in Hfit;
          lia).
    cbn [firstn map concat]. now rewrite !app_nil_r.
  - destruct fuel as [|fuel]; [simpl in Hfuel; lia|].
    destruct (Z.ltb_spec (len prefix) reqlen) as [Hshort|Hlong].
    + cbn [map concat] in *. rewrite len_app in Hfit.
      specialize (IH (prefix ++ P) (pre ++ frame P) post (BytesIO.new P) fuel
                    ltac:(rewrite len_app; lia) ltac:(simpl in Hfuel; lia)).
      destruct IH as (k & rb' & IH). exists (S k), rb'.
      cbn [loop]. unfold TFramedTransport.cstringio_refill_body at 1.
      replace (len prefix <? reqlen) with true
        by (symmetry; apply Z.ltb_lt; lia).
      unfold bind at 1, framed_at. rewrite <- (app_assoc (frame P)).
      rewrite framed_readFrame_here by exact HP.
      unfold bind, TFramedTransport.on_rbuf, zoom, ret, BytesIO.getvalue,
        BytesIO.new.
      fields.
      unfold framed_at, BytesIO.new in IH. rewrite <- !app_assoc in IH.
      rewrite IH. cbn [firstn map concat]. now rewrite <- ?app_assoc.
    + exists O, rb. cbn [loop]. unfold TFramedTransport.cstringio_refill_body.
      replace (len prefix <? reqlen) with false
        by (symmetry; apply Z.ltb_ge; lia).
      cbn [firstn map concat]. now rewrite !app_nil_r.
Qed.

Lemma framed_refill_frames_return (reqlen : Z) (Ps : list bytes)
  (prefix pre post : bytes) (rb : BytesIO.t) (fuel : nat) :
  Forall (fun P => len P <= 2147483647) Ps ->
  reqlen <= len prefix + len (concat Ps) ->
  (length Ps < fuel)%nat ->
  exists k : nat,
    TFramedTransport.cstringio_refill fuel prefix reqlen
      (framed_at (pre ++ concat (map frame Ps) ++ post) (length pre) rb)
    = Some (inr (BytesIO.new (prefix ++ concat (firstn k Ps))),
            framed_at (pre ++ concat (map frame Ps) ++ post)
              (length (pre ++ concat (map frame (firstn k Ps))))
              (BytesIO.new (prefix ++ concat (firstn k Ps)))).
Proof.
  intros HPs Hfit Hfuel.
  destruct (framed_refill_loop_frames HPs prefix pre post rb Hfit Hfuel)
    as (k & rb' & Hloop).
  exists k. unfold TFramedTransport.cstringio_refill. rewrite Hloop.
  reflexivity.
Qed.

(** The frame carrying [enc] found at the cursor is read whole and
    unwrapped. *)
Lemma sasl_read_frame_here {E : Type} `{SASLClient.Methods E}
  (pre enc post dec : bytes) (g g1 : E) (wb rb : BytesIO.t) :
  SASLClient.unwrap enc g = (inr dec, g1) ->
  len enc <= 2147483647 ->
  TSaslClientTransport._read_frame
    (TSaslClientTransport.mk
       (mem_at (pre ++ frame enc ++ post) (length pre)) g wb rb)
  = (inr tt,
     TSaslClientTransport.mk
       (mem_at (pre ++ frame enc ++ post) (length (pre ++ frame enc))) g1 wb
       (BytesIO.new dec)).
Proof.
  intros Hun HP. pose proof (len_nonneg enc) as H0.
  rewrite sasl_read_frame_eq. fields.
  unfold frame. rewrite <- !app_assoc.
  pose proof (mem_readAll_here pre (be_bytes4 (len enc)) (enc ++ post)
                ltac:(rewrite len_be_bytes4; lia)) as E1.
  rewrite len_be_bytes4 in E1. rewrite E1.
  rewrite unpack_i_be_bytes4 by lia.
  pose proof (mem_readAll_here (pre ++ be_bytes4 (len enc)) enc post
                ltac:(lia)) as E2.
  rewrite <- !app_assoc, length_app in E2. rewrite E2, Hun.
  rewrite !length_app. now rewrite Nat.add_assoc.
Qed.

(** Over a memory buffer whose next frame unwraps to enough bytes, the
    refill of [TSaslClientTransport] returns after that one frame. *)
Lemma sasl_refill_frame_returns {E : Type} `{SASLClient.Methods E}
  (prefix pre enc post dec : bytes) (g g1 : E) (rb : BytesIO.t)
  (reqlen : Z) (fuel : nat) :
  SASLClient.unwrap enc g = (inr dec, g1) ->
  len enc <= 2147483647 ->
  len prefix < reqlen ->
  reqlen <= len prefix + len dec ->
  TSaslClientTransport.cstringio_refill (S (S fuel)) prefix reqlen
    (sasl_at (pre ++ frame enc ++ post) (length pre) g rb)
  = Some (inr (BytesIO.new (prefix ++ dec)),
          sasl_at (pre ++ frame enc ++ post) (length (pre ++ frame enc)) g1
            (BytesIO.new (prefix ++ dec))).
Proof.
  intros Hun HP Hshort Hfit.
  unfold TSaslClientTransport.cstringio_refill.
  change (loop (S (S fuel)) ?b ?a ?s)
    with (match b a s with
          | (inl e, s') => Some (inl e, s')
          | (inr (inl a'), s') => loop (S fuel) b a' s'
          | (inr (inr r), s') => Some (inr r, s')
          end).
  unfold TSaslClientTransport.cstringio_refill_body at 1.
  replace (len prefix <? reqlen) with true
    by (symmetry; apply Z.ltb_lt; lia).
  unfold bind at 1, sasl_at.
  rewrite (@sasl_read_frame_here E _ pre enc post dec g g1 _ _ Hun HP).
  unfold bind, TSaslClientTransport.on_rbuf, zoom, ret, BytesIO.getvalue,
    BytesIO.new.
  fields. cbn [loop]. unfold TSaslClientTransport.cstringio_refill_body, ret.
  replace (len (prefix ++ dec) <? reqlen) with false
    by (symmetry; apply Z.ltb_ge; rewrite len_app; lia).
  reflexivity.
Qed.



